(** * cc-monitor: the server-side streaming engine

    A shallow embedding of the TypeScript server of cc-monitor
    (FileStreamMonitor, AuthenticationService, WebSocketServer,
    ConnectionManager and the auth routes), and the properties of its
    specification checked against it.

    Conventions of the embedding.
    - Instants ([Date]) are integers: milliseconds since the epoch.
      Every operation that reads the clock takes the instant as [now];
      the clock reads of one call give the same instant.
    - A handler runs to its end on one snapshot of the file it reads:
      the [await]s inside a handler are not interleaved with other
      handlers.
    - A JavaScript [Map] that is only looked up, set and deleted is a
      [gmap]; a [Set<string>] and a [Map] that the code iterates are lists
      in insertion order.
    - An exception is a value: [Throw] of a completion, or [inl] of a sum.
    - The envelope field [timestamp: new Date().toISOString()] of the
      messages written to a socket carries no information the properties
      below use, and is left out of the message type.
    - File contents are ASCII, so byte offsets and character indexes
      coincide. *)

From Stdlib Require Import Ascii String ZArith.
From stdpp Require Import gmap strings list.

Set Warnings "-register-all".

Local Open Scope string_scope.
Local Open Scope Z_scope.
Local Open Scope list_scope.

(** ** Characters and text helpers *)

Definition LF : ascii := "010"%char.
Definition CR : ascii := "013"%char.
Definition TAB : ascii := "009"%char.
Definition DQUOTE : ascii := "034"%char.
Definition BACKSLASH : ascii := "092"%char.

Definition ascii_eqb (a b : ascii) : bool := bool_decide (a = b).

(** The examples write JSON text with an apostrophe where the file has a
    double quote; [dq] puts the double quotes back. *)
Fixpoint dq (s : string) : string :=
  match s with
  | EmptyString => EmptyString
  | String c r => String (if ascii_eqb c "'" then DQUOTE else c) (dq r)
  end.

Definition nl : string := String LF EmptyString.

(** [String.prototype.includes] *)
Fixpoint starts_with (p s : string) : bool :=
  match p, s with
  | EmptyString, _ => true
  | String a p', String b s' => ascii_eqb a b && starts_with p' s'
  | String _ _, EmptyString => false
  end.

Fixpoint includes (s p : string) : bool :=
  starts_with p s ||
  match s with
  | EmptyString => false
  | String _ s' => includes s' p
  end.

(** [stream.start]: the content from byte [n] on. *)
Fixpoint string_drop (n : nat) (s : string) : string :=
  match n, s with
  | O, _ => s
  | S n', String _ r => string_drop n' r
  | S _, EmptyString => EmptyString
  end.

(** ** JSON values and [JSON.parse] *)

Module JSON.

(** A number [JNum m e] is [m * 10^e]. *)
Inductive json : Type :=
| JNull
| JBool (b : bool)
| JNum (mantissa exponent : Z)
| JStr (s : string)
| JArr (items : list json)
| JObj (members : list (string * json)).

(** JavaScript truthiness of a parsed value. *)
Definition truthy (v : json) : bool :=
  match v with
  | JNull => false
  | JBool b => b
  | JNum m _ => negb (m =? 0)
  | JStr s => negb (bool_decide (s = EmptyString))
  | JArr _ | JObj _ => true
  end.

(** Truthiness of a property read, where [None] is [undefined]. *)
Definition truthy_opt (o : option json) : bool :=
  match o with
  | Some v => truthy v
  | None => false
  end.

(** The own property [k] of an object built by [JSON.parse]: with a
    repeated key, the last member wins. *)
Fixpoint member (k : string) (ms : list (string * json)) : option json :=
  match ms with
  | [] => None
  | (k', v) :: rest =>
      match member k rest with
      | Some w => Some w
      | None => if bool_decide (k' = k) then Some v else None
      end
  end.

(** [v === s] for a string literal [s]. *)
Definition is_string (v : json) (s : string) : bool :=
  match v with
  | JStr t => bool_decide (t = s)
  | _ => false
  end.

(** *** A reader for JSON text

    [JSON.parse] belongs to the language, not to the repository.  The
    general theorems below take it as a parameter; [parse] is the reader
    the concrete examples run.  It reads the ASCII fragment of JSON
    (a [\u] escape is read when below 0100), and it keeps a number as
    the exact decimal that is written, where [JSON.parse] rounds to a
    double: a literal that underflows to 0 in JavaScript is not 0 here.
    No example has such a number or escape. *)

Definition is_ws (c : ascii) : bool :=
  ascii_eqb c " " || ascii_eqb c TAB || ascii_eqb c LF || ascii_eqb c CR.

Fixpoint skip_ws (s : string) : string :=
  match s with
  | String c r => if is_ws c then skip_ws r else s
  | EmptyString => s
  end.

Definition digit (c : ascii) : option Z :=
  let n := Z.of_nat (nat_of_ascii c) in
  if (48 <=? n) && (n <=? 57) then Some (n - 48) else None.

Definition hex_digit (c : ascii) : option Z :=
  let n := Z.of_nat (nat_of_ascii c) in
  if (48 <=? n) && (n <=? 57) then Some (n - 48)
  else if (97 <=? n) && (n <=? 102) then Some (n - 87)
  else if (65 <=? n) && (n <=? 70) then Some (n - 55)
  else None.

(** Digits at the head of [s]: their value continuing [acc], how many
    were read, and the rest. *)
Fixpoint digits (s : string) (acc : Z) (count : Z) : Z * Z * string :=
  match s with
  | String c r =>
      match digit c with
      | Some d => digits r (10 * acc + d) (count + 1)
      | None => (acc, count, s)
      end
  | EmptyString => (acc, count, s)
  end.

Definition read_exponent (s : string) : option (Z * string) :=
  match s with
  | String c r =>
      if ascii_eqb c "e" || ascii_eqb c "E" then
        let '(sign, r1) :=
          match r with
          | String "+" r' => (1, r')
          | String "-" r' => (-1, r')
          | _ => (1, r)
          end in
        let '(e, n, r2) := digits r1 0 0 in
        if n =? 0 then None else Some (sign * e, r2)
      else Some (0, s)
  | EmptyString => Some (0, s)
  end.

Definition read_fraction (s : string) (int_part : Z) : option (Z * Z * string) :=
  match s with
  | String "." r =>
      let '(m, n, r1) := digits r int_part 0 in
      if n =? 0 then None else Some (m, - n, r1)
  | _ => Some (int_part, 0, s)
  end.

(** A JSON number: an optional minus sign, an integer part without
    leading zero, an optional fraction and an optional exponent. *)
Definition read_number (s : string) : option (json * string) :=
  let '(sign, r0) :=
    match s with
    | String "-" r => (-1, r)
    | _ => (1, s)
    end in
  let int_read :=
    match r0 with
    | String "0" r => Some (0, r)
    | _ => let '(m, n, r) := digits r0 0 0 in
           if n =? 0 then None else Some (m, r)
    end in
  match int_read with
  | None => None
  | Some (ip, r1) =>
      match read_fraction r1 ip with
      | None => None
      | Some (m, e1, r2) =>
          match read_exponent r2 with
          | None => None
          | Some (e2, r3) => Some (JNum (sign * m) (e1 + e2), r3)
          end
      end
  end.

Definition read_hex4 (s : string) : option (ascii * string) :=
  match s with
  | String a (String b (String c (String d r))) =>
      match hex_digit a, hex_digit b, hex_digit c, hex_digit d with
      | Some 0, Some 0, Some x, Some y =>
          Some (ascii_of_nat (Z.to_nat (16 * x + y)), r)
      | _, _, _, _ => None
      end
  | _ => None
  end.

(** The characters of a string literal after its opening quote, up to
    the closing one.  [acc] holds what was read, latest first. *)
Fixpoint read_string (s : string) (acc : list ascii) : option (string * string) :=
  match s with
  | EmptyString => None
  | String c r =>
      if ascii_eqb c DQUOTE then Some (string_of_list_ascii (rev acc), r)
      else if ascii_eqb c BACKSLASH then
        match r with
        | String e r' =>
            if ascii_eqb e DQUOTE then read_string r' (DQUOTE :: acc)
            else if ascii_eqb e BACKSLASH then read_string r' (BACKSLASH :: acc)
            else if ascii_eqb e "/" then read_string r' ("/"%char :: acc)
            else if ascii_eqb e "b" then read_string r' ("008"%char :: acc)
            else if ascii_eqb e "f" then read_string r' ("012"%char :: acc)
            else if ascii_eqb e "n" then read_string r' (LF :: acc)
            else if ascii_eqb e "r" then read_string r' (CR :: acc)
            else if ascii_eqb e "t" then read_string r' (TAB :: acc)
            else if ascii_eqb e "u" then
              match r' with
              | String a (String b (String x (String y r''))) =>
                  match read_hex4 (String a (String b (String x (String y EmptyString)))) with
                  | Some (ch, _) => read_string r'' (ch :: acc)
                  | None => None
                  end
              | _ => None
              end
            else None
        | EmptyString => None
        end
      else if (nat_of_ascii c <? 32)%nat then None
      else read_string r (c :: acc)
  end.

Fixpoint read_value (fuel : nat) (s : string) : option (json * string) :=
  match fuel with
  | O => None
  | S fuel' =>
      let s0 := skip_ws s in
      match s0 with
      | EmptyString => None
      | String c r =>
          if ascii_eqb c "{" then
            match skip_ws r with
            | String "}" r' => Some (JObj [], r')
            | r' => read_members fuel' r' []
            end
          else if ascii_eqb c "[" then
            match skip_ws r with
            | String "]" r' => Some (JArr [], r')
            | r' => read_items fuel' r' []
            end
          else if ascii_eqb c DQUOTE then
            match read_string r [] with
            | Some (t, r') => Some (JStr t, r')
            | None => None
            end
          else if starts_with "true" s0 then Some (JBool true, string_drop 4 s0)
          else if starts_with "false" s0 then Some (JBool false, string_drop 5 s0)
          else if starts_with "null" s0 then Some (JNull, string_drop 4 s0)
          else read_number s0
      end
  end
with read_items (fuel : nat) (s : string) (acc : list json) : option (json * string) :=
  match fuel with
  | O => None
  | S fuel' =>
      match read_value fuel' s with
      | Some (v, r) =>
          match skip_ws r with
          | String "," r' => read_items fuel' r' (v :: acc)
          | String "]" r' => Some (JArr (rev (v :: acc)), r')
          | _ => None
          end
      | None => None
      end
  end
with read_members (fuel : nat) (s : string) (acc : list (string * json)) : option (json * string) :=
  match fuel with
  | O => None
  | S fuel' =>
      match skip_ws s with
      | String c r =>
          if ascii_eqb c DQUOTE then
            match read_string r [] with
            | Some (k, r1) =>
                match skip_ws r1 with
                | String ":" r2 =>
                    match read_value fuel' r2 with
                    | Some (v, r3) =>
                        match skip_ws r3 with
                        | String "," r4 => read_members fuel' r4 ((k, v) :: acc)
                        | String "}" r4 => Some (JObj (rev ((k, v) :: acc)), r4)
                        | _ => None
                        end
                    | None => None
                    end
                | _ => None
                end
            | None => None
            end
          else None
      | EmptyString => None
      end
  end.

(** [JSON.parse text]: [None] stands for a thrown [SyntaxError]. *)
Definition parse (text : string) : option json :=
  match read_value (2 * String.length text + 2) text with
  | Some (v, r) =>
      match skip_ws r with
      | EmptyString => Some v
      | String _ _ => None
      end
  | None => None
  end.

End JSON.

Import JSON.

(** ** Completions: a value or a thrown exception *)

Inductive completion (A : Type) : Type :=
| Normal (a : A)
| Throw.
Arguments Normal {A} a.
Arguments Throw {A}.

(** ** types/ClaudeCodeTypes.ts *)

Module ClaudeCodeTypes.

(** The interface declares [type] and [message.role] as
    ['user' | 'assistant'] and the other fields as strings; at run time
    the fields hold whatever [JSON.parse] produced, so they are [json]. *)
Record ClaudeCodeMessage : Type := {
  parentUuid : json;
  sessionId : json;
  type : json;
  message : json;
  timestamp : json;
  cwd : json
}.

Inductive SessionState : Type := working | waiting | idle.

End ClaudeCodeTypes.

Import ClaudeCodeTypes.

(** ** A JavaScript [Map] that is iterated: entries in insertion order *)

Module JsMap.
Section Ops.
Context {V : Type}.

(** [set] keeps the position of a key already present. *)
Fixpoint set (k : string) (v : V) (m : list (string * V)) : list (string * V) :=
  match m with
  | [] => [(k, v)]
  | (k', v') :: rest =>
      if bool_decide (k' = k) then (k, v) :: rest else (k', v') :: set k v rest
  end.


Definition delete (k : string) (m : list (string * V)) : list (string * V) :=
  filter (fun e => e.1 <> k) m.

End Ops.
End JsMap.

(** A [Set<string>]: members in insertion order, without repetition. *)
Module JsSet.
Definition has (x : string) (s : list string) : bool := bool_decide (x ∈ s).
Definition add (x : string) (s : list string) : list string :=
  if has x s then s else s ++ [x].
Definition delete (x : string) (s : list string) : list string :=
  filter (fun y => y ≠ x) s.
End JsSet.

(** ** services/FileStreamMonitor.ts *)

Module FileStreamMonitor.

Inductive event : Type :=
| sessionDiscovered (filePath sessionId : string)
| existingMessage (m : ClaudeCodeMessage)
| newMessage (m : ClaudeCodeMessage)
| parseError (line filePath : string)
| error
| sessionTerminated (filePath sessionId reason : string)
| sessionInactive (filePath sessionId reason : string) (lastActivity timestamp : Z).

(** [filePositions] and [lastActivity] of the class. *)
Record state : Type := {
  filePositions : gmap string nat;
  lastActivity : list (string * Z)
}.

Definition initial : state := {| filePositions := ∅; lastActivity := [] |}.

(** *** readline

    [createInterface({input, crlfDelay: Infinity})] iterated with
    [for await]: a line ends at LF, at CR LF or at a lone CR, and when the
    stream ends the text still pending, if any, is handed out as a last
    line.  [acc] is the pending text, latest character first; [afterCR]
    says that the previous character was a CR. *)
Definition flush (acc : list ascii) : string := string_of_list_ascii (rev acc).

Fixpoint readline (s : string) (acc : list ascii) (afterCR : bool) : list string :=
  match s with
  | EmptyString =>
      match acc with
      | [] => []
      | _ :: _ => [flush acc]
      end
  | String c r =>
      if ascii_eqb c LF then
        if afterCR then readline r acc false
        else flush acc :: readline r [] false
      else if ascii_eqb c CR then flush acc :: readline r [] true
      else readline r (c :: acc) false
  end.

(** [!line.trim()]: the line has only white space (ASCII fragment). *)
Definition is_space (c : ascii) : bool :=
  let n := nat_of_ascii c in
  ((9 <=? n) && (n <=? 13))%nat || (n =? 32)%nat.

Fixpoint blank (s : string) : bool :=
  match s with
  | EmptyString => true
  | String c r => is_space c && blank r
  end.

(** *** extractSessionInfo

    [path.basename(filePath, '.jsonl')] for the watched files, which
    match [**/*.jsonl] and so do not end with a slash.  The suffix is
    removed from a name that is longer than it: a file named [.jsonl]
    in a directory keeps its name, and the path [.jsonl] without a
    directory gives the empty string.  [projectPath] plays no part
    below and is not modelled. *)
Fixpoint last_segment (s : string) (acc : list ascii) : list ascii :=
  match s with
  | EmptyString => rev acc
  | String c r =>
      if ascii_eqb c "/" then last_segment r [] else last_segment r (c :: acc)
  end.

Definition strip_ext (name : list ascii) : list ascii :=
  match rev name with
  | "l"%char :: "n"%char :: "o"%char :: "s"%char :: "j"%char :: "."%char :: stem =>
      match stem with
      | [] => name
      | _ :: _ => rev stem
      end
  | _ => name
  end.

Definition extractSessionInfo (filePath : string) : string :=
  if bool_decide (filePath = ".jsonl") then EmptyString
  else string_of_list_ascii (strip_ext (last_segment filePath [])).

Section WithJSON.

(** [JSON.parse]: [None] is a thrown [SyntaxError]. *)
Variable JSON_parse : string -> option json.

(** [parsed.k] when it is truthy.  Reading a property of [null] throws
    a [TypeError]; the callers below rule [null] out first.  A string,
    number, boolean or array has none of the properties read here. *)
Definition truthy_prop (parsed : json) (k : string) : option json :=
  match parsed with
  | JObj ms =>
      match member k ms with
      | Some v => if truthy v then Some v else None
      | None => None
      end
  | _ => None
  end.

(** [parsed.k || ''] *)
Definition prop_or_empty (parsed : json) (k : string) : json :=
  match truthy_prop parsed k with
  | Some v => v
  | None => JStr EmptyString
  end.

(** The body of the [try] block of [parseJSONLLine]. *)
Definition parseJSONLLine_try (line : string) : completion (option ClaudeCodeMessage) :=
  match JSON_parse line with
  | None => Throw
  | Some JNull => Throw
  | Some parsed =>
      match truthy_prop parsed "sessionId", truthy_prop parsed "type",
            truthy_prop parsed "message", truthy_prop parsed "timestamp" with
      | Some sid, Some ty, Some msg, Some ts =>
          Normal (Some {| parentUuid := prop_or_empty parsed "parentUuid";
                          sessionId := sid;
                          type := ty;
                          message := msg;
                          timestamp := ts;
                          cwd := prop_or_empty parsed "cwd" |})
      | _, _, _, _ => Normal None
      end
  end.

(** [parseJSONLLine]: [try { ... } catch { return null; }] *)
Definition parseJSONLLine (line filePath : string) : completion (option ClaudeCodeMessage) :=
  match parseJSONLLine_try line with
  | Throw => Normal None
  | Normal r => Normal r
  end.

(** The body of the [for await] loop of [readNewContent], for one line,
    with listeners of the record event that return, as those of the
    manager do; [heard] below has listeners that throw. *)
Definition on_line (emit : ClaudeCodeMessage -> event) (filePath line : string) : list event :=
  if blank line then []
  else
    match parseJSONLLine line filePath with
    | Normal (Some m) => [emit m]
    | Normal None => []
    | Throw => [parseError line filePath]
    end.

(** [readNewContent(filePath, startPosition)], on the content the file
    has when it is read: the events emitted, in order. *)
Definition readNewContent (content filePath : string) (startPosition : nat) : list event :=
  concat (map (on_line newMessage filePath)
              (readline (string_drop startPosition content) [] false)).

Definition readExistingContent (content filePath : string) : list event :=
  concat (map (on_line existingMessage filePath) (readline content [] false)).

(** *** The read loops with listeners that throw

    [emit] is inside the [try] of both loops: when a listener of the
    record event throws, the event has been emitted and the [catch] emits
    [parseError] for the line.  A listener of [parseError] that throws
    ends the read, the exception leaving the loop.  [hears_record m] and
    [hears_parseError line] say that no listener throws. *)
Record listeners : Type := {
  hears_record : ClaudeCodeMessage -> bool;
  hears_parseError : string -> bool
}.

(** The events of the loop over [lines], in order, and whether the loop
    came to its end. *)
Fixpoint heard (L : listeners) (emit : ClaudeCodeMessage -> event) (filePath : string)
    (lines : list string) : list event * bool :=
  match lines with
  | [] => ([], true)
  | line :: rest =>
      let next := heard L emit filePath rest in
      let caught (emitted : list event) : list event * bool :=
        if hears_parseError L line
        then (emitted ++ parseError line filePath :: next.1, next.2)
        else (emitted ++ [parseError line filePath], false) in
      if blank line then next
      else
        match parseJSONLLine line filePath with
        | Normal (Some m) =>
            if hears_record L m then (emit m :: next.1, next.2) else caught [emit m]
        | Normal None => next
        | Throw => caught []
        end
  end.



(** The file system the handlers see: the content of a path, or [None]
    when [stat] rejects. *)
Definition filesystem : Type := string -> option string.

Definition handleFileAdded (fs : filesystem) (filePath : string) (st : state)
  : state * list event :=
  match fs filePath with
  | None => (st, [error])
  | Some content =>
      let size := String.length content in
      let st' := {| filePositions := <[filePath := size]> (filePositions st);
                    lastActivity := lastActivity st |} in
      (st', sessionDiscovered filePath (extractSessionInfo filePath)
              :: (if (0 <? size)%nat then readExistingContent content filePath else []))
  end.

Definition handleFileChanged (fs : filesystem) (now : Z) (filePath : string) (st : state)
  : state * list event :=
  let currentPosition := default 0%nat (filePositions st !! filePath) in
  match fs filePath with
  | None => (st, [error])
  | Some content =>
      let size := String.length content in
      let activity := JsMap.set filePath now (lastActivity st) in
      if (size <? currentPosition)%nat then
        ({| filePositions := <[filePath := 0%nat]> (filePositions st);
            lastActivity := activity |},
         readNewContent content filePath 0)
      else if (currentPosition <? size)%nat then
        ({| filePositions := <[filePath := size]> (filePositions st);
            lastActivity := activity |},
         readNewContent content filePath currentPosition)
      else
        ({| filePositions := filePositions st; lastActivity := activity |}, [])
  end.

End WithJSON.

(** *** startInactivityMonitoring

    One run of the interval callback at instant [now]. *)
Definition inactiveThreshold : Z := 10 * 60 * 1000.

Definition inactive (now : Z) (entry : string * Z) : bool :=
  inactiveThreshold <? now - entry.2.

Definition inactivity_tick (now : Z) (st : state) : state * list event :=
  ({| filePositions := filePositions st;
      lastActivity := filter (fun e => inactive now e = false) (lastActivity st) |},
   map (fun e => sessionInactive e.1 (extractSessionInfo e.1) "inactivity_timeout" e.2 now)
       (filter (fun e => inactive now e = true) (lastActivity st))).

(** *** handleFileRemoved *)
Definition handleFileRemoved (filePath : string) (st : state) : state * list event :=
  ({| filePositions := delete filePath (filePositions st);
      lastActivity := JsMap.delete filePath (lastActivity st) |},
   [sessionTerminated filePath (extractSessionInfo filePath) "file_removed"]).

End FileStreamMonitor.

(** ** services/AuthenticationService.ts *)

Module AuthenticationService.

Module GuestToken.
Record t : Type := {
  token : string;
  expires : Z;
  deviceId : option string;
  used : bool;
  createdAt : Z
}.
End GuestToken.

Module ApiKey.
Record t : Type := {
  key : string;
  deviceId : string;
  createdAt : Z;
  expiresAt : Z;
  lastUsed : option Z;
  revoked : bool
}.

Definition set_revoked (b : bool) (k : t) : t :=
  {| key := key k; deviceId := deviceId k; createdAt := createdAt k;
     expiresAt := expiresAt k; lastUsed := lastUsed k; revoked := b |}.

Definition set_lastUsed (d : Z) (k : t) : t :=
  {| key := key k; deviceId := deviceId k; createdAt := createdAt k;
     expiresAt := expiresAt k; lastUsed := Some d; revoked := revoked k |}.

Definition set_expiresAt (d : Z) (k : t) : t :=
  {| key := key k; deviceId := deviceId k; createdAt := createdAt k;
     expiresAt := d; lastUsed := lastUsed k; revoked := revoked k |}.
End ApiKey.

Record AuthenticationOptions : Type := {
  qrTokenTTL : Z;
  apiKeyTTL : Z;
  cleanupInterval : Z
}.

(** The defaults of the constructor. *)
Definition default_options : AuthenticationOptions :=
  {| qrTokenTTL := 30 * 1000;
     apiKeyTTL := 30 * 24 * 60 * 60 * 1000;
     cleanupInterval := 60 * 1000 |}.

Inductive event : Type :=
| qrGenerated (guestToken : string) (expiresIn : Z)
| authenticationFailed (reason guestToken : string)
| deviceAuthenticated (deviceId apiKey : string) (expiresAt : Z)
| apiKeyRefreshed (deviceId apiKey : string) (expiresAt : Z)
| apiKeyRevoked (deviceId apiKey : string) (revokedAt : Z)
| tokensCleanedUp (count : nat) (kind : string).

Record state : Type := {
  guestTokens : gmap string GuestToken.t;
  apiKeys : gmap string ApiKey.t;
  options : AuthenticationOptions
}.

(** [options.x || d]: a field that is missing or 0 takes the default. *)
Definition or_default (x d : Z) : Z := if x =? 0 then d else x.

Definition create (o : AuthenticationOptions) : state :=
  {| guestTokens := ∅; apiKeys := ∅;
     options :=
       {| qrTokenTTL := or_default (qrTokenTTL o) (qrTokenTTL default_options);
          apiKeyTTL := or_default (apiKeyTTL o) (apiKeyTTL default_options);
          cleanupInterval :=
            or_default (cleanupInterval o) (cleanupInterval default_options) |} |}.

Definition with_guestTokens (g : gmap string GuestToken.t) (st : state) : state :=
  {| guestTokens := g; apiKeys := apiKeys st; options := options st |}.

Definition with_apiKeys (a : gmap string ApiKey.t) (st : state) : state :=
  {| guestTokens := guestTokens st; apiKeys := a; options := options st |}.

(** [generateGuestToken]; [uuid] is what [crypto.randomUUID()] returns. *)
Definition generateGuestToken (now : Z) (uuid : string) (st : state) : GuestToken.t :=
  {| GuestToken.token := uuid;
     GuestToken.expires := now + qrTokenTTL (options st);
     GuestToken.deviceId := None;
     GuestToken.used := false;
     GuestToken.createdAt := now |}.

(** [generateApiKey]; [hex] is [crypto.randomBytes(32).toString('hex')]. *)
Definition generateApiKey (now : Z) (hex deviceId : string) (st : state) : ApiKey.t :=
  {| ApiKey.key := hex;
     ApiKey.deviceId := deviceId;
     ApiKey.createdAt := now;
     ApiKey.expiresAt := now + apiKeyTTL (options st);
     ApiKey.lastUsed := None;
     ApiKey.revoked := false |}.

(** [generateAuthQR], the QR rendering succeeding: the state, the events
    and the guest token returned. *)
Definition generateAuthQR (now : Z) (uuid : string) (st : state)
  : state * list event * string :=
  let guestToken := generateGuestToken now uuid st in
  (with_guestTokens (<[GuestToken.token guestToken := guestToken]> (guestTokens st)) st,
   [qrGenerated (GuestToken.token guestToken) (qrTokenTTL (options st))],
   GuestToken.token guestToken).

(** [authenticateMobile]: [inl msg] is [throw new Error(msg)], [inr key]
    is the [apiKey] of the value returned. *)
Definition authenticateMobile (now : Z) (hex : string) (guestToken deviceId : string)
    (st : state) : state * list event * (string + string) :=
  match guestTokens st !! guestToken with
  | None =>
      (st, [authenticationFailed "invalid_token" guestToken], inl "Invalid guest token")
  | Some token =>
      if GuestToken.used token then
        (st, [authenticationFailed "token_already_used" guestToken],
         inl "Guest token already used")
      else if GuestToken.expires token <? now then
        (with_guestTokens (delete guestToken (guestTokens st)) st,
         [authenticationFailed "token_expired" guestToken],
         inl "Guest token expired")
      else
        let token' := {| GuestToken.token := GuestToken.token token;
                         GuestToken.expires := GuestToken.expires token;
                         GuestToken.deviceId := Some deviceId;
                         GuestToken.used := true;
                         GuestToken.createdAt := GuestToken.createdAt token |} in
        let marked := <[guestToken := token']> (guestTokens st) in
        let apiKey := generateApiKey now hex deviceId st in
        ({| guestTokens := delete guestToken marked;
            apiKeys := <[ApiKey.key apiKey := apiKey]> (apiKeys st);
            options := options st |},
         [deviceAuthenticated deviceId (ApiKey.key apiKey) (ApiKey.expiresAt apiKey)],
         inr (ApiKey.key apiKey))
  end.

Definition revokeApiKey (now : Z) (apiKey : string) (st : state)
  : state * list event * bool :=
  match apiKeys st !! apiKey with
  | None => (st, [], false)
  | Some key =>
      (with_apiKeys (<[apiKey := ApiKey.set_revoked true key]> (apiKeys st)) st,
       [apiKeyRevoked (ApiKey.deviceId key) (ApiKey.key key) now],
       true)
  end.

Definition validateApiKey (now : Z) (apiKey : string) (st : state)
  : state * list event * bool :=
  match apiKeys st !! apiKey with
  | None => (st, [], false)
  | Some key =>
      if ApiKey.revoked key then (st, [], false)
      else if ApiKey.expiresAt key <? now then
        let '(st', evs, _) := revokeApiKey now apiKey st in (st', evs, false)
      else
        (with_apiKeys (<[apiKey := ApiKey.set_lastUsed now key]> (apiKeys st)) st,
         [], true)
  end.

(** [refreshApiKey]: [None] is [null], [Some (key, expiresAt)] the object
    returned. *)
Definition refreshApiKey (now : Z) (apiKey : string) (st : state)
  : state * list event * option (string * Z) :=
  match apiKeys st !! apiKey with
  | None => (st, [], None)
  | Some key =>
      if ApiKey.revoked key || (ApiKey.expiresAt key <? now) then (st, [], None)
      else
        let key' := ApiKey.set_lastUsed now
                      (ApiKey.set_expiresAt (now + apiKeyTTL (options st)) key) in
        (with_apiKeys (<[apiKey := key']> (apiKeys st)) st,
         [apiKeyRefreshed (ApiKey.deviceId key') (ApiKey.key key') (ApiKey.expiresAt key')],
         Some (ApiKey.key key', ApiKey.expiresAt key'))
  end.

(** The test of [refreshApiKey] and [validateApiKey]: the key exists, is
    not revoked and [now] is not after its expiry. *)
Definition currently_valid (now : Z) (apiKey : string) (st : state) : bool :=
  match apiKeys st !! apiKey with
  | None => false
  | Some key => negb (ApiKey.revoked key) && negb (ApiKey.expiresAt key <? now)
  end.

(** *** getApiKeyInfo, the clean-up timer *)

Module ApiKeyInfo.
Record t : Type := {
  deviceId : string;
  createdAt : Z;
  expiresAt : Z;
  lastUsed : option Z;
  revoked : bool
}.
End ApiKeyInfo.

(** [getApiKeyInfo]: the credential without its key; [None] is [null]. *)
Definition getApiKeyInfo (apiKey : string) (st : state) : option ApiKeyInfo.t :=
  match apiKeys st !! apiKey with
  | None => None
  | Some key =>
      Some {| ApiKeyInfo.deviceId := ApiKey.deviceId key;
              ApiKeyInfo.createdAt := ApiKey.createdAt key;
              ApiKeyInfo.expiresAt := ApiKey.expiresAt key;
              ApiKeyInfo.lastUsed := ApiKey.lastUsed key;
              ApiKeyInfo.revoked := ApiKey.revoked key |}
  end.

(** [cleanupExpiredTokens]: the entries with [now > expires] are deleted
    and counted. *)
Definition cleanupExpiredTokens (now : Z) (st : state) : state * list event :=
  let kept := filter (fun e : string * GuestToken.t => now <= GuestToken.expires e.2)
                     (guestTokens st) in
  let cleanedCount := (size (guestTokens st) - size kept)%nat in
  (with_guestTokens kept st,
   if (0 <? cleanedCount)%nat then [tokensCleanedUp cleanedCount "guest_tokens"] else []).

Definition cleanupExpiredApiKeys (now : Z) (st : state) : state * list event :=
  let kept := filter (fun e : string * ApiKey.t => now <= ApiKey.expiresAt e.2)
                     (apiKeys st) in
  let cleanedCount := (size (apiKeys st) - size kept)%nat in
  (with_apiKeys kept st,
   if (0 <? cleanedCount)%nat then [tokensCleanedUp cleanedCount "api_keys"] else []).

(** The callback of [startCleanupTimer]. *)
Definition cleanup (now : Z) (st : state) : state * list event :=
  let '(st1, ev1) := cleanupExpiredTokens now st in
  let '(st2, ev2) := cleanupExpiredApiKeys now st1 in
  (st2, ev1 ++ ev2).

End AuthenticationService.

(** ** routes/AuthRoutes.ts *)

Module AuthRoutes.

Import AuthenticationService.

(** What [res.status(..).json(..)] sends: the status, the [message]
    field, and the [apiKey] of [data] on success. *)
Record response : Type := {
  status : Z;
  message : string;
  apiKey : option string
}.

(** The status the [catch] of the [/mobile] handler picks from the
    message of the error. *)
Definition statusCode (errorMessage : string) : Z :=
  if includes errorMessage "Invalid" then 401
  else if includes errorMessage "expired" then 410
  else if includes errorMessage "used" then 409
  else 500.

(** [POST /api/auth/mobile] with body [{guestToken, deviceId}]; a field
    that is missing or empty is falsy. *)
Definition falsy (field : option string) : bool :=
  match field with
  | None => true
  | Some s => bool_decide (s = EmptyString)
  end.

Definition post_mobile (now : Z) (hex : string) (guestToken deviceId : option string)
    (st : state) : state * list event * response :=
  if falsy guestToken || falsy deviceId then
    (st, [], {| status := 400; message := "guestToken and deviceId are required";
                apiKey := None |})
  else
    match authenticateMobile now hex (default EmptyString guestToken)
                             (default EmptyString deviceId) st with
    | (st', evs, inr k) =>
        (st', evs, {| status := 200; message := "Device authenticated successfully";
                      apiKey := Some k |})
    | (st', evs, inl msg) =>
        (st', evs, {| status := statusCode msg; message := msg; apiKey := None |})
    end.

(** [s.replace(pattern, '')] for a string pattern: the first occurrence
    is removed. *)
Fixpoint remove_first (pattern s : string) : string :=
  if starts_with pattern s then string_drop (String.length pattern) s
  else match s with
       | EmptyString => EmptyString
       | String c r => String c (remove_first pattern r)
       end.

(** [req.headers.authorization?.replace('Bearer ', '')]; [None] is a
    request without the header. *)
Definition bearer (authorization : option string) : option string :=
  remove_first "Bearer " <$> authorization.

(** [POST /api/auth/refresh]: the status and, on success, the key and
    expiry of [data]. *)
Definition post_refresh (now : Z) (authorization : option string) (st : state)
  : state * list event * (Z * option (string * Z)) :=
  if falsy (bearer authorization) then (st, [], (401, None))
  else
    match refreshApiKey now (default EmptyString (bearer authorization)) st with
    | (st', evs, None) => (st', evs, (401, None))
    | (st', evs, Some result) => (st', evs, (200, Some result))
    end.

(** [POST /api/auth/revoke]: the status. *)
Definition post_revoke (now : Z) (authorization : option string) (st : state)
  : state * list event * Z :=
  if falsy (bearer authorization) then (st, [], 401)
  else
    match revokeApiKey now (default EmptyString (bearer authorization)) st with
    | (st', evs, false) => (st', evs, 404)
    | (st', evs, true) => (st', evs, 200)
    end.

(** [GET /api/auth/info]: the status and, on success, the info read
    before the validation that fills [valid], with [valid]. *)
Definition get_info (now : Z) (authorization : option string) (st : state)
  : state * list event * (Z * option (ApiKeyInfo.t * bool)) :=
  if falsy (bearer authorization) then (st, [], (401, None))
  else
    let apiKey := default EmptyString (bearer authorization) in
    match getApiKeyInfo apiKey st with
    | None => (st, [], (404, None))
    | Some info =>
        let '(st', evs, valid) := validateApiKey now apiKey st in
        (st', evs, (200, Some (info, valid)))
    end.

End AuthRoutes.

(** ** The messages on the wire *)

Module SessionMessage.

(** [timestamp] and [lastActivity] hold either the clock
    ([new Date().toISOString()]) or a field copied from a record. *)
Inductive stamp : Type :=
| clock (now : Z)
| copied (v : json).

(** The [type] of a [SessionMessage] with its [data]. *)
Inductive data : Type :=
| message (messageType : json) (content : option json) (parentUuid : json)
          (historical : bool)
| state (s : SessionState) (lastActivity : stamp)
| inactivity (reason : string) (lastActivity : Z).

Record t : Type := {
  timestamp : stamp;
  sessionId : json;
  payload : data
}.

End SessionMessage.

Module WebSocketMessage.

(** [{type, payload}] of a [WebSocketMessage], one constructor per
    [type] the modelled handlers send. *)
Inductive t : Type :=
| connected (clientId : string) (serverTime : Z)
| authenticated
| authentication_failed
| session_occupied (sessionId existingViewer : string) (canTakeOver : bool)
| session_taken_over (sessionId newViewer : string)
| subscribed (sessionId : string) (tookOver : option bool)
| unsubscribed (sessionId : string)
| error (text : string)
| session_message (m : SessionMessage.t)
| session_history_start (sessionId : string).

End WebSocketMessage.

(** ** services/WebSocketServer.ts *)

Module WebSocketServer.

Import WebSocketMessage.

(** [open] is [socket.readyState === WebSocket.OPEN]. *)
Record WebSocketClient : Type := {
  id : string;
  open : bool;
  sessionId : option string;
  lastPing : Z;
  authenticated : bool;
  apiKey : option string;
  deviceId : option string
}.

Definition set_sessionId (s : option string) (c : WebSocketClient) : WebSocketClient :=
  {| id := id c; open := open c; sessionId := s; lastPing := lastPing c;
     authenticated := authenticated c; apiKey := apiKey c; deviceId := deviceId c |}.

Definition set_authenticated (k : option string) (c : WebSocketClient) : WebSocketClient :=
  {| id := id c; open := open c; sessionId := sessionId c; lastPing := lastPing c;
     authenticated := true; apiKey := k; deviceId := deviceId c |}.

Inductive event : Type :=
| clientConnected (clientId : string) (sessionId apiKey : option string)
| clientDisconnected (clientId : string) (sessionId : option string)
| clientAuthenticated (clientId : string) (apiKey : option string)
| clientSubscribed (clientId sessionId : string) (forceTakeover : bool)
| clientUnsubscribed (clientId sessionId : string)
| clientForcedUnsubscribe (clientId sessionId takenOverBy : string).

(** The server: [clients], [sessionClients], the injected [authService],
    and [wire], every [socket.send] so far with the client it went to,
    earliest first. *)
Record t : Type := {
  clients : gmap string WebSocketClient;
  sessionClients : gmap string (list string);
  authService : option AuthenticationService.state;
  wire : list (string * WebSocketMessage.t)
}.

Definition create (auth : option AuthenticationService.state) : t :=
  {| clients := ∅; sessionClients := ∅; authService := auth; wire := [] |}.

Definition with_clients (c : gmap string WebSocketClient) (st : t) : t :=
  {| clients := c; sessionClients := sessionClients st;
     authService := authService st; wire := wire st |}.

Definition with_sessionClients (s : gmap string (list string)) (st : t) : t :=
  {| clients := clients st; sessionClients := s;
     authService := authService st; wire := wire st |}.

Definition with_authService (a : option AuthenticationService.state) (st : t) : t :=
  {| clients := clients st; sessionClients := sessionClients st;
     authService := a; wire := wire st |}.

(** What client [clientId] was sent, in order. *)
Definition received (clientId : string) (st : t) : list WebSocketMessage.t :=
  map snd (filter (fun e => e.1 = clientId) (wire st)).

Definition sendToClient (clientId : string) (m : WebSocketMessage.t) (st : t) : t * bool :=
  match clients st !! clientId with
  | None => (st, false)
  | Some client =>
      if open client then
        ({| clients := clients st; sessionClients := sessionClients st;
            authService := authService st; wire := wire st ++ [(clientId, m)] |}, true)
      else (st, false)
  end.

Definition sendError (clientId : string) (text : string) (st : t) : t :=
  (sendToClient clientId (error text) st).1.

Definition addClientToSession (clientId sessionId : string) (st : t) : t :=
  let members := default [] (sessionClients st !! sessionId) in
  with_sessionClients (<[sessionId := JsSet.add clientId members]> (sessionClients st)) st.

Definition removeClientFromSession (clientId sessionId : string) (st : t) : t :=
  match sessionClients st !! sessionId with
  | None => st
  | Some members =>
      let members' := JsSet.delete clientId members in
      match members' with
      | [] => with_sessionClients (delete sessionId (sessionClients st)) st
      | _ :: _ => with_sessionClients (<[sessionId := members']> (sessionClients st)) st
      end
  end.

Definition getSessionClients (sessionId : string) (st : t) : list string :=
  default [] (sessionClients st !! sessionId).

(** [validateApiKey]; [None] is a key that is [undefined] or [null]. *)
Definition validateApiKey (now : Z) (apiKey : option string) (st : t) : t * bool :=
  match authService st with
  | None =>
      (st, match apiKey with
           | Some k => (0 <? String.length k)%nat
           | None => false
           end)
  | Some auth =>
      match apiKey with
      | None => (st, false)
      | Some k =>
          let '(auth', _, ok) := AuthenticationService.validateApiKey now k auth in
          (with_authService (Some auth') st, ok)
      end
  end.

Definition isAuthenticated (now : Z) (client : WebSocketClient) (st : t) : t * bool :=
  match apiKey client with
  | None => (st, false)
  | Some k => validateApiKey now (Some k) st
  end.

(** [x || undefined] for a query parameter. *)
Definition or_undefined (x : option string) : option string :=
  match x with
  | Some s => if bool_decide (s = EmptyString) then None else Some s
  | None => None
  end.

(** [handleConnection]; [clientId] is what [generateClientId()] returns,
    [sessionId] and [apiKey] the query parameters of the request.
    [clientConnected] is emitted before the welcome is sent; what a
    listener of it writes to the socket is no part of this function. *)
Definition handleConnection (now : Z) (clientId : string)
    (sessionId apiKey : option string) (st : t) : t * list event :=
  let client := {| id := clientId; open := true; sessionId := or_undefined sessionId;
                   lastPing := now; authenticated := false;
                   apiKey := or_undefined apiKey; deviceId := None |} in
  let st1 := with_clients (<[clientId := client]> (clients st)) st in
  let st2 :=
    match or_undefined sessionId with
    | None => st1
    | Some s =>
        let '(st', ok) := isAuthenticated now client st1 in
        if ok then addClientToSession clientId s st' else st'
    end in
  let st3 := (sendToClient clientId (connected clientId now) st2).1 in
  (st3, [clientConnected clientId sessionId apiKey]).

Definition handleAuthentication (now : Z) (clientId : string) (key : option string)
    (st : t) : t * list event :=
  match clients st !! clientId with
  | None => (st, [])
  | Some _ =>
      let '(st1, isValid) := validateApiKey now key st in
      if isValid then
        let st2 := with_clients (alter (set_authenticated key) clientId (clients st1)) st1 in
        ((sendToClient clientId WebSocketMessage.authenticated st2).1,
         [clientAuthenticated clientId key])
      else ((sendToClient clientId authentication_failed st1).1, [])
  end.

(** The body of the take-over loop for one member of the set. *)
Definition evict (sessionId newViewer takenOverBy : string)
    (acc : t * list event) (existingClientId : string) : t * list event :=
  let '(st, evs) := acc in
  match clients st !! existingClientId with
  | None => acc
  | Some existingClient =>
      let st1 := (sendToClient existingClientId
                    (session_taken_over sessionId newViewer) st).1 in
      let st2 := removeClientFromSession existingClientId sessionId st1 in
      let st3 :=
        if bool_decide (WebSocketServer.sessionId existingClient = Some sessionId)
        then with_clients (alter (set_sessionId None) existingClientId (clients st2)) st2
        else st2 in
      (st3, evs ++ [clientForcedUnsubscribe existingClientId sessionId takenOverBy])
  end.

(** [handleSubscription]; [sessionId] and [forceTakeover] are the
    fields of the payload, [forceTakeover] being [payload.forceTakeover
    === true]. *)
Definition handleSubscription (clientId : string) (sessionId : option string)
    (forceTakeover : bool) (st : t) : t * list event :=
  match clients st !! clientId with
  | None => (sendError clientId "Authentication required" st, [])
  | Some client =>
      if negb (authenticated client) then
        (sendError clientId "Authentication required" st, [])
      else
        match or_undefined sessionId with
        | None => (sendError clientId "Session ID required" st, [])
        | Some s =>
            let existingClients := sessionClients st !! s in
            let subscribe (acc : t * list event) : t * list event :=
              let '(st1, evs) := acc in
              let st2 := addClientToSession clientId s st1 in
              let st3 := with_clients (alter (set_sessionId (Some s)) clientId (clients st2)) st2 in
              (** [forceTakeover && existingClients && existingClients.size > 0],
                  read after the client was added: [None] is [undefined],
                  a field that [JSON.stringify] leaves out; the [Set] read
                  before the loop is the one in the map unless the loop
                  emptied and removed it *)
              let tookOver : option bool :=
                if forceTakeover then
                  match existingClients with
                  | Some _ => Some (bool_decide (is_Some (sessionClients st1 !! s)))
                  | None => None
                  end
                else Some false in
              ((sendToClient clientId (subscribed s tookOver) st3).1,
               evs ++ [clientSubscribed clientId s forceTakeover]) in
            match existingClients with
            | Some (first :: others) =>
                if negb forceTakeover then
                  let existingViewer :=
                    match clients st !! first with
                    | Some existingClient => default "Unknown device" (deviceId existingClient)
                    | None => "Unknown device"
                    end in
                  ((sendToClient clientId (session_occupied s existingViewer true) st).1, [])
                else
                  subscribe
                    (foldl (evict s (default "Another device" (apiKey client)) clientId)
                           (st, []) (first :: others))
            | _ => subscribe (st, [])
            end
        end
  end.

Definition handleUnsubscription (clientId : string) (sessionId : option string)
    (st : t) : t * list event :=
  match clients st !! clientId with
  | None => (st, [])
  | Some client =>
      match (match or_undefined sessionId with
             | Some s => Some s
             | None => WebSocketServer.sessionId client
             end) with
      | None => (st, [])
      | Some s =>
          let st1 := removeClientFromSession clientId s st in
          let st2 := with_clients (alter (set_sessionId None) clientId (clients st1)) st1 in
          ((sendToClient clientId (unsubscribed s) st2).1, [clientUnsubscribed clientId s])
      end
  end.

Definition handleDisconnection (clientId : string) (st : t) : t * list event :=
  match clients st !! clientId with
  | None => (st, [])
  | Some client =>
      let st1 :=
        match WebSocketServer.sessionId client with
        | Some s => removeClientFromSession clientId s st
        | None => st
        end in
      (with_clients (delete clientId (clients st1)) st1,
       [clientDisconnected clientId (WebSocketServer.sessionId client)])
  end.

(** [broadcastToSession]: the state and [sentCount]. *)
Definition broadcastToSession (sessionId : string) (m : SessionMessage.t) (st : t)
  : t * nat :=
  match sessionClients st !! sessionId with
  | None => (st, 0%nat)
  | Some members =>
      foldl (fun (acc : t * nat) clientId =>
               let '(st', ok) := sendToClient clientId (session_message m) acc.1 in
               (st', if ok then S acc.2 else acc.2))
            (st, 0%nat) members
  end.

End WebSocketServer.

(** ** Driving the server

    What happens to a server over time: sockets are accepted, their
    messages are dispatched as [handleMessage] does, they close, and
    session messages are broadcast.  [rejected] is a message that is not
    JSON or has an unknown type, answered with [sendError]; the answer to
    a [ping] is left out. *)

Module WebSocketRun.

Import WebSocketServer.

Inductive op : Type :=
| connection (clientId : string) (sessionId apiKey : option string)
| authenticate (clientId : string) (apiKey : option string)
| subscribe (clientId : string) (sessionId : option string) (forceTakeover : bool)
| unsubscribe (clientId : string) (sessionId : option string)
| rejected (clientId : string) (text : string)
| close (clientId : string)
| deliver (sessionId : string) (m : SessionMessage.t).

Definition step (now : Z) (o : op) (st : t) : t :=
  match o with
  | connection clientId sessionId apiKey => (handleConnection now clientId sessionId apiKey st).1
  | authenticate clientId apiKey => (handleAuthentication now clientId apiKey st).1
  | subscribe clientId sessionId forceTakeover =>
      (handleSubscription clientId sessionId forceTakeover st).1
  | unsubscribe clientId sessionId => (handleUnsubscription clientId sessionId st).1
  | rejected clientId text => sendError clientId text st
  | close clientId => (handleDisconnection clientId st).1
  | deliver sessionId m => (broadcastToSession sessionId m st).1
  end.

Fixpoint run (ops : list (Z * op)) (st : t) : t :=
  match ops with
  | [] => st
  | (now, o) :: rest => run rest (step now o st)
  end.

(** The operation accepts a socket under the id [c]. *)
Definition accepts (c : string) (o : op) : bool :=
  match o with
  | connection clientId _ _ => bool_decide (clientId = c)
  | _ => false
  end.

End WebSocketRun.

(** ** managers/ConnectionManager.ts *)

Module ConnectionManager.

Import WebSocketMessage.

(** An entry of [activeSessions]. *)
Record Session : Type := {
  lastActivity : Z;
  clients : list string
}.

Record state : Type := {
  activeSessions : gmap string Session;
  maxClientsPerSession : nat;
  sessionTimeout : Z
}.

(** The defaults of the constructor: a single viewer per session. *)
Definition create : state :=
  {| activeSessions := ∅; maxClientsPerSession := 1; sessionTimeout := 300000 |}.

Definition with_activeSessions (a : gmap string Session) (cm : state) : state :=
  {| activeSessions := a; maxClientsPerSession := maxClientsPerSession cm;
     sessionTimeout := sessionTimeout cm |}.

(** The key a [sessionId] read from a record selects in [sessionClients]
    and [activeSessions].  Clients subscribe with strings, so a value
    that is not a string selects nothing. *)
Definition key_of (v : json) : option string :=
  match v with
  | JStr s => Some s
  | _ => None
  end.

Definition broadcast (sessionId : json) (m : SessionMessage.t) (ws : WebSocketServer.t)
  : WebSocketServer.t * nat :=
  match key_of sessionId with
  | Some s => WebSocketServer.broadcastToSession s m ws
  | None => (ws, 0%nat)
  end.

(** [sendSessionHistory] up to its timer: the end marker is sent by a
    100 ms timer, [history_end_timer]. *)
Definition sendSessionHistory (clientId sessionId : string) (ws : WebSocketServer.t)
  : WebSocketServer.t :=
  (WebSocketServer.sendToClient clientId (session_history_start sessionId) ws).1.

(** The listener of [clientSubscribed]. *)
Definition handleClientSubscribed (now : Z) (clientId sessionId : string)
    (sys : WebSocketServer.t * state) : WebSocketServer.t * state :=
  let '(ws, cm) := sys in
  let sessionClients := WebSocketServer.getSessionClients sessionId ws in
  if (maxClientsPerSession cm <? length sessionClients)%nat then
    ((WebSocketServer.sendToClient clientId (error "Session viewer limit reached") ws).1, cm)
  else
    let session := default {| lastActivity := now; clients := [] |}
                           (activeSessions cm !! sessionId) in
    let session' := {| lastActivity := lastActivity session;
                       clients := JsSet.add clientId (clients session) |} in
    (sendSessionHistory clientId sessionId ws,
     with_activeSessions (<[sessionId := session']> (activeSessions cm)) cm).

(** [message.message.content] *)
Definition content_of (m : ClaudeCodeMessage) : option json :=
  match message m with
  | JObj ms => member "content" ms
  | _ => None
  end.

Definition broadcastSessionState (now : Z) (sessionId : json)
    (recentMessages : list ClaudeCodeMessage) (ws : WebSocketServer.t) : WebSocketServer.t :=
  let st :=
    match last recentMessages with
    | Some lastMessage => if is_string (type lastMessage) "user" then working else waiting
    | None => idle
    end in
  let stateMessage :=
    {| SessionMessage.timestamp := SessionMessage.clock now;
       SessionMessage.sessionId := sessionId;
       SessionMessage.payload :=
         SessionMessage.state st
           match last recentMessages with
           | Some lastMessage => SessionMessage.copied (timestamp lastMessage)
           | None => SessionMessage.clock now
           end |} in
  (broadcast sessionId stateMessage ws).1.

Definition touch (now : Z) (sessionId : json) (cm : state) : state :=
  match key_of sessionId with
  | Some s =>
      match activeSessions cm !! s with
      | Some session =>
          with_activeSessions
            (<[s := {| lastActivity := now; clients := clients session |}]>
               (activeSessions cm)) cm
      | None => cm
      end
  | None => cm
  end.

(** The listener of [newMessage]. *)
Definition handleNewMessage (now : Z) (m : ClaudeCodeMessage)
    (sys : WebSocketServer.t * state) : WebSocketServer.t * state :=
  let '(ws, cm) := sys in
  let sessionMessage :=
    {| SessionMessage.timestamp := SessionMessage.copied (timestamp m);
       SessionMessage.sessionId := sessionId m;
       SessionMessage.payload :=
         SessionMessage.message (type m) (content_of m) (parentUuid m) false |} in
  let ws1 := (broadcast (sessionId m) sessionMessage ws).1 in
  (broadcastSessionState now (sessionId m) [m] ws1, touch now (sessionId m) cm).

(** The listener of [existingMessage]. *)
Definition handleExistingMessage (m : ClaudeCodeMessage)
    (sys : WebSocketServer.t * state) : WebSocketServer.t * state :=
  let '(ws, cm) := sys in
  let sessionMessage :=
    {| SessionMessage.timestamp := SessionMessage.copied (timestamp m);
       SessionMessage.sessionId := sessionId m;
       SessionMessage.payload :=
         SessionMessage.message (type m) (content_of m) (parentUuid m) true |} in
  ((broadcast (sessionId m) sessionMessage ws).1, cm).

(** The listener of [sessionInactive]. *)
Definition handleSessionInactive (now : Z) (sessionId reason : string) (last : Z)
    (sys : WebSocketServer.t * state) : WebSocketServer.t * state :=
  let '(ws, cm) := sys in
  let inactivityMessage :=
    {| SessionMessage.timestamp := SessionMessage.clock now;
       SessionMessage.sessionId := JStr sessionId;
       SessionMessage.payload :=
         SessionMessage.inactivity
           (if bool_decide (reason = "inactivity_timeout")
            then "Session inactive for more than 10 minutes" else reason)
           last |} in
  let ws1 := (WebSocketServer.broadcastToSession sessionId inactivityMessage ws).1 in
  (ws1,
   match activeSessions cm !! sessionId with
   | Some session =>
       match clients session with
       | [] => with_activeSessions (delete sessionId (activeSessions cm)) cm
       | _ :: _ => cm
       end
   | None => cm
   end).

(** The manager's listeners for the events of the monitor that carry
    records or inactivity; its other listeners are not modelled. *)
Definition on_monitor_event (now : Z) (e : FileStreamMonitor.event)
    (sys : WebSocketServer.t * state) : WebSocketServer.t * state :=
  match e with
  | FileStreamMonitor.newMessage m => handleNewMessage now m sys
  | FileStreamMonitor.existingMessage m => handleExistingMessage m sys
  | FileStreamMonitor.sessionInactive _ sid reason last _ =>
      handleSessionInactive now sid reason last sys
  | _ => sys
  end.

Definition on_monitor_events (now : Z) (es : list FileStreamMonitor.event)
    (sys : WebSocketServer.t * state) : WebSocketServer.t * state :=
  foldl (fun s e => on_monitor_event now e s) sys es.

(** The listener of [clientDisconnected]; [sessionId] is the field of the
    event, [client.sessionId]. *)
Definition handleClientDisconnected (clientId : string) (sessionId : option string)
    (sys : WebSocketServer.t * state) : WebSocketServer.t * state :=
  let '(ws, cm) := sys in
  match WebSocketServer.or_undefined sessionId with
  | None => (ws, cm)
  | Some s =>
      match activeSessions cm !! s with
      | None => (ws, cm)
      | Some session =>
          match JsSet.delete clientId (clients session) with
          | [] => (ws, with_activeSessions (delete s (activeSessions cm)) cm)
          | c :: rest =>
              (ws, with_activeSessions
                     (<[s := {| lastActivity := lastActivity session;
                                clients := c :: rest |}]> (activeSessions cm)) cm)
          end
      end
  end.

(** The listener of [clientUnsubscribed]. *)
Definition handleClientUnsubscribed (clientId sessionId : string)
    (sys : WebSocketServer.t * state) : WebSocketServer.t * state :=
  let '(ws, cm) := sys in
  match activeSessions cm !! sessionId with
  | None => (ws, cm)
  | Some session =>
      match JsSet.delete clientId (clients session) with
      | [] => (ws, with_activeSessions (delete sessionId (activeSessions cm)) cm)
      | c :: rest =>
          (ws, with_activeSessions
                 (<[sessionId := {| lastActivity := lastActivity session;
                                    clients := c :: rest |}]> (activeSessions cm)) cm)
      end
  end.

(** The listeners as they are called over time. *)
Inductive call : Type :=
| clientSubscribed (clientId sessionId : string)
| clientUnsubscribed (clientId sessionId : string)
| clientDisconnected (clientId : string) (sessionId : option string)
| newMessage (m : ClaudeCodeMessage)
| existingMessage (m : ClaudeCodeMessage)
| sessionInactive (sessionId reason : string) (lastActivity : Z).

Definition listen (now : Z) (c : call) (sys : WebSocketServer.t * state)
  : WebSocketServer.t * state :=
  match c with
  | clientSubscribed clientId sessionId => handleClientSubscribed now clientId sessionId sys
  | clientUnsubscribed clientId sessionId => handleClientUnsubscribed clientId sessionId sys
  | clientDisconnected clientId sessionId => handleClientDisconnected clientId sessionId sys
  | newMessage m => handleNewMessage now m sys
  | existingMessage m => handleExistingMessage m sys
  | sessionInactive sessionId reason last => handleSessionInactive now sessionId reason last sys
  end.

Fixpoint listen_all (calls : list (Z * call)) (sys : WebSocketServer.t * state)
  : WebSocketServer.t * state :=
  match calls with
  | [] => sys
  | (now, c) :: rest => listen_all rest (listen now c sys)
  end.

End ConnectionManager.

(** ** index.ts: the manager listens

    The server gives the monitor and the socket server to the manager,
    whose listeners are the only listeners of their events; an [emit]
    runs them before it returns. *)

Module Wired.

Import WebSocketMessage.

(** The message [handleSessionInactive] broadcasts for a file that the
    inactivity check reported at [now]. *)
Definition inactivity_notice (now : Z) (sessionId : string) (lastActivity : Z)
  : WebSocketMessage.t :=
  session_message
    {| SessionMessage.timestamp := SessionMessage.clock now;
       SessionMessage.sessionId := JStr sessionId;
       SessionMessage.payload :=
         SessionMessage.inactivity "Session inactive for more than 10 minutes"
                                   lastActivity |}.

(** One run of the inactivity check of the monitor. *)
Definition tick (now : Z)
    (sys : FileStreamMonitor.state * (WebSocketServer.t * ConnectionManager.state))
  : FileStreamMonitor.state * (WebSocketServer.t * ConnectionManager.state) :=
  let '(fm, evs) := FileStreamMonitor.inactivity_tick now sys.1 in
  (fm, ConnectionManager.on_monitor_events now evs sys.2).

(** The check run at each of the instants, in order. *)
Definition checks (instants : list Z)
    (sys : FileStreamMonitor.state * (WebSocketServer.t * ConnectionManager.state))
  : FileStreamMonitor.state * (WebSocketServer.t * ConnectionManager.state) :=
  foldl (fun sys now => tick now sys) sys instants.

(** A [subscribe] message: [clientSubscribed] is emitted last in
    [handleSubscription]; [clientForcedUnsubscribe] has no listener. *)
Definition subscribe (now : Z) (clientId : string) (sessionId : option string)
    (forceTakeover : bool) (sys : WebSocketServer.t * ConnectionManager.state)
  : WebSocketServer.t * ConnectionManager.state :=
  let '(ws, evs) := WebSocketServer.handleSubscription clientId sessionId forceTakeover sys.1 in
  foldl (fun acc e =>
           match e with
           | WebSocketServer.clientSubscribed c s _ =>
               ConnectionManager.handleClientSubscribed now c s acc
           | _ => acc
           end)
        (ws, sys.2) evs.

(** An [unsubscribe] message: [clientUnsubscribed] is emitted last in
    [handleUnsubscription]. *)
Definition unsubscribe (clientId : string) (sessionId : option string)
    (sys : WebSocketServer.t * ConnectionManager.state)
  : WebSocketServer.t * ConnectionManager.state :=
  let '(ws, evs) := WebSocketServer.handleUnsubscription clientId sessionId sys.1 in
  foldl (fun acc e =>
           match e with
           | WebSocketServer.clientUnsubscribed c s =>
               ConnectionManager.handleClientUnsubscribed c s acc
           | _ => acc
           end)
        (ws, sys.2) evs.

End Wired.

(** ** parsers/JSONLParser.ts *)

Module JSONLParser.

(** [s.split('\n')]: the pieces between line feeds; the last piece is
    the text after the last line feed. *)
Fixpoint split_lf (s : string) (acc : list ascii) : list string :=
  match s with
  | EmptyString => [FileStreamMonitor.flush acc]
  | String c r =>
      if ascii_eqb c LF then FileStreamMonitor.flush acc :: split_lf r []
      else split_lf r (c :: acc)
  end.

(** [s.trim()] on the ASCII fragment. *)
Fixpoint trim_start (s : list ascii) : list ascii :=
  match s with
  | c :: r => if FileStreamMonitor.is_space c then trim_start r else s
  | [] => []
  end.

Definition trim (s : string) : string :=
  string_of_list_ascii
    (rev (trim_start (rev (trim_start (list_ascii_of_string s))))).

Section WithJSON.

Variable JSON_parse : string -> option json.

Definition is_user_or_assistant (v : json) : bool :=
  is_string v "user" || is_string v "assistant".

Definition typeof_string (o : option json) : bool :=
  match o with
  | Some (JStr _) => true
  | _ => false
  end.

Definition prop (v : json) (k : string) : option json :=
  match v with
  | JObj ms => member k ms
  | _ => None
  end.

Definition isValidClaudeCodeMessage (obj : json) : bool :=
  truthy obj &&
  typeof_string (prop obj "sessionId") &&
  match prop obj "type" with
  | Some ty => is_user_or_assistant ty
  | None => false
  end &&
  match prop obj "message" with
  | Some msg =>
      truthy msg && typeof_string (prop msg "role") && typeof_string (prop msg "content")
  | None => false
  end &&
  typeof_string (prop obj "timestamp").

(** [parseLine]; every exception is caught and gives [null]. *)
Definition parseLine (line : string) : option ClaudeCodeMessage :=
  match JSON_parse (trim line) with
  | None => None
  | Some parsed =>
      if isValidClaudeCodeMessage parsed then
        match prop parsed "sessionId", prop parsed "type", prop parsed "message",
              prop parsed "timestamp" with
        | Some sid, Some ty, Some msg, Some ts =>
            Some {| parentUuid := FileStreamMonitor.prop_or_empty parsed "parentUuid";
                    sessionId := sid;
                    type := ty;
                    message :=
                      JObj [("role", default JNull (prop msg "role"));
                            ("content", default JNull (prop msg "content"))];
                    timestamp := ts;
                    cwd := FileStreamMonitor.prop_or_empty parsed "cwd" |}
        | _, _, _, _ => None
        end
      else None
  end.

(** [parseChunk]: the new [lineBuffer] and the messages returned. *)
Definition parseChunk (chunk : string) (lineBuffer : string)
  : string * list ClaudeCodeMessage :=
  let lines := split_lf (lineBuffer +:+ chunk) [] in
  (default EmptyString (last lines),
   omap (fun line => if FileStreamMonitor.blank line then None else parseLine line)
        (removelast lines)).

(** A parser fed the chunks one after the other. *)
Fixpoint parseChunks (chunks : list string) (lineBuffer : string)
  : list ClaudeCodeMessage :=
  match chunks with
  | [] => []
  | c :: rest =>
      let '(buffer', ms) := parseChunk c lineBuffer in
      ms ++ parseChunks rest buffer'
  end.

(** [flush]: the new [lineBuffer] and the messages returned. *)
Definition flush (lineBuffer : string) : string * list ClaudeCodeMessage :=
  if FileStreamMonitor.blank lineBuffer then (lineBuffer, [])
  else (EmptyString, from_option (fun m => [m]) [] (parseLine lineBuffer)).

(** A parser fed the chunks one after the other and flushed at the end:
    the final buffer and every message returned. *)
Fixpoint feed (chunks : list string) (lineBuffer : string)
  : string * list ClaudeCodeMessage :=
  match chunks with
  | [] => flush lineBuffer
  | c :: rest =>
      let '(buffer', ms) := parseChunk c lineBuffer in
      let '(buffer'', ms') := feed rest buffer' in
      (buffer'', ms ++ ms')
  end.

End WithJSON.

End JSONLParser.

(** ** shared/src/utils/index.ts *)

Module SharedUtils.

Definition between (lo hi : nat) (c : ascii) : bool :=
  ((lo <=? nat_of_ascii c) && (nat_of_ascii c <=? hi))%nat.

Definition is_char (n : nat) (c : ascii) : bool := (nat_of_ascii c =? n)%nat.

(** [[0-9a-f]] under the flag [i] *)
Definition is_hex (c : ascii) : bool :=
  between 48 57 c || between 97 102 c || between 65 70 c.

(** A regular expression that is a sequence of character classes,
    anchored at both ends. *)
Fixpoint conforms (classes : list (ascii -> bool)) (s : string) : bool :=
  match classes, s with
  | [], EmptyString => true
  | p :: classes', String c s' => p c && conforms classes' s'
  | _, _ => false
  end.

Definition uuidRegex : list (ascii -> bool) :=
  replicate 8 is_hex ++ [is_char 45] ++ replicate 4 is_hex ++ [is_char 45]
  ++ replicate 4 is_hex ++ [is_char 45] ++ replicate 4 is_hex ++ [is_char 45]
  ++ replicate 12 is_hex.

Definition isValidSessionId (sessionId : string) : bool := conforms uuidRegex sessionId.

(** [[a-zA-Z0-9\/\-_.]] *)
Definition kept (c : ascii) : bool :=
  between 97 122 c || between 65 90 c || between 48 57 c
  || is_char 47 c || is_char 45 c || is_char 95 c || is_char 46 c.

Fixpoint sanitizePath (path : string) : string :=
  match path with
  | EmptyString => EmptyString
  | String c r => if kept c then String c (sanitizePath r) else sanitizePath r
  end.

End SharedUtils.

(** ** Driving the monitor

    A log file that grows by appended chunks, with one [change]
    notification handled after each write. *)

Module Tail.

Import FileStreamMonitor.

Definition only (filePath content : string) : filesystem :=
  fun p => if bool_decide (p = filePath) then Some content else None.

(** The file holds [c] at each of the successive [change] notifications
    [contents]. *)
Fixpoint changes (JSON_parse : string -> option json) (now : Z) (filePath : string)
    (contents : list string) (st : state) : state * list event :=
  match contents with
  | [] => (st, [])
  | c :: rest =>
      let '(st1, ev1) := handleFileChanged JSON_parse (only filePath c) now filePath st in
      let '(st2, ev2) := changes JSON_parse now filePath rest st1 in
      (st2, ev1 ++ ev2)
  end.

(** The successive contents of a file that starts as [written] and
    receives [chunks]. *)
Fixpoint appended (written : string) (chunks : list string) : list string :=
  match chunks with
  | [] => []
  | c :: rest => (written +:+ c) :: appended (written +:+ c) rest
  end.

(** Every chunk ends with a line feed. *)
Definition whole_lines (chunks : list string) : Prop :=
  Forall (fun c => exists a, c = a +:+ nl) chunks.

(** The chunks one after the other: the file written at once. *)
Definition joined (chunks : list string) : string :=
  foldr String.append EmptyString chunks.

(** The records delivered while a new, empty file receives [chunks]. *)
Definition tail (JSON_parse : string -> option json) (now : Z) (filePath : string)
    (chunks : list string) : list event :=
  (changes JSON_parse now filePath (appended EmptyString chunks)
     (handleFileAdded JSON_parse (only filePath EmptyString) filePath initial).1).2.

End Tail.

(** ** The inputs of the examples *)

Module Sample.

Definition log : string := "/home/u/.claude/projects/proj/S1.jsonl".

Definition line_hi : string :=
  dq "{'sessionId':'S1','type':'user','message':{'role':'user','content':'hi'},'timestamp':'2025-09-14T15:04:35.357Z','cwd':'/p'}".

Definition line_ok : string :=
  dq "{'sessionId':'S1','type':'assistant','message':{'role':'assistant','content':'ok'},'timestamp':'2025-09-14T15:04:36.000Z'}".

Definition line_next : string :=
  dq "{'sessionId':'S1','type':'user','message':{'role':'user','content':'next'},'timestamp':'2025-09-14T15:05:00.000Z'}".

Definition line_more : string :=
  dq "{'sessionId':'S1','type':'assistant','message':{'role':'assistant','content':'more'},'timestamp':'2025-09-14T15:05:01.000Z'}".

Definition line_untyped : string :=
  dq "{'sessionId':1,'type':'system','message':[],'timestamp':true}".

(** A line for the session [S1] whose other fields are outside the
    schema. *)
Definition line_mistyped : string :=
  dq "{'sessionId':'S1','type':'system','message':[],'timestamp':true}".

Definition line_broken : string := "{ invalid json }".

(** The first 40 bytes of [line_hi] and the rest of it. *)
Definition line_hi_head : string := String.substring 0 40 line_hi.
Definition line_hi_tail : string := string_drop 40 line_hi.

(** A file with the two records [hi] and [ok]. *)
Definition two_lines : string := line_hi +:+ nl +:+ line_ok +:+ nl.

Definition record (ty content ts : string) (cwd : string) : ClaudeCodeMessage :=
  {| parentUuid := JStr EmptyString;
     sessionId := JStr "S1";
     type := JStr ty;
     message := JObj [("role", JStr ty); ("content", JStr content)];
     timestamp := JStr ts;
     cwd := JStr cwd |}.

Definition hi : ClaudeCodeMessage := record "user" "hi" "2025-09-14T15:04:35.357Z" "/p".
Definition ok : ClaudeCodeMessage :=
  record "assistant" "ok" "2025-09-14T15:04:36.000Z" EmptyString.
Definition next : ClaudeCodeMessage :=
  record "user" "next" "2025-09-14T15:05:00.000Z" EmptyString.
Definition more : ClaudeCodeMessage :=
  record "assistant" "more" "2025-09-14T15:05:01.000Z" EmptyString.

(** An authentication service that issued the guest token [T1] at
    instant 0, and the same service after the device [D1] redeemed it at
    instant 1000 for the API key [K1]. *)
Definition auth0 : AuthenticationService.state :=
  (AuthenticationService.generateAuthQR 0 "T1"
     (AuthenticationService.create AuthenticationService.default_options)).1.1.

Definition auth1 : AuthenticationService.state :=
  (AuthenticationService.authenticateMobile 1000 "K1" "T1" "D1" auth0).1.1.

Definition ttl : Z :=
  AuthenticationService.apiKeyTTL AuthenticationService.default_options.

(** A server with the authentication service [auth1], where [K1] is a
    valid key. *)
Definition ws0 : WebSocketServer.t := WebSocketServer.create (Some auth1).

(** Client [A] connects, authenticates with [K1] and subscribes to [S1];
    then client [B] connects and authenticates with [K1]. *)
Definition ws_A : WebSocketServer.t :=
  (WebSocketServer.handleSubscription "A" (Some "S1") false
     (WebSocketServer.handleAuthentication 2100 "A" (Some "K1")
        (WebSocketServer.handleConnection 2000 "A" None None ws0).1).1).1.

Definition ws_AB : WebSocketServer.t :=
  (WebSocketServer.handleAuthentication 3100 "B" (Some "K1")
     (WebSocketServer.handleConnection 3000 "B" None None ws_A).1).1.

(** The instant 2025-09-14T15:04:36.000Z. *)
Definition t0 : Z := 1757862276000.

(** The idle scenario of the specification.  [A] is subscribed to [S1];
    the log receives the record [ok] at [t0]; the inactivity check runs at
    [t0 + 9 min] and at [t0 + 10 min + 1 s]; the record [next] is appended
    at [t0 + 11 min]. *)
Definition step_change (now : Z) (content : string)
    (sys : FileStreamMonitor.state * (WebSocketServer.t * ConnectionManager.state))
  : FileStreamMonitor.state * (WebSocketServer.t * ConnectionManager.state) :=
  let '(fm, evs) :=
    FileStreamMonitor.handleFileChanged JSON.parse (Tail.only log content) now log sys.1 in
  (fm, ConnectionManager.on_monitor_events now evs sys.2).

Definition step_tick (now : Z)
    (sys : FileStreamMonitor.state * (WebSocketServer.t * ConnectionManager.state))
  : FileStreamMonitor.state * (WebSocketServer.t * ConnectionManager.state) :=
  let '(fm, evs) := FileStreamMonitor.inactivity_tick now sys.1 in
  (fm, ConnectionManager.on_monitor_events now evs sys.2).

Definition idle0 : FileStreamMonitor.state * (WebSocketServer.t * ConnectionManager.state) :=
  ((FileStreamMonitor.handleFileAdded JSON.parse (Tail.only log EmptyString) log
      FileStreamMonitor.initial).1,
   (ws_A, ConnectionManager.create)).

Definition idle1 := step_change t0 (line_ok +:+ nl) idle0.
Definition idle2 := step_tick (t0 + 9 * 60 * 1000) idle1.
Definition idle3 := step_tick (t0 + 10 * 60 * 1000 + 1000) idle2.
Definition idle4 := step_change (t0 + 11 * 60 * 1000) (line_ok +:+ nl +:+ line_next +:+ nl) idle3.

End Sample.

(** ** middleware/AuthMiddleware.ts *)

Module AuthMiddleware.

Import AuthenticationService.

(** [req.headers[headerName]]: missing, a string, or an array. *)
Inductive header : Type :=
| absent
| single (value : string)
| several (values : list string).

(** What the middleware does with the request: it responds with a
    status, or calls [next()] with the fields it set on the request. *)
Inductive outcome : Type :=
| respond (status : Z)
| next (authenticated : bool) (apiKey deviceId : option string).

(** ["Bearer <token>"] and ["<token>"] *)
Definition strip (value : string) : string :=
  if starts_with "Bearer " value then AuthRoutes.remove_first "Bearer " value else value.

Definition extract (h : header) : option string :=
  match h with
  | absent => None
  | single value => Some (strip value)
  | several [] => None
  | several (value :: _) => Some (strip value)
  end.

(** [keyInfo?.deviceId] when truthy *)
Definition deviceId_of (apiKey : string) (st : state) : option string :=
  match getApiKeyInfo apiKey st with
  | Some info =>
      if bool_decide (ApiKeyInfo.deviceId info = EmptyString) then None
      else Some (ApiKeyInfo.deviceId info)
  | None => None
  end.

Definition createAuthMiddleware (required : bool) (now : Z) (h : header) (st : state)
  : state * list event * outcome :=
  if AuthRoutes.falsy (extract h) then
    (st, [], if required then respond 401 else next false None None)
  else
    let apiKey := default EmptyString (extract h) in
    let '(st', evs, isValid) := validateApiKey now apiKey st in
    if isValid then (st', evs, next true (Some apiKey) (deviceId_of apiKey st'))
    else (st', evs, respond 401).

Definition requireAuth : Z -> header -> state -> state * list event * outcome :=
  createAuthMiddleware true.

Definition optionalAuth : Z -> header -> state -> state * list event * outcome :=
  createAuthMiddleware false.

(** [validateWebSocketAuth]: [valid] and [deviceId] of the result;
    [None] is a key that is missing. *)
Definition validateWebSocketAuth (now : Z) (apiKey : option string) (st : state)
  : state * list event * (bool * option string) :=
  if AuthRoutes.falsy apiKey then (st, [], (false, None))
  else
    let k := default EmptyString apiKey in
    let '(st', evs, isValid) := validateApiKey now k st in
    if isValid then (st', evs, (true, deviceId_of k st')) else (st', evs, (false, None)).

End AuthMiddleware.

(** ** Driving the authentication service

    The operations of the service as they arrive over time, each at its
    instant. *)

Module AuthRun.

Import AuthenticationService.

Inductive op : Type :=
| issue (uuid : string)
| redeem (hex guestToken deviceId : string)
| validate (apiKey : string)
| refresh (apiKey : string)
| revoke (apiKey : string)
| sweep.

Definition step (now : Z) (o : op) (st : state) : state :=
  match o with
  | issue uuid => (generateAuthQR now uuid st).1.1
  | redeem hex guestToken deviceId => (authenticateMobile now hex guestToken deviceId st).1.1
  | validate apiKey => (validateApiKey now apiKey st).1.1
  | refresh apiKey => (refreshApiKey now apiKey st).1.1
  | revoke apiKey => (revokeApiKey now apiKey st).1.1
  | sweep => (cleanup now st).1
  end.

Fixpoint run (ops : list (Z * op)) (st : state) : state :=
  match ops with
  | [] => st
  | (now, o) :: rest => run rest (step now o st)
  end.

(** No operation of the list mints the key [k] / issues the token [k]. *)
Definition mints (k : string) (o : op) : bool :=
  match o with
  | redeem hex _ _ => bool_decide (hex = k)
  | _ => false
  end.

Definition issues (k : string) (o : op) : bool :=
  match o with
  | issue uuid => bool_decide (uuid = k)
  | _ => false
  end.

End AuthRun.

(** ** The record schema in the words of the specification

    [sessionId] a nonempty string, [type] and [message.role] one of
    ["user"] and ["assistant"], [message.content] a string, [timestamp] an
    RFC 3339 instant.  Of the instant only the shape is tested
    (date, [T], time, optional fraction, [Z] or a numeric offset), which
    every RFC 3339 instant has. *)

Module Claimed.

Definition is_digit (c : ascii) : bool :=
  let n := nat_of_ascii c in ((48 <=? n) && (n <=? 57))%nat.

Fixpoint all_digits (s : list ascii) : bool :=
  match s with
  | [] => true
  | c :: r => is_digit c && all_digits r
  end.

Fixpoint skip_digits (s : list ascii) : list ascii :=
  match s with
  | c :: r => if is_digit c then skip_digits r else s
  | [] => []
  end.

Definition offset_shape (s : list ascii) : bool :=
  match s with
  | [z] => ascii_eqb z "Z" || ascii_eqb z "z"
  | [sg; h1; h2; colon; m1; m2] =>
      (ascii_eqb sg "+" || ascii_eqb sg "-") && all_digits [h1; h2; m1; m2]
      && ascii_eqb colon ":"
  | _ => false
  end.

Definition rfc3339_shape (s : string) : bool :=
  match list_ascii_of_string s with
  | y1 :: y2 :: y3 :: y4 :: d1 :: mo1 :: mo2 :: d2 :: da1 :: da2 :: t
      :: h1 :: h2 :: c1 :: mi1 :: mi2 :: c2 :: s1 :: s2 :: rest =>
      all_digits [y1; y2; y3; y4; mo1; mo2; da1; da2; h1; h2; mi1; mi2; s1; s2]
      && ascii_eqb d1 "-" && ascii_eqb d2 "-"
      && (ascii_eqb t "T" || ascii_eqb t "t")
      && ascii_eqb c1 ":" && ascii_eqb c2 ":"
      && match rest with
         | dot :: f :: rest' =>
             if ascii_eqb dot "." then is_digit f && offset_shape (skip_digits rest')
             else offset_shape rest
         | _ => offset_shape rest
         end
  | _ => false
  end.

Definition user_or_assistant (o : option json) : bool :=
  match o with
  | Some v => is_string v "user" || is_string v "assistant"
  | None => false
  end.

Definition schema (parsed : json) : bool :=
  match parsed with
  | JObj ms =>
      match member "sessionId" ms with
      | Some (JStr s) => negb (bool_decide (s = EmptyString))
      | _ => false
      end
      && user_or_assistant (member "type" ms)
      && match member "message" ms with
         | Some (JObj fields) =>
             user_or_assistant (member "role" fields)
             && match member "content" fields with
                | Some (JStr _) => true
                | _ => false
                end
         | _ => false
         end
      && match member "timestamp" ms with
         | Some (JStr ts) => rfc3339_shape ts
         | _ => false
         end
  | _ => false
  end.

(** The message [session_state{state: idle}]. *)
Definition is_idle_state (m : WebSocketMessage.t) : bool :=
  match m with
  | WebSocketMessage.session_message
      {| SessionMessage.payload := SessionMessage.state idle _ |} => true
  | _ => false
  end.

(** The state the specification derives from the latest record and the
    time since it arrived. *)
Definition state_of (idle_threshold since_last : Z) (role : json) : option SessionState :=
  if idle_threshold <? since_last then Some idle
  else if is_string role "user" then Some working
  else if is_string role "assistant" then Some waiting
  else None.

End Claimed.

(** ** Invariants used in the proofs *)

Module Invariant.

(** The tokens the service stores are never marked used: the mark is set
    on a token that is removed in the same call. *)
Definition unused_tokens (st : AuthenticationService.state) : Prop :=
  forall k token,
    AuthenticationService.guestTokens st !! k = Some token ->
    AuthenticationService.GuestToken.used token = false.

(** At most one subscriber for every session. *)
Definition exclusive (st : WebSocketServer.t) : Prop :=
  forall s members,
    WebSocketServer.sessionClients st !! s = Some members -> (length members <= 1)%nat.

(** Every subscriber is a connected client. *)
Definition connected_members (st : WebSocketServer.t) : Prop :=
  forall s members m,
    WebSocketServer.sessionClients st !! s = Some members -> m ∈ members ->
    is_Some (WebSocketServer.clients st !! m).

(** [st'] has the clients of [st], with their sockets in the same state
    and the same keys. *)
Definition same_sockets (st st' : WebSocketServer.t) : Prop :=
  forall id,
    (fun c => (WebSocketServer.open c, WebSocketServer.apiKey c))
      <$> WebSocketServer.clients st' !! id
    = (fun c => (WebSocketServer.open c, WebSocketServer.apiKey c))
      <$> WebSocketServer.clients st !! id.

(** [sendToClient] would write to the socket of [clientId]. *)
Definition can_send (clientId : string) (st : WebSocketServer.t) : bool :=
  match WebSocketServer.clients st !! clientId with
  | Some client => WebSocketServer.open client
  | None => false
  end.

(** The activity map holds one entry for a file, as a [Map] does. *)
Definition unique_files (st : FileStreamMonitor.state) : Prop :=
  NoDup (FileStreamMonitor.lastActivity st).*1.

(** The key [k] is absent or revoked. *)
Definition dead (k : string) (st : AuthenticationService.state) : Prop :=
  forall key,
    AuthenticationService.apiKeys st !! k = Some key ->
    AuthenticationService.ApiKey.revoked key = true.

(** No session is listed with an empty set of subscribers, and no set
    lists a client twice. *)
Definition populated (st : WebSocketServer.t) : Prop :=
  forall s members,
    WebSocketServer.sessionClients st !! s = Some members ->
    members <> [] /\ NoDup members.

(** Every session the manager tracks has a client. *)
Definition tracked_nonempty (cm : ConnectionManager.state) : Prop :=
  forall s session,
    ConnectionManager.activeSessions cm !! s = Some session ->
    ConnectionManager.clients session <> [].

(** [c] is no client of [st'] and was sent nothing between [st] and
    [st']. *)
Definition quiet (c : string) (st st' : WebSocketServer.t) : Prop :=
  WebSocketServer.clients st' !! c = None
  /\ WebSocketServer.received c st' = WebSocketServer.received c st.

End Invariant.

(** * Properties *)

(** ** The JSON reader on the sample lines *)

Example parse_object :
  JSON.parse (dq "{'a': [1, -2.50e1, true, null], 'b': {'c': 'x\ny'}, 'a': ''}")
  = Some (JObj [("a", JArr [JNum 1 0; JNum (-250) (-1); JBool true; JNull]);
                ("b", JObj [("c", JStr (String "x" (String LF "y")))]);
                ("a", JStr EmptyString)]).
Proof. vm_compute. reflexivity. Qed.

Example parse_line_hi :
  JSON.parse Sample.line_hi
  = Some (JObj [("sessionId", JStr "S1"); ("type", JStr "user");
                ("message", JObj [("role", JStr "user"); ("content", JStr "hi")]);
                ("timestamp", JStr "2025-09-14T15:04:35.357Z"); ("cwd", JStr "/p")]).
Proof. vm_compute. reflexivity. Qed.

Example parse_rejects_bare_words : JSON.parse Sample.line_broken = None.
Proof. vm_compute. reflexivity. Qed.

Example parse_rejects_prefix :
  JSON.parse (dq "{'sessionId':'S1','type':'us") = None.
Proof. vm_compute. reflexivity. Qed.

Example schema_of_line_hi :
  Claimed.schema <$> JSON.parse Sample.line_hi = Some true.
Proof. vm_compute. reflexivity. Qed.

(** ** The record parser of the monitor *)

Section ParseJSONLLine.

Import FileStreamMonitor.

Variable JSON_parse : string -> option json.

(** The [catch] of [parseJSONLLine] leaves nothing to throw. *)
Lemma parseJSONLLine_returns (line filePath : string) :
  exists r, parseJSONLLine JSON_parse line filePath = Normal r.
Proof.
  unfold parseJSONLLine.
  destruct (parseJSONLLine_try JSON_parse line) as [r|]; eauto.
Qed.

Lemma truthy_prop_Some (ms : list (string * json)) (k : string) (v : json) :
  truthy_prop (JObj ms) k = Some v <-> member k ms = Some v /\ truthy v = true.
Proof.
  unfold truthy_prop. destruct (member k ms) as [w|]; [|split; [done|intros [? _]; done]].
  destruct (truthy w) eqn:Hw; split.
  - intros [= ->]. done.
  - intros [[= ->] _]. done.
  - done.
  - intros [[= ->] Hv]. congruence.
Qed.

Lemma truthy_prop_object (parsed : json) (k : string) (v : json) :
  truthy_prop parsed k = Some v -> exists ms, parsed = JObj ms.
Proof. destruct parsed; simpl; try done. eauto. Qed.

(** A record comes out exactly when the four fields are truthy. *)
Lemma parseJSONLLine_record (line filePath : string) (r : ClaudeCodeMessage) :
  parseJSONLLine JSON_parse line filePath = Normal (Some r) <->
  exists ms sid ty msg ts,
    JSON_parse line = Some (JObj ms) /\
    (member "sessionId" ms = Some sid /\ truthy sid = true) /\
    (member "type" ms = Some ty /\ truthy ty = true) /\
    (member "message" ms = Some msg /\ truthy msg = true) /\
    (member "timestamp" ms = Some ts /\ truthy ts = true) /\
    r = {| parentUuid := prop_or_empty (JObj ms) "parentUuid";
           sessionId := sid; type := ty; message := msg; timestamp := ts;
           cwd := prop_or_empty (JObj ms) "cwd" |}.
Proof.
  unfold parseJSONLLine, parseJSONLLine_try. split.
  - destruct (JSON_parse line) as [parsed|]; [|done].
    destruct (truthy_prop parsed "sessionId") as [sid|] eqn:Hsid.
    2:{ destruct parsed; done. }
    destruct (truthy_prop_object _ _ _ Hsid) as [ms ->].
    destruct (truthy_prop (JObj ms) "type") as [ty|] eqn:Hty; [|done].
    destruct (truthy_prop (JObj ms) "message") as [msg|] eqn:Hmsg; [|done].
    destruct (truthy_prop (JObj ms) "timestamp") as [ts|] eqn:Hts; [|done].
    intros [= <-]. exists ms, sid, ty, msg, ts.
    rewrite <- !truthy_prop_Some. done.
  - intros (ms & sid & ty & msg & ts & -> & Hsid & Hty & Hmsg & Hts & ->).
    apply truthy_prop_Some in Hsid, Hty, Hmsg, Hts.
    rewrite Hsid, Hty, Hmsg, Hts. done.
Qed.

Lemma schema_fields_truthy (parsed : json) :
  Claimed.schema parsed = true ->
  exists ms sid ty msg ts,
    parsed = JObj ms /\
    (member "sessionId" ms = Some sid /\ truthy sid = true) /\
    (member "type" ms = Some ty /\ truthy ty = true) /\
    (member "message" ms = Some msg /\ truthy msg = true) /\
    (member "timestamp" ms = Some ts /\ truthy ts = true).
Proof.
  destruct parsed as [| | | | |ms]; try done. simpl.
  intros H. repeat (apply andb_prop in H as [H ?]).
  destruct (member "sessionId" ms) as [[| | |s| |]|] eqn:Hsid; try done.
  destruct (member "type" ms) as [ty|] eqn:Hty; [|done].
  destruct (member "message" ms) as [[| | | | |fields]|] eqn:Hmsg; try done.
  destruct (member "timestamp" ms) as [[| | |ts| |]|] eqn:Hts; try done.
  exists ms, (JStr s), ty, (JObj fields), (JStr ts).
  repeat split; try done.
  - simpl in *. apply orb_prop in H2 as [H2|H2];
      destruct ty; simpl in *; try done;
      apply bool_decide_eq_true in H2; subst; done.
  - simpl. destruct ts; done.
Qed.

End ParseJSONLLine.

(** What [parseJSONLLine] accepts: it yields a record exactly when the line
    parses to a JSON object whose [sessionId], [type], [message] and
    [timestamp] are all present and truthy (the record copies them as they
    are, and [parentUuid] and [cwd] default to the empty string); every
    other line, whether another JSON shape or a syntax error, yields [null]
    and never an error; a line that meets the schema of the specification
    is among the accepted ones. *)
Theorem parseJSONLLine_accepts_iff_truthy :
  forall (JSON_parse : string -> option json) (line filePath : string),
    (forall r,
        FileStreamMonitor.parseJSONLLine JSON_parse line filePath = Normal (Some r) <->
        exists ms sid ty msg ts,
          JSON_parse line = Some (JObj ms) /\
          (member "sessionId" ms = Some sid /\ truthy sid = true) /\
          (member "type" ms = Some ty /\ truthy ty = true) /\
          (member "message" ms = Some msg /\ truthy msg = true) /\
          (member "timestamp" ms = Some ts /\ truthy ts = true) /\
          r = {| parentUuid := FileStreamMonitor.prop_or_empty (JObj ms) "parentUuid";
                 sessionId := sid; type := ty; message := msg; timestamp := ts;
                 cwd := FileStreamMonitor.prop_or_empty (JObj ms) "cwd" |})
    /\ ((exists r, FileStreamMonitor.parseJSONLLine JSON_parse line filePath = Normal (Some r))
        \/ FileStreamMonitor.parseJSONLLine JSON_parse line filePath = Normal None)
    /\ (forall parsed,
          JSON_parse line = Some parsed -> Claimed.schema parsed = true ->
          exists r, FileStreamMonitor.parseJSONLLine JSON_parse line filePath = Normal (Some r)).
Proof.
  intros JSON_parse line filePath. split; [|split].
  - intros r. apply parseJSONLLine_record.
  - destruct (parseJSONLLine_returns JSON_parse line filePath) as [[r|] Hr]; eauto.
  - intros parsed Hparsed Hschema.
    destruct (schema_fields_truthy parsed Hschema)
      as (ms & sid & ty & msg & ts & -> & Hsid & Hty & Hmsg & Hts).
    eexists. apply parseJSONLLine_record.
    exists ms, sid, ty, msg, ts. repeat split; try done; tauto.
Qed.

(** A line whose [sessionId] is a number, whose [type] is ["system"],
    whose [message] is an array and whose [timestamp] is [true] is outside
    the schema, and a record comes out. *)
Lemma parseJSONLLine_accepts_untyped_fields :
  exists parsed,
    JSON.parse Sample.line_untyped = Some parsed /\
    Claimed.schema parsed = false /\
    FileStreamMonitor.parseJSONLLine JSON.parse Sample.line_untyped Sample.log
    = Normal (Some {| parentUuid := JStr EmptyString;
                      sessionId := JNum 1 0;
                      type := JStr "system";
                      message := JArr [];
                      timestamp := JBool true;
                      cwd := JStr EmptyString |}).
Proof. eexists. split; [vm_compute; reflexivity|]. split; vm_compute; reflexivity. Qed.

(** A JSON object without the fields gives [null], not an error. *)
Example parseJSONLLine_empty_object :
  FileStreamMonitor.parseJSONLLine JSON.parse "{}" Sample.log = Normal None.
Proof. vm_compute. reflexivity. Qed.

(** C7 at its failing input: a line of the session [S1] whose [type] is
    ["system"], whose [message] is an array and whose [timestamp] is
    [true].  It is well-formed JSON outside the schema.  [parseJSONLLine]
    returns it as a record, three of whose fields do not have the type
    that [ClaudeCodeMessage] declares; [readNewContent] emits that record
    and the manager sends it on to the subscriber [A] of [S1], with the
    state [waiting]; there is no schema error.  The other parser of the
    same format, [JSONLParser.parseLine], tests the types and returns
    [null] for the line. *)
Theorem untyped_line_is_delivered_as_record :
  let record :=
    {| parentUuid := JStr EmptyString;
       sessionId := JStr "S1";
       type := JStr "system";
       message := JArr [];
       timestamp := JBool true;
       cwd := JStr EmptyString |} in
  Claimed.schema <$> JSON.parse Sample.line_mistyped = Some false
  /\ FileStreamMonitor.parseJSONLLine JSON.parse Sample.line_mistyped Sample.log
     = Normal (Some record)
  /\ FileStreamMonitor.readNewContent JSON.parse (Sample.line_mistyped +:+ nl) Sample.log 0
     = [FileStreamMonitor.newMessage record]
  /\ WebSocketServer.received "A"
       (ConnectionManager.on_monitor_events Sample.t0
          (FileStreamMonitor.readNewContent JSON.parse (Sample.line_mistyped +:+ nl)
             Sample.log 0)
          (Sample.ws_A, ConnectionManager.create)).1
     = WebSocketServer.received "A" Sample.ws_A ++
       [WebSocketMessage.session_message
          {| SessionMessage.timestamp := SessionMessage.copied (JBool true);
             SessionMessage.sessionId := JStr "S1";
             SessionMessage.payload :=
               SessionMessage.message (JStr "system") None (JStr EmptyString) false |};
        WebSocketMessage.session_message
          {| SessionMessage.timestamp := SessionMessage.clock Sample.t0;
             SessionMessage.sessionId := JStr "S1";
             SessionMessage.payload :=
               SessionMessage.state waiting (SessionMessage.copied (JBool true)) |}]
  /\ JSONLParser.isValidClaudeCodeMessage <$> JSON.parse Sample.line_mistyped = Some false
  /\ JSONLParser.parseLine JSON.parse Sample.line_mistyped = None.
Proof. vm_compute. repeat split; reflexivity. Qed.

(** ** Reading new content *)

Section ReadNewContent.

Import FileStreamMonitor.

Variable JSON_parse : string -> option json.

Lemma on_line_only_emits (emit : ClaudeCodeMessage -> event) (filePath line : string)
    (e : event) :
  e ∈ on_line JSON_parse emit filePath line -> exists m, e = emit m.
Proof.
  unfold on_line. destruct (blank line); [by intros ?%elem_of_nil|].
  destruct (parseJSONLLine_returns JSON_parse line filePath) as [[m|] ->].
  - intros ->%list_elem_of_singleton. eauto.
  - by intros ?%elem_of_nil.
Qed.

(** Whatever the file holds, [readNewContent] emits [newMessage] events
    only: the [parseError] branch of its loop is never taken. *)
Lemma readNewContent_only_newMessage (content filePath : string) (start : nat)
    (e : event) :
  e ∈ readNewContent JSON_parse content filePath start -> exists m, e = newMessage m.
Proof.
  unfold readNewContent. rewrite list_elem_of_In, in_concat.
  intros (evs & Hevs & He). apply in_map_iff in Hevs as (line & <- & _).
  apply list_elem_of_In in He. by eapply on_line_only_emits.
Qed.

Lemma readNewContent_no_parseError (content filePath : string) (start : nat)
    (line path : string) :
  parseError line path ∉ readNewContent JSON_parse content filePath start.
Proof. intros [m Hm]%readNewContent_only_newMessage. done. Qed.

(** A line that [JSON.parse] rejects leaves no trace at all. *)
Lemma on_line_syntax_error (emit : ClaudeCodeMessage -> event) (filePath line : string) :
  JSON_parse line = None -> on_line JSON_parse emit filePath line = [].
Proof.
  intros H. unfold on_line, parseJSONLLine, parseJSONLLine_try. rewrite H.
  by destruct (blank line).
Qed.

End ReadNewContent.

(** C8 at its failing input: the file holds a line that is not JSON and a
    line outside the schema.  No [parseError] is emitted for either; the
    first leaves no event at all and the second is delivered as a record. *)
Theorem malformed_lines_emit_no_parseError :
  FileStreamMonitor.readNewContent JSON.parse
    (Sample.line_broken +:+ nl +:+ Sample.line_untyped +:+ nl) Sample.log 0
  = [FileStreamMonitor.newMessage
       {| parentUuid := JStr EmptyString;
          sessionId := JNum 1 0;
          type := JStr "system";
          message := JArr [];
          timestamp := JBool true;
          cwd := JStr EmptyString |}].
Proof. vm_compute. reflexivity. Qed.

(** ** Truncation *)

Section Truncation.

Import FileStreamMonitor.

Variable JSON_parse : string -> option json.

(** On a truncation the whole file is read again and the stored offset
    is 0 afterwards, whatever was read. *)
Lemma handleFileChanged_truncated (now : Z) (filePath content : string)
    (position : nat) (st : state) :
  filePositions st !! filePath = Some position ->
  (String.length content < position)%nat ->
  let '(st', evs) := handleFileChanged JSON_parse (Tail.only filePath content) now filePath st in
  filePositions st' !! filePath = Some 0%nat /\
  evs = readNewContent JSON_parse content filePath 0.
Proof.
  intros Hpos Hlt. unfold handleFileChanged, Tail.only.
  rewrite bool_decide_eq_true_2 by done. rewrite Hpos. simpl.
  apply Nat.ltb_lt in Hlt. rewrite Hlt. simpl.
  by rewrite lookup_insert_eq.
Qed.

(** The other branch stores the size it has read up to. *)
Lemma handleFileChanged_grown (now : Z) (filePath content : string)
    (position : nat) (st : state) :
  filePositions st !! filePath = Some position ->
  (position < String.length content)%nat ->
  let '(st', evs) := handleFileChanged JSON_parse (Tail.only filePath content) now filePath st in
  filePositions st' !! filePath = Some (String.length content) /\
  evs = readNewContent JSON_parse content filePath position.
Proof.
  intros Hpos Hlt. unfold handleFileChanged, Tail.only.
  rewrite bool_decide_eq_true_2 by done. rewrite Hpos. simpl.
  assert ((String.length content <? position)%nat = false) as ->
    by (apply Nat.ltb_ge; lia).
  apply Nat.ltb_lt in Hlt. rewrite Hlt. simpl.
  by rewrite lookup_insert_eq.
Qed.

End Truncation.

(** The scenario of the specification: two records, a truncation to 0
    bytes, one appended line.  Nothing is delivered twice. *)
Example truncation_to_zero_bytes :
  (Tail.changes JSON.parse 0 Sample.log
     [Sample.two_lines; EmptyString; Sample.line_next +:+ nl]
     (FileStreamMonitor.handleFileAdded JSON.parse
        (Tail.only Sample.log EmptyString) Sample.log FileStreamMonitor.initial).1).2
  = [FileStreamMonitor.newMessage Sample.hi; FileStreamMonitor.newMessage Sample.ok;
     FileStreamMonitor.newMessage Sample.next].
Proof. vm_compute. reflexivity. Qed.

(** C2 at its failing input: the file with two records (247 bytes) is
    replaced by one with the single record [next] (115 bytes), then the
    record [more] is appended.  The truncation is detected and [next] is
    delivered, but the stored offset stays 0, so the append delivers [next]
    a second time before [more]. *)
Theorem truncation_redelivers_records :
  let st0 := (FileStreamMonitor.handleFileAdded JSON.parse
                (Tail.only Sample.log EmptyString) Sample.log FileStreamMonitor.initial).1 in
  let r1 := FileStreamMonitor.handleFileChanged JSON.parse
              (Tail.only Sample.log Sample.two_lines) 0 Sample.log st0 in
  let r2 := FileStreamMonitor.handleFileChanged JSON.parse
              (Tail.only Sample.log (Sample.line_next +:+ nl)) 0 Sample.log r1.1 in
  let r3 := FileStreamMonitor.handleFileChanged JSON.parse
              (Tail.only Sample.log (Sample.line_next +:+ nl +:+ Sample.line_more +:+ nl))
              0 Sample.log r2.1 in
  r1.2 = [FileStreamMonitor.newMessage Sample.hi; FileStreamMonitor.newMessage Sample.ok] /\
  FileStreamMonitor.filePositions r1.1 !! Sample.log = Some 247%nat /\
  r2.2 = [FileStreamMonitor.newMessage Sample.next] /\
  FileStreamMonitor.filePositions r2.1 !! Sample.log = Some 0%nat /\
  r3.2 = [FileStreamMonitor.newMessage Sample.next; FileStreamMonitor.newMessage Sample.more].
Proof. vm_compute. repeat split; reflexivity. Qed.

(** ** Lines split across writes *)

Example line_hi_split : Sample.line_hi_head +:+ Sample.line_hi_tail = Sample.line_hi.
Proof. vm_compute. reflexivity. Qed.

(** C3 at its failing input: the record [hi] written as its first 40
    bytes and then the rest of the line.  Written at once it is delivered;
    written in the two chunks it is lost, each half being read as a line of
    its own that does not parse.  [JSONLParser.parseChunk], fed the same two
    chunks, keeps the partial line and returns the record. *)
Theorem split_line_is_lost :
  Tail.tail JSON.parse 0 Sample.log [Sample.line_hi +:+ nl]
  = [FileStreamMonitor.newMessage Sample.hi] /\
  Tail.tail JSON.parse 0 Sample.log [Sample.line_hi_head; Sample.line_hi_tail +:+ nl]
  = [] /\
  JSONLParser.parseChunks JSON.parse [Sample.line_hi_head; Sample.line_hi_tail +:+ nl]
    EmptyString
  = [Sample.hi].
Proof. vm_compute. repeat split; reflexivity. Qed.

(** *** Chunks that end at a line end

    When every chunk ends with a line feed, the lines of the chunks are the
    lines of the whole, and the tail delivers what a single write
    delivers. *)

Section WholeLines.

Import FileStreamMonitor.

Variable JSON_parse : string -> option json.

Lemma string_drop_append (w c : string) :
  string_drop (String.length w) (w +:+ c) = c.
Proof. induction w as [|x w IH]; simpl; done. Qed.

Lemma string_length_append (w c : string) :
  String.length (w +:+ c) = (String.length w + String.length c)%nat.
Proof. induction w as [|x w IH]; simpl; [done|]. by rewrite IH. Qed.

(** After a line feed [readline] holds no pending text, so what follows
    is read as from the start. *)
Lemma readline_append_lf (a b : string) (acc : list ascii) (afterCR : bool) :
  (afterCR = true -> acc = []) ->
  readline ((a +:+ nl) +:+ b) acc afterCR
  = readline (a +:+ nl) acc afterCR ++ readline b [] false.
Proof.
  revert acc afterCR. induction a as [|x a IH]; intros acc afterCR Hcr.
  - simpl. destruct afterCR.
    + rewrite (Hcr eq_refl). done.
    + done.
  - simpl. destruct (ascii_eqb x LF).
    + destruct afterCR.
      * apply IH. done.
      * simpl. f_equal. apply IH. done.
    + destruct (ascii_eqb x CR).
      * simpl. f_equal. apply IH. done.
      * apply IH. done.
Qed.

Lemma changes_whole_lines (now : Z) (filePath : string) (chunks : list string) :
  Tail.whole_lines chunks ->
  forall (written : string) (st : state),
    filePositions st !! filePath = Some (String.length written) ->
    (Tail.changes JSON_parse now filePath (Tail.appended written chunks) st).2
    = concat (map (on_line JSON_parse newMessage filePath)
                  (readline (Tail.joined chunks) [] false)).
Proof.
  induction 1 as [|c chunks [a ->] _ IH]; intros written st Hpos; [done|].
  simpl.
  pose proof (handleFileChanged_grown JSON_parse now filePath
                (written +:+ (a +:+ nl)) (String.length written) st Hpos) as Hstep.
  destruct (handleFileChanged JSON_parse (Tail.only filePath (written +:+ (a +:+ nl)))
              now filePath st) as [st1 ev1].
  destruct Hstep as [Hpos1 ->].
  { rewrite !string_length_append. simpl. lia. }
  specialize (IH (written +:+ (a +:+ nl)) st1 Hpos1).
  destruct (Tail.changes JSON_parse now filePath
              (Tail.appended (written +:+ (a +:+ nl)) chunks) st1) as [st2 ev2].
  simpl in *. subst ev2.
  unfold readNewContent. rewrite string_drop_append.
  rewrite readline_append_lf by done.
  by rewrite map_app, concat_app.
Qed.

Lemma initial_position (filePath : string) :
  filePositions (handleFileAdded JSON_parse (Tail.only filePath EmptyString)
                   filePath initial).1 !! filePath = Some 0%nat.
Proof.
  unfold handleFileAdded, Tail.only.
  rewrite bool_decide_eq_true_2 by done. simpl. by rewrite lookup_insert_eq.
Qed.

Lemma tail_single_write (now : Z) (filePath content : string) :
  Tail.tail JSON_parse now filePath [content]
  = concat (map (on_line JSON_parse newMessage filePath) (readline content [] false)).
Proof.
  unfold Tail.tail. simpl. change (EmptyString +:+ content) with content.
  pose proof (initial_position filePath) as Hpos.
  set (st0 := (handleFileAdded JSON_parse (Tail.only filePath EmptyString)
                 filePath initial).1) in *.
  destruct content as [|x s].
  - unfold handleFileChanged, Tail.only.
    rewrite bool_decide_eq_true_2 by done. rewrite Hpos. done.
  - pose proof (handleFileChanged_grown JSON_parse now filePath (String x s) 0 st0 Hpos)
      as Hstep.
    destruct (handleFileChanged JSON_parse (Tail.only filePath (String x s))
                now filePath st0) as [st1 ev1].
    destruct Hstep as [_ ->]; [simpl; lia|].
    simpl. by rewrite app_nil_r.
Qed.

(** X1. Written in chunks that end at line ends, a file delivers what it
    delivers written at once. *)
Theorem tail_whole_lines (now : Z) (filePath : string) (chunks : list string) :
  Tail.whole_lines chunks ->
  Tail.tail JSON_parse now filePath chunks
  = Tail.tail JSON_parse now filePath [Tail.joined chunks].
Proof.
  intros Hchunks. rewrite tail_single_write. unfold Tail.tail.
  apply (changes_whole_lines now filePath chunks Hchunks EmptyString).
  apply initial_position.
Qed.

(** What the slip costs: after a truncation to a content [kept] that is
    not empty, the next append is read from byte 0, so every line of [kept]
    is read, and delivered, a second time. *)
Lemma append_after_truncation_rereads (now now' : Z) (filePath kept added : string)
    (position : nat) (st : state) :
  filePositions st !! filePath = Some position ->
  (String.length kept < position)%nat ->
  (0 < String.length kept + String.length added)%nat ->
  let r1 := handleFileChanged JSON_parse (Tail.only filePath kept) now filePath st in
  let r2 := handleFileChanged JSON_parse (Tail.only filePath (kept +:+ added))
              now' filePath r1.1 in
  r1.2 = readNewContent JSON_parse kept filePath 0 /\
  r2.2 = readNewContent JSON_parse (kept +:+ added) filePath 0.
Proof.
  intros Hpos Hlt Hlen. cbn zeta.
  pose proof (handleFileChanged_truncated JSON_parse now filePath kept position st Hpos Hlt) as H1.
  destruct (handleFileChanged JSON_parse (Tail.only filePath kept) now filePath st)
    as [st1 ev1].
  destruct H1 as [Hpos1 ->]. split; [done|]. cbn [fst].
  pose proof (handleFileChanged_grown JSON_parse now' filePath (kept +:+ added) 0 st1 Hpos1) as H2.
  destruct (handleFileChanged JSON_parse (Tail.only filePath (kept +:+ added))
              now' filePath st1) as [st2 ev2].
  destruct H2 as [_ ->]; [|done].
  rewrite string_length_append. lia.
Qed.

End WholeLines.

Lemma tail_whole_lines_sample :
  Tail.whole_lines [Sample.line_hi +:+ nl; Sample.line_ok +:+ nl] /\
  Tail.tail JSON.parse 0 Sample.log [Sample.line_hi +:+ nl; Sample.line_ok +:+ nl]
  = Tail.tail JSON.parse 0 Sample.log [Sample.two_lines].
Proof.
  assert (Tail.whole_lines [Sample.line_hi +:+ nl; Sample.line_ok +:+ nl]) as H.
  { repeat constructor; eexists; reflexivity. }
  split; [exact H|].
  apply (tail_whole_lines JSON.parse 0 Sample.log _ H).
Defined.

(** ** Enrollment tokens *)

Section Enrollment.

Import AuthenticationService AuthRoutes.

(** A redemption that succeeds removes the token from the table. *)
Lemma authenticateMobile_consumes (now : Z) (hex guestToken deviceId : string)
    (st st' : state) (evs : list event) (k : string) :
  authenticateMobile now hex guestToken deviceId st = (st', evs, inr k) ->
  guestTokens st' !! guestToken = None.
Proof.
  unfold authenticateMobile.
  destruct (guestTokens st !! guestToken) as [token|]; [|done].
  destruct (GuestToken.used token); [done|].
  destruct (GuestToken.expires token <? now); [done|].
  intros [= <- _ _]. simpl. apply lookup_delete_eq.
Qed.

(** A token that is not in the table is answered [Invalid guest token]. *)
Lemma authenticateMobile_unknown (now : Z) (hex guestToken deviceId : string) (st : state) :
  guestTokens st !! guestToken = None ->
  authenticateMobile now hex guestToken deviceId st
  = (st, [authenticationFailed "invalid_token" guestToken], inl "Invalid guest token").
Proof. intros H. unfold authenticateMobile. by rewrite H. Qed.

(** So the second redemption of a token is answered 401, whenever it
    comes and whatever the device. *)
Lemma second_redemption_401 (now now' : Z) (hex hex' guestToken deviceId deviceId' : string)
    (st st' : state) (evs : list event) (k : string) :
  guestToken <> EmptyString -> deviceId' <> EmptyString ->
  authenticateMobile now hex guestToken deviceId st = (st', evs, inr k) ->
  post_mobile now' hex' (Some guestToken) (Some deviceId') st'
  = (st', [authenticationFailed "invalid_token" guestToken],
     {| status := 401; message := "Invalid guest token"; apiKey := None |}).
Proof.
  intros Hg Hd Hfirst. apply authenticateMobile_consumes in Hfirst.
  unfold post_mobile. simpl.
  rewrite !bool_decide_eq_false_2 by done. simpl.
  by rewrite (authenticateMobile_unknown _ _ _ _ _ Hfirst).
Qed.

Lemma unused_tokens_create (o : AuthenticationOptions) : Invariant.unused_tokens (create o).
Proof. intros k token. unfold create. simpl. by rewrite lookup_empty. Qed.

Lemma unused_tokens_generateAuthQR (now : Z) (uuid : string) (st : state) :
  Invariant.unused_tokens st -> Invariant.unused_tokens (generateAuthQR now uuid st).1.1.
Proof.
  intros H k token. simpl.
  destruct (decide (uuid = k)) as [->|Hne].
  - rewrite lookup_insert_eq. by intros [= <-].
  - rewrite lookup_insert_ne by done. apply H.
Qed.

Lemma unused_tokens_authenticateMobile (now : Z) (hex guestToken deviceId : string)
    (st : state) :
  Invariant.unused_tokens st -> Invariant.unused_tokens (authenticateMobile now hex guestToken deviceId st).1.1.
Proof.
  intros H k token. unfold authenticateMobile.
  destruct (guestTokens st !! guestToken) as [t|] eqn:Ht; [|apply H].
  destruct (GuestToken.used t); [apply H|].
  destruct (GuestToken.expires t <? now); simpl.
  - destruct (decide (guestToken = k)) as [->|Hne].
    + by rewrite lookup_delete_eq.
    + rewrite lookup_delete_ne by done. apply H.
  - destruct (decide (guestToken = k)) as [->|Hne].
    + by rewrite lookup_delete_eq.
    + rewrite lookup_delete_ne, lookup_insert_ne by done. apply H.
Qed.

(** Hence the answer [Guest token already used], the only one the route
    maps to 409, is never given. *)
Lemma authenticateMobile_never_used (now : Z) (hex guestToken deviceId : string)
    (st : state) :
  Invariant.unused_tokens st ->
  (authenticateMobile now hex guestToken deviceId st).2 <> inl "Guest token already used".
Proof.
  intros H. unfold authenticateMobile.
  destruct (guestTokens st !! guestToken) as [t|] eqn:Ht; [|done].
  rewrite (H _ _ Ht). by destruct (GuestToken.expires t <? now).
Qed.

Lemma post_mobile_never_409 (now : Z) (hex : string) (guestToken deviceId : option string)
    (st : state) :
  Invariant.unused_tokens st ->
  status (post_mobile now hex guestToken deviceId st).2 <> 409.
Proof.
  intros H. unfold post_mobile.
  destruct (falsy guestToken || falsy deviceId); [done|].
  pose proof (authenticateMobile_never_used now hex (default EmptyString guestToken)
                (default EmptyString deviceId) st H) as Hnever.
  unfold authenticateMobile in *.
  destruct (guestTokens st !! default EmptyString guestToken) as [t|]; [|done].
  destruct (GuestToken.used t); [done|].
  by destruct (GuestToken.expires t <? now).
Qed.

End Enrollment.

Example statusCode_of_messages :
  AuthRoutes.statusCode "Invalid guest token" = 401 /\
  AuthRoutes.statusCode "Guest token expired" = 410 /\
  AuthRoutes.statusCode "Guest token already used" = 409.
Proof. vm_compute. repeat split; reflexivity. Qed.

(** C4 at its failing input: the token [T1] is issued at instant 0 and
    redeemed by [D1] at instant 1000, which succeeds and removes the token;
    the same request again, one second later, is answered 401 with
    [Invalid guest token] and reason [invalid_token], not 409. *)
Theorem second_redemption_is_answered_401 :
  let r1 := AuthRoutes.post_mobile 1000 "K1" (Some "T1") (Some "D1") Sample.auth0 in
  let r2 := AuthRoutes.post_mobile 2000 "K2" (Some "T1") (Some "D1") r1.1.1 in
  r1.2 = {| AuthRoutes.status := 200;
            AuthRoutes.message := "Device authenticated successfully";
            AuthRoutes.apiKey := Some "K1" |} /\
  AuthenticationService.guestTokens r1.1.1 !! "T1" = None /\
  r2.2 = {| AuthRoutes.status := 401;
            AuthRoutes.message := "Invalid guest token";
            AuthRoutes.apiKey := None |} /\
  r2.1.2 = [AuthenticationService.authenticationFailed "invalid_token" "T1"].
Proof. vm_compute. repeat split; reflexivity. Qed.

(** ** Device credentials *)

Section Credentials.

Import AuthenticationService.

Lemma currently_valid_inv (now : Z) (apiKey : string) (st : state) :
  currently_valid now apiKey st = true ->
  exists key, apiKeys st !! apiKey = Some key /\
              ApiKey.revoked key = false /\ now <= ApiKey.expiresAt key.
Proof.
  unfold currently_valid. destruct (apiKeys st !! apiKey) as [key|]; [|done].
  intros [Hr He]%andb_prop. exists key. split; [done|].
  split; [by destruct (ApiKey.revoked key)|].
  apply negb_true_iff, Z.ltb_ge in He. done.
Qed.

Lemma refreshApiKey_valid (now : Z) (apiKey : string) (st : state) (key : ApiKey.t) :
  apiKeys st !! apiKey = Some key ->
  ApiKey.revoked key = false -> now <= ApiKey.expiresAt key ->
  refreshApiKey now apiKey st
  = (with_apiKeys
       (<[apiKey := ApiKey.set_lastUsed now
                      (ApiKey.set_expiresAt (now + apiKeyTTL (options st)) key)]>
          (apiKeys st)) st,
     [apiKeyRefreshed (ApiKey.deviceId key) (ApiKey.key key) (now + apiKeyTTL (options st))],
     Some (ApiKey.key key, now + apiKeyTTL (options st))).
Proof.
  intros Hk Hr He. unfold refreshApiKey. rewrite Hk, Hr.
  apply Z.ltb_ge in He. rewrite He. done.
Qed.

Lemma refreshApiKey_invalid (now : Z) (apiKey : string) (st : state) :
  currently_valid now apiKey st = false ->
  refreshApiKey now apiKey st = (st, [], None).
Proof.
  unfold currently_valid, refreshApiKey.
  destruct (apiKeys st !! apiKey) as [key|]; [|done].
  destruct (ApiKey.revoked key); [done|].
  destruct (ApiKey.expiresAt key <? now); done.
Qed.

End Credentials.

(** C5, as amended: for a credential that is currently valid (it exists,
    is not revoked and [now] is not after its expiry) [refreshApiKey]
    returns the key with the expiry [now + apiKeyTTL], counted from the
    instant of the refresh and not from the prior expiry; the stored
    credential gets that expiry and [lastUsed = now], its other fields, the
    other credentials and the guest tokens are unchanged.  For a key that is
    not valid it returns [null], emits nothing and changes nothing. *)
Theorem refreshApiKey_extends_from_now :
  forall (now : Z) (apiKey : string) (st : AuthenticationService.state),
    (AuthenticationService.currently_valid now apiKey st = true ->
     exists key key' st' evs,
       AuthenticationService.apiKeys st !! apiKey = Some key /\
       AuthenticationService.refreshApiKey now apiKey st
       = (st', evs,
          Some (AuthenticationService.ApiKey.key key,
                now + AuthenticationService.apiKeyTTL (AuthenticationService.options st))) /\
       AuthenticationService.apiKeys st' !! apiKey = Some key' /\
       AuthenticationService.ApiKey.expiresAt key'
       = now + AuthenticationService.apiKeyTTL (AuthenticationService.options st) /\
       AuthenticationService.ApiKey.lastUsed key' = Some now /\
       AuthenticationService.ApiKey.key key' = AuthenticationService.ApiKey.key key /\
       AuthenticationService.ApiKey.deviceId key' = AuthenticationService.ApiKey.deviceId key /\
       AuthenticationService.ApiKey.createdAt key' = AuthenticationService.ApiKey.createdAt key /\
       AuthenticationService.ApiKey.revoked key' = false /\
       (forall other, other <> apiKey ->
          AuthenticationService.apiKeys st' !! other = AuthenticationService.apiKeys st !! other) /\
       AuthenticationService.guestTokens st' = AuthenticationService.guestTokens st /\
       AuthenticationService.options st' = AuthenticationService.options st)
    /\ (AuthenticationService.currently_valid now apiKey st = false ->
        AuthenticationService.refreshApiKey now apiKey st = (st, [], None)).
Proof.
  intros now apiKey st. split.
  - intros (key & Hk & Hr & He)%currently_valid_inv.
    rewrite (refreshApiKey_valid now apiKey st key Hk Hr He).
    eexists key, _, _, _. split; [done|]. split; [reflexivity|].
    simpl. rewrite lookup_insert_eq. repeat split; try done.
    intros other Hne. by rewrite lookup_insert_ne.
  - apply refreshApiKey_invalid.
Qed.

(** A credential minted at instant 1000, refreshed one second later. *)
Lemma refreshApiKey_extends_from_now_sample :
  AuthenticationService.currently_valid 2000 "K1" Sample.auth1 = true /\
  exists st' evs,
    AuthenticationService.refreshApiKey 2000 "K1" Sample.auth1
    = (st', evs, Some ("K1", 2000 + Sample.ttl)).
Proof.
  split; [vm_compute; reflexivity|].
  destruct (proj1 (refreshApiKey_extends_from_now 2000 "K1" Sample.auth1))
    as (key & key' & st' & evs & Hk & Heq & _); [vm_compute; reflexivity|].
  vm_compute in Hk. injection Hk as <-.
  exists st', evs. exact Heq.
Defined.

(** C5, as stated, fails: the credential [K1], minted at instant 1000,
    expires at [1000 + ttl]; refreshed at instant 2000 while valid, it
    expires at [2000 + ttl], which is short of [prior + ttl] by the whole
    remaining life of the credential (here all of [ttl] but one second),
    far beyond any tolerance for clock reads. *)
Lemma refresh_does_not_add_to_prior_expiry :
  exists prior refreshed,
    AuthenticationService.apiKeys Sample.auth1 !! "K1" = Some prior /\
    AuthenticationService.currently_valid 2000 "K1" Sample.auth1 = true /\
    (AuthenticationService.refreshApiKey 2000 "K1" Sample.auth1).2
    = Some ("K1", refreshed) /\
    refreshed = 2000 + Sample.ttl /\
    AuthenticationService.ApiKey.expiresAt prior + Sample.ttl = 1000 + 2 * Sample.ttl /\
    refreshed < AuthenticationService.ApiKey.expiresAt prior + Sample.ttl - 60 * 60 * 1000.
Proof.
  eexists _, _. split; [vm_compute; reflexivity|].
  split; [vm_compute; reflexivity|]. split; [vm_compute; reflexivity|].
  vm_compute. repeat split; reflexivity.
Qed.

Section Validation.

Import AuthenticationService.

Lemma validateApiKey_result (now : Z) (apiKey : string) (st : state) :
  (validateApiKey now apiKey st).2 = currently_valid now apiKey st.
Proof.
  unfold validateApiKey, currently_valid, revokeApiKey.
  destruct (apiKeys st !! apiKey) as [key|]; [|done].
  destruct (ApiKey.revoked key); [done|].
  by destruct (ApiKey.expiresAt key <? now).
Qed.

(** The state after [validateApiKey], case by case. *)
Lemma validateApiKey_state (now : Z) (apiKey : string) (st : state) :
  (validateApiKey now apiKey st).1.1
  = match apiKeys st !! apiKey with
    | None => st
    | Some key =>
        if ApiKey.revoked key then st
        else if ApiKey.expiresAt key <? now
             then with_apiKeys (<[apiKey := ApiKey.set_revoked true key]> (apiKeys st)) st
             else with_apiKeys (<[apiKey := ApiKey.set_lastUsed now key]> (apiKeys st)) st
    end.
Proof.
  unfold validateApiKey, revokeApiKey.
  destruct (apiKeys st !! apiKey) as [key|]; [|done].
  destruct (ApiKey.revoked key); [done|].
  by destruct (ApiKey.expiresAt key <? now).
Qed.

End Validation.

(** C9, as amended.  [validateApiKey] succeeds exactly when the
    credential exists, is not revoked and [now] is not after its expiry.
    It leaves [key], [deviceId], [createdAt] and [expiresAt] of every
    credential as they were, adds and removes no credential, and leaves
    the guest tokens and the options alone.  It sets [lastUsed] to [now]
    on the credential it validates exactly when the validation succeeds,
    and leaves every other [lastUsed] as it was.  It sets [revoked] on the
    credential it validates exactly when that credential was not revoked
    and [now] is after its expiry; the validation then fails and
    [apiKeyRevoked] is emitted, as by [revokeApiKey]; in every other case
    no [revoked] flag changes and nothing is emitted. *)
Theorem validateApiKey_frame :
  forall (now : Z) (apiKey : string) (st : AuthenticationService.state),
    let r := AuthenticationService.validateApiKey now apiKey st in
    let expires (key : AuthenticationService.ApiKey.t) : bool :=
      negb (AuthenticationService.ApiKey.revoked key)
      && (AuthenticationService.ApiKey.expiresAt key <? now) in
    (r.2 = true <->
     exists key,
       AuthenticationService.apiKeys st !! apiKey = Some key /\
       AuthenticationService.ApiKey.revoked key = false /\
       now <= AuthenticationService.ApiKey.expiresAt key)
    /\ (forall k key,
          AuthenticationService.apiKeys st !! k = Some key ->
          exists key',
            AuthenticationService.apiKeys r.1.1 !! k = Some key' /\
            AuthenticationService.ApiKey.key key' = AuthenticationService.ApiKey.key key /\
            AuthenticationService.ApiKey.deviceId key'
            = AuthenticationService.ApiKey.deviceId key /\
            AuthenticationService.ApiKey.createdAt key'
            = AuthenticationService.ApiKey.createdAt key /\
            AuthenticationService.ApiKey.expiresAt key'
            = AuthenticationService.ApiKey.expiresAt key /\
            AuthenticationService.ApiKey.lastUsed key'
            = (if bool_decide (k = apiKey) && r.2 then Some now
               else AuthenticationService.ApiKey.lastUsed key) /\
            AuthenticationService.ApiKey.revoked key'
            = (if bool_decide (k = apiKey) && expires key then true
               else AuthenticationService.ApiKey.revoked key))
    /\ (forall k, AuthenticationService.apiKeys st !! k = None ->
                  AuthenticationService.apiKeys r.1.1 !! k = None)
    /\ r.1.2 = match AuthenticationService.apiKeys st !! apiKey with
               | Some key =>
                   if expires key
                   then [AuthenticationService.apiKeyRevoked
                           (AuthenticationService.ApiKey.deviceId key)
                           (AuthenticationService.ApiKey.key key) now]
                   else []
               | None => []
               end
    /\ (r.1.2 <> [] -> r.2 = false /\ r.1 = (AuthenticationService.revokeApiKey now apiKey st).1)
    /\ AuthenticationService.guestTokens r.1.1 = AuthenticationService.guestTokens st
    /\ AuthenticationService.options r.1.1 = AuthenticationService.options st.
Proof.
  intros now apiKey st. cbn zeta.
  unfold AuthenticationService.validateApiKey, AuthenticationService.revokeApiKey.
  destruct (AuthenticationService.apiKeys st !! apiKey) as [key0|] eqn:Hk0.
  2:{ cbn [fst snd]. split; [split; [done|by intros (? & ? & _)]|].
      split; [|done]. intros k key Hk. exists key.
      rewrite andb_false_r. repeat split; try done.
      destruct (decide (k = apiKey)) as [->|Hne]; [congruence|].
      by rewrite bool_decide_eq_false_2. }
  destruct (AuthenticationService.ApiKey.revoked key0) eqn:Hr0; cbn [negb andb fst snd].
  { split; [split; [done|intros (key & [= <-] & ? & _); congruence]|].
    split; [|done]. intros k key Hk. exists key.
    rewrite andb_false_r. repeat split; try done.
    destruct (decide (k = apiKey)) as [->|Hne].
    - assert (key = key0) as -> by congruence. by rewrite Hr0, andb_false_r.
    - by rewrite bool_decide_eq_false_2. }
  destruct (AuthenticationService.ApiKey.expiresAt key0 <? now) eqn:He0; cbn [fst snd].
  - split; [split; [done|intros (key & [= <-] & _ & Hle); apply Z.ltb_lt in He0; lia]|].
    split; [|repeat split; try done].
    + intros k key Hk. simpl. destruct (decide (k = apiKey)) as [->|Hne].
      * rewrite lookup_insert_eq. assert (key = key0) as -> by congruence.
        eexists. split; [reflexivity|]. rewrite bool_decide_eq_true_2 by done.
        rewrite Hr0, He0. simpl. repeat split; done.
      * rewrite lookup_insert_ne by done. exists key.
        rewrite bool_decide_eq_false_2 by done. simpl. repeat split; done.
    + intros k Hk. simpl. rewrite lookup_insert_ne; [done|]. congruence.
  - split; [split; [intros _; exists key0; apply Z.ltb_ge in He0; done|done]|].
    split; [|repeat split; try done].
    + intros k key Hk. simpl. destruct (decide (k = apiKey)) as [->|Hne].
      * rewrite lookup_insert_eq. assert (key = key0) as -> by congruence.
        eexists. split; [reflexivity|]. rewrite bool_decide_eq_true_2 by done.
        rewrite Hr0, He0. simpl. repeat split; done.
      * rewrite lookup_insert_ne by done. exists key.
        rewrite bool_decide_eq_false_2 by done. simpl. repeat split; done.
    + intros k Hk. simpl. rewrite lookup_insert_ne; [done|]. congruence.
Qed.

(** The credential [K1], validated while it is valid: the validation
    succeeds, and [lastUsed] is the instant of the validation. *)
Lemma validateApiKey_frame_sample :
  (AuthenticationService.validateApiKey 5000 "K1" Sample.auth1).2 = true /\
  exists key key',
    AuthenticationService.apiKeys Sample.auth1 !! "K1" = Some key /\
    AuthenticationService.apiKeys
      (AuthenticationService.validateApiKey 5000 "K1" Sample.auth1).1.1 !! "K1" = Some key' /\
    AuthenticationService.ApiKey.expiresAt key' = AuthenticationService.ApiKey.expiresAt key /\
    AuthenticationService.ApiKey.lastUsed key' = Some 5000.
Proof.
  destruct (validateApiKey_frame 5000 "K1" Sample.auth1) as (Hvalid & Hframe & _).
  assert ((AuthenticationService.validateApiKey 5000 "K1" Sample.auth1).2 = true) as Hok.
  { apply Hvalid. eexists. split; [vm_compute; reflexivity|]. split; [reflexivity|].
    vm_compute. discriminate. }
  split; [exact Hok|]. eexists _.
  destruct (Hframe "K1" _ ltac:(vm_compute; reflexivity))
    as (key' & Hk' & _ & _ & _ & He & Hl & _).
  exists key'. split; [reflexivity|]. split; [exact Hk'|]. split; [exact He|].
  rewrite Hl, Hok. reflexivity.
Defined.

(** C9, as stated, fails: the credential [K1] is not revoked and expires
    at [1000 + ttl]; validating it one millisecond later fails and leaves
    it revoked, with an [apiKeyRevoked] event, as [revokeApiKey] would. *)
Lemma validateApiKey_revokes_expired :
  exists before after,
    AuthenticationService.apiKeys Sample.auth1 !! "K1" = Some before /\
    AuthenticationService.ApiKey.revoked before = false /\
    AuthenticationService.validateApiKey (1000 + Sample.ttl + 1) "K1" Sample.auth1
    = (AuthenticationService.with_apiKeys
         (<["K1" := after]> (AuthenticationService.apiKeys Sample.auth1)) Sample.auth1,
       [AuthenticationService.apiKeyRevoked "D1" "K1" (1000 + Sample.ttl + 1)],
       false) /\
    after = AuthenticationService.ApiKey.set_revoked true before /\
    AuthenticationService.ApiKey.revoked after = true.
Proof.
  eexists _, _. split; [vm_compute; reflexivity|].
  split; [reflexivity|]. split; [reflexivity|]. split; reflexivity.
Qed.

(** ** Subscribers of a session *)

Section Subscribers.

Import WebSocketServer.

Lemma sendToClient_clients (c : string) (m : WebSocketMessage.t) (st : t) :
  clients (sendToClient c m st).1 = clients st.
Proof.
  unfold sendToClient. destruct (clients st !! c) as [cl|]; [|done].
  by destruct (open cl).
Qed.

Lemma sendToClient_sessionClients (c : string) (m : WebSocketMessage.t) (st : t) :
  sessionClients (sendToClient c m st).1 = sessionClients st.
Proof.
  unfold sendToClient. destruct (clients st !! c) as [cl|]; [|done].
  by destruct (open cl).
Qed.

Lemma sendToClient_wire (c : string) (m : WebSocketMessage.t) (st : t) :
  wire (sendToClient c m st).1 = wire st ++ [(c, m)] \/
  wire (sendToClient c m st).1 = wire st.
Proof.
  unfold sendToClient. destruct (clients st !! c) as [cl|]; [|by right].
  destruct (open cl); [by left|by right].
Qed.

Lemma sendToClient_wire_open (c : string) (m : WebSocketMessage.t) (st : t)
    (cl : WebSocketClient) :
  clients st !! c = Some cl -> open cl = true ->
  wire (sendToClient c m st).1 = wire st ++ [(c, m)].
Proof. intros Hc Ho. unfold sendToClient. by rewrite Hc, Ho. Qed.

Lemma removeClientFromSession_clients (c s : string) (st : t) :
  clients (removeClientFromSession c s st) = clients st.
Proof.
  unfold removeClientFromSession. destruct (sessionClients st !! s) as [ms|]; [|done].
  by destruct (JsSet.delete c ms).
Qed.

Lemma removeClientFromSession_wire (c s : string) (st : t) :
  wire (removeClientFromSession c s st) = wire st.
Proof.
  unfold removeClientFromSession. destruct (sessionClients st !! s) as [ms|]; [|done].
  by destruct (JsSet.delete c ms).
Qed.

Lemma JsSet_delete_singleton (x : string) : JsSet.delete x [x] = [].
Proof.
  unfold JsSet.delete. rewrite filter_cons_False by (intros H; by apply H). done.
Qed.

(** X19. [handleSubscription] keeps a session to one subscriber when the
    subscribers it finds are connected clients. *)
Lemma handleSubscription_exclusive (clientId : string) (sessionId : option string)
    (forceTakeover : bool) (st : t) :
  Invariant.exclusive st -> Invariant.connected_members st ->
  Invariant.exclusive (handleSubscription clientId sessionId forceTakeover st).1.
Proof.
  intros Hex Hconn. unfold handleSubscription, sendError.
  destruct (clients st !! clientId) as [client|] eqn:Hclient.
  2:{ intros s ms. simpl. rewrite sendToClient_sessionClients. apply Hex. }
  destruct (authenticated client); simpl.
  2:{ intros s ms. rewrite sendToClient_sessionClients. apply Hex. }
  destruct (or_undefined sessionId) as [s0|].
  2:{ intros s ms. simpl. rewrite sendToClient_sessionClients. apply Hex. }
  assert (forall st1,
             sessionClients st1 !! s0 = None \/ sessionClients st1 !! s0 = Some [] ->
             (forall s, s <> s0 -> sessionClients st1 !! s = sessionClients st !! s) ->
             forall b,
             Invariant.exclusive
               ((sendToClient clientId (WebSocketMessage.subscribed s0 b)
                   (with_clients
                      (alter (set_sessionId (Some s0)) clientId
                         (clients (addClientToSession clientId s0 st1)))
                      (addClientToSession clientId s0 st1))).1)) as Hsub.
  { intros st1 Hnone Hother b s ms.
    rewrite sendToClient_sessionClients. simpl.
    destruct (decide (s = s0)) as [->|Hne].
    - rewrite lookup_insert_eq. intros [= <-].
      destruct Hnone as [-> | ->]; simpl; done.
    - rewrite lookup_insert_ne by done. rewrite Hother by done. apply Hex. }
  destruct (sessionClients st !! s0) as [[|first others]|] eqn:Hs0; simpl.
  - apply (Hsub st); auto.
  - pose proof (Hex _ _ Hs0) as Hlen. destruct others; [|simpl in Hlen; lia].
    destruct forceTakeover; simpl.
    2:{ intros s ms. rewrite sendToClient_sessionClients. apply Hex. }
    destruct (Hconn s0 [first] first Hs0) as [existing Hexisting];
      [apply list_elem_of_singleton; done|].
    rewrite Hexisting.
    set (st1 := (sendToClient first _ st).1).
    assert (sessionClients (removeClientFromSession first s0 st1)
            = delete s0 (sessionClients st)) as Hrem.
    { unfold removeClientFromSession, st1. rewrite sendToClient_sessionClients, Hs0.
      rewrite JsSet_delete_singleton. simpl. done. }
    destruct (bool_decide (WebSocketServer.sessionId existing = Some s0)); cbn [fst].
    + apply Hsub.
      * left. simpl. rewrite Hrem. apply lookup_delete_eq.
      * intros s Hne. simpl. rewrite Hrem. by apply lookup_delete_ne.
    + apply Hsub.
      * left. rewrite Hrem. apply lookup_delete_eq.
      * intros s Hne. rewrite Hrem. by apply lookup_delete_ne.
  - apply (Hsub st); auto.
Qed.

End Subscribers.

(** C1 at its failing input: two sockets are opened with the query
    [?sessionId=S1&apiKey=K1], [K1] being a valid key.  [handleConnection]
    adds each to the subscribers of [S1] without looking at the ones
    already there; both are attached and both receive what is broadcast to
    the session. *)
Theorem two_connections_share_a_session :
  let st1 := (WebSocketServer.handleConnection 2000 "c1" (Some "S1") (Some "K1") Sample.ws0).1 in
  let st2 := (WebSocketServer.handleConnection 3000 "c2" (Some "S1") (Some "K1") st1).1 in
  let sys := ConnectionManager.handleNewMessage 4000 Sample.hi (st2, ConnectionManager.create) in
  let record :=
    WebSocketMessage.session_message
      {| SessionMessage.timestamp := SessionMessage.copied (JStr "2025-09-14T15:04:35.357Z");
         SessionMessage.sessionId := JStr "S1";
         SessionMessage.payload :=
           SessionMessage.message (JStr "user") (Some (JStr "hi")) (JStr EmptyString) false |} in
  let state :=
    WebSocketMessage.session_message
      {| SessionMessage.timestamp := SessionMessage.clock 4000;
         SessionMessage.sessionId := JStr "S1";
         SessionMessage.payload :=
           SessionMessage.state working
             (SessionMessage.copied (JStr "2025-09-14T15:04:35.357Z")) |} in
  WebSocketServer.sessionClients st1 !! "S1" = Some ["c1"] /\
  WebSocketServer.sessionClients st2 !! "S1" = Some ["c1"; "c2"] /\
  WebSocketServer.received "c1" sys.1 = [WebSocketMessage.connected "c1" 2000; record; state] /\
  WebSocketServer.received "c2" sys.1 = [WebSocketMessage.connected "c2" 3000; record; state].
Proof. vm_compute. repeat split; reflexivity. Qed.

(** ** Takeover *)

Section Takeover.

Import WebSocketServer.

Variables (s newViewer takenOverBy : string).

Lemma same_sockets_refl (st : WebSocketServer.t) : Invariant.same_sockets st st.
Proof. by intros id. Qed.

Lemma same_sockets_trans (st1 st2 st3 : WebSocketServer.t) :
  Invariant.same_sockets st1 st2 -> Invariant.same_sockets st2 st3 ->
  Invariant.same_sockets st1 st3.
Proof. intros H12 H23 id. by rewrite H23, H12. Qed.

Lemma same_sockets_set_sessionId (o : option string) (id : string) (st : WebSocketServer.t) :
  Invariant.same_sockets st (with_clients (alter (set_sessionId o) id (clients st)) st).
Proof.
  intros id'. simpl. rewrite lookup_alter. case_decide; [subst|done].
  by destruct (clients st !! id').
Qed.

Lemma same_sockets_clients (st st' : WebSocketServer.t) :
  clients st' = clients st -> Invariant.same_sockets st st'.
Proof. intros H id. by rewrite H. Qed.

(** One round of the loop: the member, when it is a client with an open
    socket, is sent the notice with [newViewer]; nothing else is sent. *)
Lemma evict_step (st0 : WebSocketServer.t) (evs0 : list event) (x : string)
    (existing : WebSocketClient) :
  clients st0 !! x = Some existing ->
  wire (evict s newViewer takenOverBy (st0, evs0) x).1
  = wire st0 ++ (if open existing
                 then [(x, WebSocketMessage.session_taken_over s newViewer)] else [])
  /\ Invariant.same_sockets st0 (evict s newViewer takenOverBy (st0, evs0) x).1.
Proof.
  intros Hx. unfold evict. rewrite Hx.
  set (st1 := (sendToClient x _ st0).1).
  assert (wire st1 = wire st0 ++
            (if open existing
             then [(x, WebSocketMessage.session_taken_over s newViewer)] else [])) as Hw.
  { unfold st1, sendToClient. rewrite Hx. destruct (open existing); simpl; [done|].
    by rewrite app_nil_r. }
  assert (Invariant.same_sockets st0 (removeClientFromSession x s st1)) as Hs.
  { apply same_sockets_clients.
    by rewrite removeClientFromSession_clients; unfold st1; rewrite sendToClient_clients. }
  destruct (bool_decide (WebSocketServer.sessionId existing = Some s)); cbn [fst].
  - split; [simpl; by rewrite removeClientFromSession_wire|].
    eapply same_sockets_trans; [exact Hs|apply same_sockets_set_sessionId].
  - split; [by rewrite removeClientFromSession_wire|exact Hs].
Qed.

Lemma evict_loop (members : list string) :
  forall (st0 : WebSocketServer.t) (evs0 : list event),
  exists sent,
    wire (foldl (evict s newViewer takenOverBy) (st0, evs0) members).1 = wire st0 ++ sent /\
    Invariant.same_sockets st0 (foldl (evict s newViewer takenOverBy) (st0, evs0) members).1 /\
    (forall id c, id ∈ members -> clients st0 !! id = Some c -> open c = true ->
                  (id, WebSocketMessage.session_taken_over s newViewer) ∈ sent) /\
    (forall e, e ∈ sent -> e.2 = WebSocketMessage.session_taken_over s newViewer).
Proof.
  induction members as [|x members IH]; intros st0 evs0.
  - exists []. simpl. rewrite app_nil_r. repeat split; try done.
    + intros id c Hin. by apply elem_of_nil in Hin.
    + intros e Hin. by apply elem_of_nil in Hin.
  - cbn [foldl]. destruct (clients st0 !! x) as [existing|] eqn:Hx.
    + destruct (evict_step st0 evs0 x existing Hx) as [Hw Hs].
      destruct (evict s newViewer takenOverBy (st0, evs0) x) as [st1 evs1] eqn:Hev.
      simpl in Hw, Hs.
      destruct (IH st1 evs1) as (sent & Hw' & Hs' & Hall & Honly).
      exists ((if open existing
               then [(x, WebSocketMessage.session_taken_over s newViewer)] else []) ++ sent).
      split; [by rewrite Hw', Hw, app_assoc|].
      split; [by eapply same_sockets_trans|].
      split.
      * intros id c Hin Hc Ho. apply elem_of_app.
        destruct (decide (id = x)) as [->|Hne].
        -- left. rewrite Hx in Hc. injection Hc as ->. rewrite Ho.
           by apply list_elem_of_singleton.
        -- right. apply elem_of_cons in Hin as [?|Hin]; [done|].
           pose proof (Hs id) as Hid. rewrite Hc in Hid. simpl in Hid.
           destruct (clients st1 !! id) as [c1|] eqn:Hc1; [|done].
           injection Hid as Ho1 _. apply (Hall id c1 Hin Hc1). congruence.
      * intros e [He|He]%elem_of_app; [|by apply Honly].
        destruct (open existing); [|by apply elem_of_nil in He].
        by apply list_elem_of_singleton in He as ->.
    + assert (evict s newViewer takenOverBy (st0, evs0) x = (st0, evs0)) as ->.
      { unfold evict. by rewrite Hx. }
      destruct (IH st0 evs0) as (sent & Hw' & Hs' & Hall & Honly).
      exists sent. repeat split; try done.
      intros id c Hin Hc Ho. apply elem_of_cons in Hin as [->|Hin]; [congruence|].
      by apply (Hall id c).
Qed.

End Takeover.

(** C10: when a client that authenticated with the key [K] subscribes to
    a session with [forceTakeover], every subscriber of the session that is
    a connected client with an open socket is sent [session_taken_over]
    whose [newViewer] is [K], the raw API key of the incoming client; every
    [session_taken_over] sent by the call carries [K], and none carries a
    device identifier. *)
Theorem takeover_notification_carries_api_key :
  forall (st : WebSocketServer.t) (clientId s K existingId : string)
         (client existing : WebSocketServer.WebSocketClient) (members : list string),
    WebSocketServer.clients st !! clientId = Some client ->
    WebSocketServer.authenticated client = true ->
    WebSocketServer.apiKey client = Some K ->
    s <> EmptyString ->
    WebSocketServer.sessionClients st !! s = Some members ->
    existingId ∈ members ->
    WebSocketServer.clients st !! existingId = Some existing ->
    WebSocketServer.open existing = true ->
    exists sent,
      WebSocketServer.wire (WebSocketServer.handleSubscription clientId (Some s) true st).1
      = WebSocketServer.wire st ++ sent /\
      (existingId, WebSocketMessage.session_taken_over s K) ∈ sent /\
      (forall c s' viewer,
          (c, WebSocketMessage.session_taken_over s' viewer) ∈ sent -> viewer = K).
Proof.
  intros st clientId s K existingId client existing members
         Hclient Hauth Hkey Hs Hmembers Hin Hexisting Hopen.
  unfold WebSocketServer.handleSubscription.
  rewrite Hclient, Hauth. cbn [negb]. unfold WebSocketServer.or_undefined.
  rewrite bool_decide_eq_false_2 by done.
  rewrite Hmembers, Hkey. cbn -[foldl].
  destruct members as [|first others]; [by apply elem_of_nil in Hin|].
  cbn -[foldl].
  destruct (evict_loop s K clientId (first :: others) st [])
    as (sent & Hw & _ & Hall & Honly).
  destruct (foldl (WebSocketServer.evict s K clientId) (st, []) (first :: others))
    as [st1 evs1] eqn:Hfold.
  simpl in Hw. cbn [fst].
  match goal with
  | |- context [WebSocketServer.sendToClient clientId ?m ?st2] =>
      destruct (sendToClient_wire clientId m st2) as [Hsend|Hsend];
      rewrite Hsend
  end; simpl; rewrite Hw.
  - exists (sent ++ [(clientId, WebSocketMessage.subscribed s
                        (Some (bool_decide
                                 (is_Some (WebSocketServer.sessionClients st1 !! s)))))]).
    split; [by rewrite app_assoc|]. split.
    + apply elem_of_app. left. by apply (Hall existingId existing).
    + intros c s' viewer [He|He]%elem_of_app.
      * apply Honly in He. simpl in He. by injection He as _ ->.
      * by apply list_elem_of_singleton in He.
  - exists sent. split; [done|]. split.
    + by apply (Hall existingId existing).
    + intros c s' viewer He. apply Honly in He. simpl in He. by injection He as _ ->.
Qed.

(** The client [B] takes the session [S1] over from [A]. *)
Lemma takeover_notification_sample :
  exists sent,
    WebSocketServer.wire (WebSocketServer.handleSubscription "B" (Some "S1") true Sample.ws_AB).1
    = WebSocketServer.wire Sample.ws_AB ++ sent /\
    ("A", WebSocketMessage.session_taken_over "S1" "K1") ∈ sent /\
    (forall c s' viewer,
        (c, WebSocketMessage.session_taken_over s' viewer) ∈ sent -> viewer = "K1").
Proof.
  eapply (takeover_notification_carries_api_key Sample.ws_AB "B" "S1" "K1" "A" _ _ ["A"]).
  - vm_compute. reflexivity.
  - reflexivity.
  - reflexivity.
  - discriminate.
  - vm_compute. reflexivity.
  - apply list_elem_of_singleton. reflexivity.
  - vm_compute. reflexivity.
  - reflexivity.
Defined.

Example takeover_wire :
  WebSocketServer.received "A"
    (WebSocketServer.handleSubscription "B" (Some "S1") true Sample.ws_AB).1
  = [WebSocketMessage.connected "A" 2000; WebSocketMessage.authenticated;
     WebSocketMessage.subscribed "S1" (Some false);
     WebSocketMessage.session_taken_over "S1" "K1"] /\
  WebSocketServer.sessionClients
    (WebSocketServer.handleSubscription "B" (Some "S1") true Sample.ws_AB).1 !! "S1"
  = Some ["B"].
Proof. vm_compute. split; reflexivity. Qed.

(** ** The session state *)

Section SessionState.

Import WebSocketServer.

Lemma received_wire_app (c : string) (st st' : WebSocketServer.t)
    (extra : list (string * WebSocketMessage.t)) :
  wire st' = wire st ++ extra ->
  received c st' = received c st ++ map snd (filter (fun e => e.1 = c) extra).
Proof. intros H. unfold received. by rewrite H, filter_app, map_app. Qed.

Lemma sendToClient_received (c x : string) (m : WebSocketMessage.t) (st : WebSocketServer.t) :
  received c (sendToClient x m st).1
  = received c st ++ (if bool_decide (x = c) && Invariant.can_send x st then [m] else []).
Proof.
  unfold sendToClient, Invariant.can_send.
  destruct (clients st !! x) as [cl|]; [|by rewrite andb_false_r, app_nil_r].
  destruct (open cl); [|by rewrite andb_false_r, app_nil_r].
  unfold received. simpl. rewrite filter_app, map_app. f_equal.
  rewrite andb_true_r. case_bool_decide as Hx.
  - by rewrite filter_cons_True.
  - by rewrite filter_cons_False.
Qed.

Lemma sendToClient_can_send (c x : string) (m : WebSocketMessage.t) (st : WebSocketServer.t) :
  Invariant.can_send c (sendToClient x m st).1 = Invariant.can_send c st.
Proof. unfold Invariant.can_send. by rewrite sendToClient_clients. Qed.

(** The loop of [broadcastToSession], for a set without repetition. *)
Lemma broadcast_loop_received (m : SessionMessage.t) (c : string) (members : list string) :
  NoDup members ->
  forall (st : WebSocketServer.t) (n : nat),
    let r := foldl (fun (acc : WebSocketServer.t * nat) clientId =>
                      let '(st', ok) :=
                        sendToClient clientId (WebSocketMessage.session_message m) acc.1 in
                      (st', if ok then S acc.2 else acc.2))
                   (st, n) members in
    received c r.1
    = received c st ++
      (if bool_decide (c ∈ members) && Invariant.can_send c st
       then [WebSocketMessage.session_message m] else [])
    /\ clients r.1 = clients st /\ sessionClients r.1 = sessionClients st.
Proof.
  induction 1 as [|x members Hx Hnodup IH]; intros st n.
  - simpl. by rewrite app_nil_r.
  - cbn [foldl]. cbn [fst snd].
    pose proof (sendToClient_received c x (WebSocketMessage.session_message m) st) as Hrecv.
    pose proof (sendToClient_clients x (WebSocketMessage.session_message m) st) as Hcl.
    pose proof (sendToClient_sessionClients x (WebSocketMessage.session_message m) st) as Hsc.
    pose proof (sendToClient_can_send c x (WebSocketMessage.session_message m) st) as Hcan.
    destruct (sendToClient x (WebSocketMessage.session_message m) st) as [st1 ok].
    cbn [fst] in *.
    destruct (IH st1 (if ok then S n else n)) as (Hr & Hc & Hs). cbn zeta in *.
    rewrite Hr, Hc, Hs, Hrecv, Hcl, Hsc, Hcan. repeat split; try done.
    rewrite <- app_assoc. f_equal.
    destruct (decide (x = c)) as [->|Hxc].
    + rewrite (bool_decide_eq_true_2 (c = c)) by done.
      rewrite (bool_decide_eq_false_2 (c ∈ members)) by done.
      rewrite (bool_decide_eq_true_2 (c ∈ c :: members)) by apply list_elem_of_here.
      simpl. by rewrite app_nil_r.
    + rewrite (bool_decide_eq_false_2 (x = c)) by done. simpl.
      destruct (decide (c ∈ members)) as [Hin|Hin].
      * rewrite (bool_decide_eq_true_2 (c ∈ members)) by done.
        rewrite (bool_decide_eq_true_2 (c ∈ x :: members)); [done|].
        by apply list_elem_of_further.
      * rewrite (bool_decide_eq_false_2 (c ∈ members)) by done.
        rewrite (bool_decide_eq_false_2 (c ∈ x :: members)); [done|].
        intros [?|?]%elem_of_cons; congruence.
Qed.

Lemma broadcastToSession_received (s : string) (m : SessionMessage.t) (c : string)
    (members : list string) (st : WebSocketServer.t) :
  sessionClients st !! s = Some members -> NoDup members ->
  received c (broadcastToSession s m st).1
  = received c st ++
    (if bool_decide (c ∈ members) && Invariant.can_send c st
     then [WebSocketMessage.session_message m] else [])
  /\ clients (broadcastToSession s m st).1 = clients st
  /\ sessionClients (broadcastToSession s m st).1 = sessionClients st.
Proof.
  intros Hs Hnodup. unfold broadcastToSession. rewrite Hs.
  apply (broadcast_loop_received m c members Hnodup st 0%nat).
Qed.

(** Whatever the set, [broadcastToSession] sends the message and nothing
    else. *)
Lemma broadcastToSession_sends_only (s : string) (m : SessionMessage.t)
    (st : WebSocketServer.t) :
  exists extra,
    wire (broadcastToSession s m st).1 = wire st ++ extra /\
    Forall (fun e => e.2 = WebSocketMessage.session_message m) extra.
Proof.
  unfold broadcastToSession. destruct (sessionClients st !! s) as [members|].
  2:{ exists []. by rewrite app_nil_r. }
  generalize 0%nat. revert st.
  induction members as [|x members IH]; intros st n.
  - exists []. simpl. by rewrite app_nil_r.
  - cbn [foldl]. cbn [fst snd].
    destruct (sendToClient_wire x (WebSocketMessage.session_message m) st) as [Hw|Hw].
    + destruct (sendToClient x (WebSocketMessage.session_message m) st) as [st1 ok].
      cbn [fst] in *.
      destruct (IH st1 (if ok then S n else n)) as (extra & Hw' & Hall).
      exists ((x, WebSocketMessage.session_message m) :: extra).
      split; [rewrite Hw', Hw, <- app_assoc; done|]. by constructor.
    + destruct (sendToClient x (WebSocketMessage.session_message m) st) as [st1 ok].
      cbn [fst] in *.
      destruct (IH st1 (if ok then S n else n)) as (extra & Hw' & Hall).
      exists extra. by rewrite Hw', Hw.
Qed.

End SessionState.

(** ** The activity map *)

Section ActivityMap.

Import FileStreamMonitor.

(** [JsMap.set] on a map with one entry for a key. *)
Lemma JsMap_set_keys (k : string) (v : Z) (m : list (string * Z)) :
  (JsMap.set k v m).*1 = if bool_decide (k ∈ m.*1) then m.*1 else m.*1 ++ [k].
Proof.
  induction m as [|[k' v'] m IH]; [done|]. simpl.
  destruct (decide (k' = k)) as [->|Hne].
  - rewrite (bool_decide_eq_true_2 (k = k)) by done. simpl.
    change (list_fmap (string * Z)%type string fst m) with (m.*1).
    by rewrite (bool_decide_eq_true_2 (k ∈ k :: m.*1)) by apply list_elem_of_here.
  - rewrite (bool_decide_eq_false_2 (k' = k)) by done. simpl.
    change (list_fmap (string * Z)%type string fst m) with (m.*1).
    change (list_fmap (string * Z)%type string fst (JsMap.set k v m))
      with ((JsMap.set k v m).*1).
    rewrite IH.
    destruct (decide (k ∈ m.*1)) as [Hin|Hin].
    + rewrite (bool_decide_eq_true_2 (k ∈ m.*1)) by done.
      rewrite (bool_decide_eq_true_2 (k ∈ k' :: m.*1)); [done|].
      by apply list_elem_of_further.
    + rewrite (bool_decide_eq_false_2 (k ∈ m.*1)) by done.
      rewrite (bool_decide_eq_false_2 (k ∈ k' :: m.*1)); [done|].
      intros [?|?]%elem_of_cons; congruence.
Qed.

Lemma JsMap_set_NoDup (k : string) (v : Z) (m : list (string * Z)) :
  NoDup m.*1 -> NoDup (JsMap.set k v m).*1.
Proof.
  intros H. rewrite JsMap_set_keys. case_bool_decide as Hk; [done|].
  apply NoDup_app. split; [done|]. split; [|apply NoDup_singleton].
  intros x Hx ->%list_elem_of_singleton. done.
Qed.

Lemma JsMap_set_elem (k : string) (v w : Z) (m : list (string * Z)) :
  NoDup m.*1 -> (k, w) ∈ JsMap.set k v m <-> w = v.
Proof.
  induction m as [|[k' v'] m IH]; intros Hnd.
  - simpl. rewrite list_elem_of_singleton. split; [by intros [= ->]|by intros ->].
  - simpl. apply NoDup_cons in Hnd as [Hk' Hnd].
    destruct (decide (k' = k)) as [->|Hk];
      [rewrite (bool_decide_eq_true_2 (k = k)) by done
      |rewrite (bool_decide_eq_false_2 (k' = k)) by done].
    + rewrite elem_of_cons. split; [|intros ->; by left].
      intros [[= ->]|Hin]; [done|]. exfalso. apply Hk'.
      apply list_elem_of_fmap. by exists (k, w).
    + rewrite elem_of_cons. rewrite (IH Hnd). split; [|intros ->; by right].
      intros [[= ? ?]|?]; [congruence|done].
Qed.

Lemma NoDup_fst_unique (m : list (string * Z)) (k : string) (v w : Z) :
  NoDup m.*1 -> (k, v) ∈ m -> (k, w) ∈ m -> v = w.
Proof.
  induction m as [|[k' v'] m IH]; intros Hnd Hv Hw; [by apply elem_of_nil in Hv|].
  simpl in Hnd. apply NoDup_cons in Hnd as [Hk' Hnd].
  apply elem_of_cons in Hv as [Hv|Hv]; apply elem_of_cons in Hw as [Hw|Hw].
  - congruence.
  - injection Hv as -> ->. exfalso. apply Hk'. apply list_elem_of_fmap. by exists (k', w).
  - injection Hw as -> ->. exfalso. apply Hk'. apply list_elem_of_fmap. by exists (k', v).
  - by apply IH.
Qed.

Lemma tick_event_inv (now : Z) (st : state) (f sid reason : string) (t ts : Z) :
  sessionInactive f sid reason t ts ∈ (inactivity_tick now st).2 <->
  (f, t) ∈ lastActivity st /\ inactiveThreshold < now - t /\
  sid = extractSessionInfo f /\ reason = "inactivity_timeout" /\ ts = now.
Proof.
  unfold inactivity_tick. cbn [snd]. rewrite list_elem_of_fmap. split.
  - intros ([f' t'] & [= -> -> -> -> ->] & Hin). simpl in *.
    apply list_elem_of_filter in Hin as [Hold Hin]. repeat split; try done.
    unfold inactive in Hold. simpl in Hold. by apply Z.ltb_lt in Hold.
  - intros (Hin & Hold & -> & -> & ->). exists (f, t). split; [done|].
    apply list_elem_of_filter. split; [|done]. unfold inactive. simpl. by apply Z.ltb_lt.
Qed.

End ActivityMap.

Section Inactivity.

Import WebSocketServer.

(** What the manager sends for a [sessionInactive] event of the monitor. *)
Lemma handleSessionInactive_sends_only (now : Z) (sid : string) (last : Z)
    (sys : WebSocketServer.t * ConnectionManager.state) :
  exists extra,
    wire (ConnectionManager.handleSessionInactive now sid "inactivity_timeout" last sys).1
    = wire sys.1 ++ extra /\
    Forall (fun e =>
              e.2 = WebSocketMessage.session_message
                      {| SessionMessage.timestamp := SessionMessage.clock now;
                         SessionMessage.sessionId := JStr sid;
                         SessionMessage.payload :=
                           SessionMessage.inactivity
                             "Session inactive for more than 10 minutes" last |}) extra.
Proof.
  destruct sys as [ws cm]. unfold ConnectionManager.handleSessionInactive. cbn [fst].
  rewrite bool_decide_eq_true_2 by done.
  apply broadcastToSession_sends_only.
Qed.

(** One run of the inactivity check sends [inactivity] messages only. *)
Lemma inactivity_events_send_only (now : Z) (entries : list (string * Z)) :
  forall sys : WebSocketServer.t * ConnectionManager.state,
  exists extra,
    wire (ConnectionManager.on_monitor_events now
            (map (fun e => FileStreamMonitor.sessionInactive e.1
                             (FileStreamMonitor.extractSessionInfo e.1)
                             "inactivity_timeout" e.2 now) entries) sys).1
    = wire sys.1 ++ extra /\
    Forall (fun e =>
              exists sid last,
                e.2 = WebSocketMessage.session_message
                        {| SessionMessage.timestamp := SessionMessage.clock now;
                           SessionMessage.sessionId := JStr sid;
                           SessionMessage.payload :=
                             SessionMessage.inactivity
                               "Session inactive for more than 10 minutes" last |}) extra.
Proof.
  unfold ConnectionManager.on_monitor_events.
  induction entries as [|[f last] entries IH]; intros sys.
  - exists []. simpl. by rewrite app_nil_r.
  - cbn [map foldl fst snd ConnectionManager.on_monitor_event].
    destruct (handleSessionInactive_sends_only now
                (FileStreamMonitor.extractSessionInfo f) last sys) as (e1 & Hw1 & Hall1).
    destruct (IH (ConnectionManager.handleSessionInactive now
                    (FileStreamMonitor.extractSessionInfo f) "inactivity_timeout" last sys))
      as (e2 & Hw2 & Hall2).
    exists (e1 ++ e2). split; [by rewrite Hw2, Hw1, app_assoc|].
    apply Forall_app. split; [|done].
    eapply Forall_impl; [exact Hall1|]. intros e He.
    exists (FileStreamMonitor.extractSessionInfo f), last. exact He.
Qed.

(** What a subscriber receives for a [sessionInactive] event of the
    monitor. *)
Lemma handleSessionInactive_received (now : Z) (sid : string) (last : Z) (c : string)
    (ws : WebSocketServer.t) (cm : ConnectionManager.state) :
  (forall s members, sessionClients ws !! s = Some members -> NoDup members) ->
  let ws' := (ConnectionManager.handleSessionInactive now sid "inactivity_timeout" last
                (ws, cm)).1 in
  received c ws'
  = received c ws ++
    (if bool_decide (c ∈ getSessionClients sid ws) && Invariant.can_send c ws
     then [Wired.inactivity_notice now sid last] else [])
  /\ clients ws' = clients ws /\ sessionClients ws' = sessionClients ws.
Proof.
  intros Hnd. cbn zeta. unfold ConnectionManager.handleSessionInactive. cbn [fst].
  rewrite bool_decide_eq_true_2 by done. unfold getSessionClients.
  destruct (sessionClients ws !! sid) as [members|] eqn:Hs.
  - apply (broadcastToSession_received sid _ c members ws Hs (Hnd _ _ Hs)).
  - unfold broadcastToSession. rewrite Hs. cbn.
    rewrite bool_decide_eq_false_2 by (by intros ?%elem_of_nil).
    by rewrite app_nil_r.
Qed.

(** One run of the inactivity check, seen by a client: it receives one
    notice for each reported file whose session it is subscribed to, in
    the order of the reports, and nothing else. *)
Lemma inactivity_events_received (now : Z) (c : string) (entries : list (string * Z)) :
  forall (ws : WebSocketServer.t) (cm : ConnectionManager.state),
    (forall s members, sessionClients ws !! s = Some members -> NoDup members) ->
    let sys' :=
      ConnectionManager.on_monitor_events now
        (map (fun e => FileStreamMonitor.sessionInactive e.1
                         (FileStreamMonitor.extractSessionInfo e.1)
                         "inactivity_timeout" e.2 now) entries) (ws, cm) in
    received c sys'.1
    = received c ws ++
      (if Invariant.can_send c ws
       then map (fun e => Wired.inactivity_notice now
                            (FileStreamMonitor.extractSessionInfo e.1) e.2)
                (filter (fun e => c ∈ getSessionClients
                                        (FileStreamMonitor.extractSessionInfo e.1) ws)
                        entries)
       else [])
    /\ clients sys'.1 = clients ws /\ sessionClients sys'.1 = sessionClients ws.
Proof.
  unfold ConnectionManager.on_monitor_events.
  induction entries as [|[f last] entries IH]; intros ws cm Hnd.
  - cbn. destruct (Invariant.can_send c ws); by rewrite app_nil_r.
  - cbn [map foldl fst snd ConnectionManager.on_monitor_event]. cbn zeta.
    destruct (handleSessionInactive_received now
                (FileStreamMonitor.extractSessionInfo f) last c ws cm Hnd)
      as (Hr1 & Hc1 & Hs1).
    destruct (ConnectionManager.handleSessionInactive now
                (FileStreamMonitor.extractSessionInfo f) "inactivity_timeout" last (ws, cm))
      as [ws1 cm1].
    cbn [fst] in Hr1, Hc1, Hs1.
    destruct (IH ws1 cm1) as (Hr & Hc & Hs); [by rewrite Hs1|].
    cbn zeta in Hr, Hc, Hs. rewrite Hr, Hc, Hs, Hr1, Hc1, Hs1.
    split; [|done].
    unfold Invariant.can_send, getSessionClients. rewrite Hc1, Hs1.
    rewrite <- app_assoc. f_equal.
    fold (Invariant.can_send c ws).
    change (default [] (sessionClients ws !! FileStreamMonitor.extractSessionInfo f))
      with (getSessionClients (FileStreamMonitor.extractSessionInfo f) ws).
    destruct (Invariant.can_send c ws); [|by rewrite andb_false_r].
    rewrite andb_true_r.
    destruct (decide (c ∈ getSessionClients (FileStreamMonitor.extractSessionInfo f) ws))
      as [Hin|Hin].
    + rewrite bool_decide_eq_true_2 by done. by rewrite filter_cons_True.
    + rewrite bool_decide_eq_false_2 by done. by rewrite filter_cons_False.
Qed.

(** Runs of the inactivity check, seen by a client: the entries the
    monitor tracks only get fewer, an entry that no run finds older than
    10 minutes stays, the clients and the subscribers stay as they are,
    and what the client receives are notices for entries that a run found
    older than 10 minutes. *)
Lemma checks_received (c : string) (instants : list Z) :
  forall (fm : FileStreamMonitor.state) (ws : WebSocketServer.t)
         (cm : ConnectionManager.state),
    (forall s members, sessionClients ws !! s = Some members -> NoDup members) ->
    let sys' := Wired.checks instants (fm, (ws, cm)) in
    FileStreamMonitor.lastActivity sys'.1 `sublist_of` FileStreamMonitor.lastActivity fm
    /\ (forall e, e ∈ FileStreamMonitor.lastActivity fm ->
                  Forall (fun n => n - e.2 <= 10 * 60 * 1000) instants ->
                  e ∈ FileStreamMonitor.lastActivity sys'.1)
    /\ clients sys'.2.1 = clients ws /\ sessionClients sys'.2.1 = sessionClients ws
    /\ exists extra,
         received c sys'.2.1 = received c ws ++ extra
         /\ Forall (fun m =>
                      exists n e,
                        n ∈ instants /\ e ∈ FileStreamMonitor.lastActivity fm
                        /\ 10 * 60 * 1000 < n - e.2
                        /\ m = Wired.inactivity_notice n
                                 (FileStreamMonitor.extractSessionInfo e.1) e.2) extra.
Proof.
  unfold Wired.checks.
  induction instants as [|n instants IH]; intros fm ws cm Hnd.
  - cbn. repeat split; try done. exists []. by rewrite app_nil_r.
  - cbn [foldl].
    set (old := filter (fun e : string * Z => FileStreamMonitor.inactive n e = true)
                       (FileStreamMonitor.lastActivity fm)).
    set (fm' := {| FileStreamMonitor.filePositions := FileStreamMonitor.filePositions fm;
                   FileStreamMonitor.lastActivity :=
                     filter (fun e : string * Z => FileStreamMonitor.inactive n e = false)
                            (FileStreamMonitor.lastActivity fm) |}).
    assert (Wired.tick n (fm, (ws, cm))
            = (fm', ConnectionManager.on_monitor_events n
                      (map (fun e => FileStreamMonitor.sessionInactive e.1
                                       (FileStreamMonitor.extractSessionInfo e.1)
                                       "inactivity_timeout" e.2 n) old) (ws, cm)))
      as -> by reflexivity.
    destruct (inactivity_events_received n c old ws cm Hnd) as (Hr1 & Hc1 & Hs1).
    cbn zeta in Hr1, Hc1, Hs1.
    destruct (ConnectionManager.on_monitor_events n _ (ws, cm)) as [ws1 cm1].
    cbn [fst] in Hr1, Hc1, Hs1.
    destruct (IH fm' ws1 cm1) as (Hsub & Hkeep & Hc & Hs & extra & Hr & Hextra);
      [by rewrite Hs1|].
    cbn zeta in *.
    split; [|split; [|split; [|split]]].
    + etrans; [exact Hsub|]. apply sublist_filter.
    + intros e He Hall. apply Forall_cons in Hall as [Hn Hall].
      apply Hkeep; [|done]. unfold fm'. cbn. apply list_elem_of_filter. split; [|done].
      unfold FileStreamMonitor.inactive, FileStreamMonitor.inactiveThreshold.
      apply Z.ltb_ge. lia.
    + by rewrite Hc.
    + by rewrite Hs.
    + eexists. split; [by rewrite Hr, Hr1, <- app_assoc|].
      apply Forall_app. split.
      * destruct (Invariant.can_send c ws); [|constructor].
        apply Forall_fmap, Forall_forall. intros e He. cbn.
        apply list_elem_of_filter in He as [_ He].
        apply list_elem_of_filter in He as [Hold He].
        exists n, e. split; [apply list_elem_of_here|]. split; [done|]. split; [|done].
        unfold FileStreamMonitor.inactive, FileStreamMonitor.inactiveThreshold in Hold.
        by apply Z.ltb_lt in Hold.
      * eapply Forall_impl; [exact Hextra|]. intros m (n' & e & Hn' & He & Hold & ->).
        exists n', e. split; [by apply list_elem_of_further|]. split; [|done].
        unfold fm' in He. cbn in He. by apply list_elem_of_filter in He as [_ He].
Qed.

End Inactivity.

(** C6, as amended.  (a) On every new record, each subscriber of the
    record's session with an open socket receives the record and, right
    after it, a state message whose state is [working] when the record's
    [type] is ["user"] and [waiting] otherwise; the record path never sends
    [idle].  (b) The inactivity check of the monitor reports exactly the
    entries of its activity map that are more than 10 minutes old.  (c)
    Discovery makes no entry: after [handleFileAdded] the check reports
    what it reported before, and on a monitor that has seen nothing but
    the discovery it reports nothing and the sockets stay silent, however
    late it runs.  (d) A change notification makes the entry.  Let the
    last change of a file be handled at [changed], and let a client with
    an open socket be subscribed to the session the file name gives, which
    need not be the [sessionId] of the records.  The checks that run up to
    10 minutes after [changed] send the client no notice with
    [lastActivity = changed].  The check that runs next, at [now], sends
    the client exactly one notice of type [inactivity] for each file it
    reports whose session the client is subscribed to, and the notice for
    this file is among them exactly when more than 10 minutes have passed
    since [changed].  Once it was sent no later check repeats it.  (e) A
    run of the check sends nothing but such notices: no state message, so
    no [idle] state, is sent when a session falls silent. *)
Theorem state_follows_records_and_silence_is_inactivity :
  (forall (now : Z) (m : ClaudeCodeMessage) (ws : WebSocketServer.t)
          (cm : ConnectionManager.state) (s c : string) (members : list string),
      sessionId m = JStr s ->
      WebSocketServer.sessionClients ws !! s = Some members -> NoDup members ->
      c ∈ members -> Invariant.can_send c ws = true ->
      WebSocketServer.received c (ConnectionManager.handleNewMessage now m (ws, cm)).1
      = WebSocketServer.received c ws ++
        [WebSocketMessage.session_message
           {| SessionMessage.timestamp := SessionMessage.copied (timestamp m);
              SessionMessage.sessionId := JStr s;
              SessionMessage.payload :=
                SessionMessage.message (type m) (ConnectionManager.content_of m)
                                       (parentUuid m) false |};
         WebSocketMessage.session_message
           {| SessionMessage.timestamp := SessionMessage.clock now;
              SessionMessage.sessionId := JStr s;
              SessionMessage.payload :=
                SessionMessage.state
                  (if is_string (type m) "user" then working else waiting)
                  (SessionMessage.copied (timestamp m)) |}])
  /\ (forall (now : Z) (fm : FileStreamMonitor.state) (e : FileStreamMonitor.event),
         e ∈ (FileStreamMonitor.inactivity_tick now fm).2 <->
         exists f last,
           (f, last) ∈ FileStreamMonitor.lastActivity fm /\
           10 * 60 * 1000 < now - last /\
           e = FileStreamMonitor.sessionInactive f (FileStreamMonitor.extractSessionInfo f)
                 "inactivity_timeout" last now)
  /\ (forall (JSON_parse : string -> option json) (fs : FileStreamMonitor.filesystem)
             (now : Z) (filePath : string) (fm : FileStreamMonitor.state)
             (ws : WebSocketServer.t) (cm : ConnectionManager.state),
         (FileStreamMonitor.inactivity_tick now
            (FileStreamMonitor.handleFileAdded JSON_parse fs filePath fm).1).2
         = (FileStreamMonitor.inactivity_tick now fm).2
         /\ (Wired.tick now
               ((FileStreamMonitor.handleFileAdded JSON_parse fs filePath
                   FileStreamMonitor.initial).1, (ws, cm))).2.1
            = ws)
  /\ (forall (JSON_parse : string -> option json) (changed now : Z)
             (filePath content : string) (fm : FileStreamMonitor.state)
             (ws : WebSocketServer.t) (cm : ConnectionManager.state) (c : string)
             (early later : list Z),
         Invariant.unique_files fm ->
         (forall s members,
             WebSocketServer.sessionClients ws !! s = Some members -> NoDup members) ->
         c ∈ WebSocketServer.getSessionClients
               (FileStreamMonitor.extractSessionInfo filePath) ws ->
         Invariant.can_send c ws = true ->
         Forall (fun n => n - changed <= 10 * 60 * 1000) early ->
         let fm1 := (FileStreamMonitor.handleFileChanged JSON_parse
                       (Tail.only filePath content) changed filePath fm).1 in
         let sys1 := Wired.checks early (fm1, (ws, cm)) in
         let sys2 := Wired.tick now sys1 in
         let sys3 := Wired.checks later sys2 in
         let notices :=
           map (fun e => Wired.inactivity_notice now
                           (FileStreamMonitor.extractSessionInfo e.1) e.2)
               (filter (fun e => c ∈ WebSocketServer.getSessionClients
                                       (FileStreamMonitor.extractSessionInfo e.1) ws)
                       (filter (fun e => 10 * 60 * 1000 < now - e.2)
                               (FileStreamMonitor.lastActivity sys1.1))) in
         (exists before,
             WebSocketServer.received c sys1.2.1 = WebSocketServer.received c ws ++ before
             /\ Forall (fun m => forall n s, m <> Wired.inactivity_notice n s changed) before)
         /\ WebSocketServer.received c sys2.2.1
            = WebSocketServer.received c sys1.2.1 ++ notices
         /\ (Wired.inactivity_notice now (FileStreamMonitor.extractSessionInfo filePath)
               changed ∈ notices
             <-> 10 * 60 * 1000 < now - changed)
         /\ (10 * 60 * 1000 < now - changed ->
             exists after,
               WebSocketServer.received c sys3.2.1
               = WebSocketServer.received c sys2.2.1 ++ after
               /\ Forall (fun m => forall n s, m <> Wired.inactivity_notice n s changed)
                         after))
  /\ (forall (now : Z) (fm : FileStreamMonitor.state)
             (sys : WebSocketServer.t * ConnectionManager.state),
         exists extra,
           WebSocketServer.wire
             (ConnectionManager.on_monitor_events now
                (FileStreamMonitor.inactivity_tick now fm).2 sys).1
           = WebSocketServer.wire sys.1 ++ extra /\
           Forall (fun x =>
                     exists sid last,
                       x.2 = WebSocketMessage.session_message
                               {| SessionMessage.timestamp := SessionMessage.clock now;
                                  SessionMessage.sessionId := JStr sid;
                                  SessionMessage.payload :=
                                    SessionMessage.inactivity
                                      "Session inactive for more than 10 minutes" last |})
                  extra).
Proof.
  split; [|split; [|split; [|split]]].
  - intros now m ws cm s c members Hsid Hs Hnodup Hin Hcan.
    unfold ConnectionManager.handleNewMessage, ConnectionManager.broadcastSessionState,
      ConnectionManager.broadcast.
    rewrite Hsid. cbn [ConnectionManager.key_of fst last].
    set (m1 := {| SessionMessage.timestamp := SessionMessage.copied (timestamp m) |}).
    destruct (broadcastToSession_received s m1 c members ws Hs Hnodup) as (Hr1 & Hc1 & Hs1).
    set (ws1 := (WebSocketServer.broadcastToSession s m1 ws).1) in *.
    match goal with
    | |- context [WebSocketServer.broadcastToSession s ?m2 ws1] =>
        destruct (broadcastToSession_received s m2 c members ws1) as (Hr2 & _);
        [by rewrite Hs1|done|]; rewrite Hr2
    end.
    rewrite Hr1. unfold Invariant.can_send in *. rewrite Hc1, Hcan.
    rewrite bool_decide_eq_true_2 by done. simpl. by rewrite <- app_assoc.
  - intros now fm e. unfold FileStreamMonitor.inactivity_tick. cbn [snd].
    rewrite list_elem_of_fmap. split.
    + intros ([f last] & -> & Hin). apply list_elem_of_filter in Hin as [Hold Hin].
      exists f, last. repeat split; try done.
      unfold FileStreamMonitor.inactive, FileStreamMonitor.inactiveThreshold in Hold.
      simpl in Hold. by apply Z.ltb_lt in Hold.
    + intros (f & last & Hin & Hold & ->). exists (f, last). split; [done|].
      apply list_elem_of_filter. split; [|done].
      unfold FileStreamMonitor.inactive, FileStreamMonitor.inactiveThreshold. simpl.
      by apply Z.ltb_lt.
  - intros JSON_parse fs now filePath fm ws cm.
    unfold FileStreamMonitor.handleFileAdded. split.
    + by destruct (fs filePath).
    + by destruct (fs filePath).
  - intros JSON_parse changed now filePath content fm ws cm c early later
      Huniq Hnd Hin Hcan Hearly.
    cbn zeta.
    assert (FileStreamMonitor.lastActivity
              (FileStreamMonitor.handleFileChanged JSON_parse (Tail.only filePath content)
                 changed filePath fm).1
            = JsMap.set filePath changed (FileStreamMonitor.lastActivity fm)) as Hact.
    { unfold FileStreamMonitor.handleFileChanged, Tail.only.
      rewrite bool_decide_eq_true_2 by done.
      destruct (_ <? _)%nat; [done|]. by destruct (_ <? _)%nat. }
    set (fm1 := (FileStreamMonitor.handleFileChanged JSON_parse
                   (Tail.only filePath content) changed filePath fm).1) in *.
    assert ((filePath, changed) ∈ FileStreamMonitor.lastActivity fm1) as Hentry.
    { rewrite Hact. by apply JsMap_set_elem. }
    destruct (checks_received c early fm1 ws cm Hnd)
      as (_ & Hkeep & Hc1 & Hs1 & before & Hr1 & Hbefore).
    cbn zeta in Hkeep, Hc1, Hs1, Hr1.
    specialize (Hkeep _ Hentry Hearly).
    destruct (Wired.checks early (fm1, (ws, cm))) as [fm2 [ws2 cm2]].
    cbn [fst snd] in *.
    assert (forall s members,
               WebSocketServer.sessionClients ws2 !! s = Some members -> NoDup members)
      as Hnd2 by (by rewrite Hs1).
    assert (filter (fun e : string * Z => FileStreamMonitor.inactive now e = true)
                   (FileStreamMonitor.lastActivity fm2)
            = filter (fun e : string * Z => 10 * 60 * 1000 < now - e.2)
                     (FileStreamMonitor.lastActivity fm2)) as Hfilter.
    { apply list_filter_iff. intros e.
      unfold FileStreamMonitor.inactive, FileStreamMonitor.inactiveThreshold.
      apply Z.ltb_lt. }
    split; [|split; [|split]].
    + exists before. split; [done|].
      eapply Forall_impl; [exact Hbefore|].
      intros m (n & e & Hn & _ & Hold & ->) n' s' Heq.
      unfold Wired.inactivity_notice in Heq. injection Heq as _ _ Ht.
      rewrite Forall_forall in Hearly. specialize (Hearly n Hn). lia.
    + unfold Wired.tick, FileStreamMonitor.inactivity_tick. cbn [fst snd].
      destruct (inactivity_events_received now c
                  (filter (fun e : string * Z => FileStreamMonitor.inactive now e = true)
                          (FileStreamMonitor.lastActivity fm2)) ws2 cm2 Hnd2) as (Hr & _).
      cbn zeta in Hr. rewrite Hr.
      unfold Invariant.can_send, WebSocketServer.getSessionClients.
      rewrite Hc1, Hs1. fold (Invariant.can_send c ws). rewrite Hcan, Hfilter. done.
    + rewrite list_elem_of_fmap. split.
      * intros ([f t] & Heq & He). cbn [fst snd] in Heq.
        apply list_elem_of_filter in He as [_ He].
        apply list_elem_of_filter in He as [Hold _]. cbn [snd] in Hold.
        unfold Wired.inactivity_notice in Heq. injection Heq as _ ->. done.
      * intros Hold. exists (filePath, changed). split; [done|].
        apply list_elem_of_filter. split; [done|].
        apply list_elem_of_filter. split; [done|]. done.
    + intros Hold. unfold Wired.tick, FileStreamMonitor.inactivity_tick. cbn [fst snd].
      destruct (inactivity_events_received now c
                  (filter (fun e : string * Z => FileStreamMonitor.inactive now e = true)
                          (FileStreamMonitor.lastActivity fm2)) ws2 cm2 Hnd2)
        as (_ & _ & Hs3).
      cbn zeta in Hs3.
      destruct (ConnectionManager.on_monitor_events now _ (ws2, cm2)) as [ws3 cm3].
      cbn [fst] in Hs3.
      destruct (checks_received c later
                  {| FileStreamMonitor.filePositions := FileStreamMonitor.filePositions fm2;
                     FileStreamMonitor.lastActivity :=
                       filter (fun e : string * Z =>
                                 FileStreamMonitor.inactive now e = false)
                              (FileStreamMonitor.lastActivity fm2) |} ws3 cm3)
        as (_ & _ & _ & _ & after & Hr3 & Hafter); [by rewrite Hs3|].
      cbn zeta in Hr3. exists after. split; [done|].
      eapply Forall_impl; [exact Hafter|].
      intros m (n & e & _ & He & _ & ->) n' s' Heq.
      unfold Wired.inactivity_notice in Heq. injection Heq as _ _ Ht.
      cbn in He. apply list_elem_of_filter in He as [Hyoung _].
      unfold FileStreamMonitor.inactive, FileStreamMonitor.inactiveThreshold in Hyoung.
      apply Z.ltb_ge in Hyoung. lia.
  - intros now fm sys. unfold FileStreamMonitor.inactivity_tick. cbn [snd].
    apply inactivity_events_send_only.
Qed.

Lemma subscribers_of_ws_A :
  forall s members,
    WebSocketServer.sessionClients Sample.ws_A !! s = Some members -> NoDup members.
Proof.
  assert (WebSocketServer.sessionClients Sample.ws_A = {["S1" := ["A"]]}) as Hmap
    by (vm_compute; reflexivity).
  intros s ms. rewrite Hmap. intros [_ <-]%lookup_singleton_Some. apply NoDup_singleton.
Qed.

(** The record [ok] reaches the subscriber [A] of [S1]; the log changes
    at [t0], the check 9 minutes later sends nothing, and the check that
    runs 10 minutes and a second after the change brings [A] the notice. *)
Lemma state_follows_records_sample :
  WebSocketServer.received "A"
    (ConnectionManager.handleNewMessage Sample.t0 Sample.ok
       (Sample.ws_A, ConnectionManager.create)).1
  = WebSocketServer.received "A" Sample.ws_A ++
    [WebSocketMessage.session_message
       {| SessionMessage.timestamp := SessionMessage.copied (timestamp Sample.ok);
          SessionMessage.sessionId := JStr "S1";
          SessionMessage.payload :=
            SessionMessage.message (type Sample.ok) (ConnectionManager.content_of Sample.ok)
                                   (parentUuid Sample.ok) false |};
     WebSocketMessage.session_message
       {| SessionMessage.timestamp := SessionMessage.clock Sample.t0;
          SessionMessage.sessionId := JStr "S1";
          SessionMessage.payload :=
            SessionMessage.state
              (if is_string (type Sample.ok) "user" then working else waiting)
              (SessionMessage.copied (timestamp Sample.ok)) |}]
  /\ WebSocketServer.received "A"
       (Wired.tick (Sample.t0 + 601000)
          (Wired.checks [Sample.t0 + 540000]
             ((FileStreamMonitor.handleFileChanged JSON.parse
                 (Tail.only Sample.log (Sample.line_ok +:+ nl)) Sample.t0 Sample.log
                 Sample.idle0.1).1,
              (Sample.ws_A, ConnectionManager.create)))).2.1
     = WebSocketServer.received "A" Sample.ws_A
       ++ [Wired.inactivity_notice (Sample.t0 + 601000) "S1" Sample.t0].
Proof.
  destruct state_follows_records_and_silence_is_inactivity as (Ha & _ & _ & Hd & _).
  split.
  - apply (Ha Sample.t0 Sample.ok Sample.ws_A ConnectionManager.create "S1" "A" ["A"]).
    + reflexivity.
    + vm_compute. reflexivity.
    + apply NoDup_singleton.
    + apply list_elem_of_singleton. reflexivity.
    + vm_compute. reflexivity.
  - destruct (Hd JSON.parse Sample.t0 (Sample.t0 + 601000) Sample.log
                (Sample.line_ok +:+ nl) Sample.idle0.1 Sample.ws_A
                ConnectionManager.create "A" [Sample.t0 + 540000] [])
      as (_ & Hr & _).
    + vm_compute. constructor.
    + exact subscribers_of_ws_A.
    + vm_compute. apply list_elem_of_here.
    + vm_compute. reflexivity.
    + repeat constructor. lia.
    + rewrite Hr. vm_compute. reflexivity.
Defined.

(** C6, as stated, fails.  The last record of [S1] is of the assistant, at
    [t0]; at [t0 + 10 min + 1 s] the state of the specification is [idle],
    but what the subscriber [A] has received since subscribing is the
    record, the state [waiting] and an [inactivity] message: no
    [session_state] with [idle] among all it was sent. *)
Lemma silence_sends_inactivity_not_idle :
  Claimed.state_of (10 * 60 * 1000) (Sample.t0 + 10 * 60 * 1000 + 1000 - Sample.t0)
                   (JStr "assistant") = Some idle /\
  WebSocketServer.received "A" Sample.idle3.2.1
  = WebSocketServer.received "A" Sample.ws_A ++
    [WebSocketMessage.session_message
       {| SessionMessage.timestamp := SessionMessage.copied (JStr "2025-09-14T15:04:36.000Z");
          SessionMessage.sessionId := JStr "S1";
          SessionMessage.payload :=
            SessionMessage.message (JStr "assistant") (Some (JStr "ok"))
                                   (JStr EmptyString) false |};
     WebSocketMessage.session_message
       {| SessionMessage.timestamp := SessionMessage.clock Sample.t0;
          SessionMessage.sessionId := JStr "S1";
          SessionMessage.payload :=
            SessionMessage.state waiting
              (SessionMessage.copied (JStr "2025-09-14T15:04:36.000Z")) |};
     WebSocketMessage.session_message
       {| SessionMessage.timestamp := SessionMessage.clock (Sample.t0 + 10 * 60 * 1000 + 1000);
          SessionMessage.sessionId := JStr "S1";
          SessionMessage.payload :=
            SessionMessage.inactivity "Session inactive for more than 10 minutes"
                                      Sample.t0 |}] /\
  existsb Claimed.is_idle_state (WebSocketServer.received "A" Sample.idle3.2.1) = false.
Proof. vm_compute. repeat split; reflexivity. Qed.

(** The rest of the scenario: nothing is sent at [t0 + 9 min], and the
    record [next] of the user, appended at [t0 + 11 min], brings the state
    [working] at once. *)
Example idle_scenario :
  WebSocketServer.received "A" Sample.idle2.2.1
  = WebSocketServer.received "A" Sample.idle1.2.1 /\
  drop 6 (WebSocketServer.received "A" Sample.idle4.2.1)
  = [WebSocketMessage.session_message
       {| SessionMessage.timestamp := SessionMessage.copied (JStr "2025-09-14T15:05:00.000Z");
          SessionMessage.sessionId := JStr "S1";
          SessionMessage.payload :=
            SessionMessage.message (JStr "user") (Some (JStr "next"))
                                   (JStr EmptyString) false |};
     WebSocketMessage.session_message
       {| SessionMessage.timestamp := SessionMessage.clock (Sample.t0 + 11 * 60 * 1000);
          SessionMessage.sessionId := JStr "S1";
          SessionMessage.payload :=
            SessionMessage.state working
              (SessionMessage.copied (JStr "2025-09-14T15:05:00.000Z")) |}].
Proof. vm_compute. split; reflexivity. Qed.

(** [broadcastSessionState] gives [idle] for an empty list of records
    only, and [handleNewMessage] passes it the one new record. *)
Example broadcastSessionState_idle_only_when_empty :
  WebSocketServer.received "A"
    (ConnectionManager.broadcastSessionState Sample.t0 (JStr "S1") [] Sample.ws_A)
  = WebSocketServer.received "A" Sample.ws_A ++
    [WebSocketMessage.session_message
       {| SessionMessage.timestamp := SessionMessage.clock Sample.t0;
          SessionMessage.sessionId := JStr "S1";
          SessionMessage.payload :=
            SessionMessage.state idle (SessionMessage.clock Sample.t0) |}].
Proof. vm_compute. reflexivity. Qed.

(** ** Further facts about subscribers *)

(** The guard of the manager on [clientSubscribed] sends at most an error:
    it never changes who is subscribed. *)
Lemma handleClientSubscribed_leaves_subscribers (now : Z) (clientId sessionId : string)
    (ws : WebSocketServer.t) (cm : ConnectionManager.state) :
  WebSocketServer.sessionClients
    (ConnectionManager.handleClientSubscribed now clientId sessionId (ws, cm)).1
  = WebSocketServer.sessionClients ws.
Proof.
  unfold ConnectionManager.handleClientSubscribed, ConnectionManager.sendSessionHistory.
  destruct (_ <? _)%nat; cbn [fst]; apply sendToClient_sessionClients.
Qed.

(** A client that subscribes to a second session stays in the set of the
    first, and stays there after it disconnects; a takeover of the first
    session then skips it, being no client any more, and adds the new
    subscriber beside it.  This is why [handleSubscription_exclusive] asks
    for subscribers that are connected. *)
Example stale_subscriber_survives_takeover :
  let st1 := (WebSocketServer.handleSubscription "A" (Some "S2") false Sample.ws_AB).1 in
  let st2 := (WebSocketServer.handleDisconnection "A" st1).1 in
  let st3 := (WebSocketServer.handleSubscription "B" (Some "S1") true st2).1 in
  WebSocketServer.sessionClients st1 !! "S1" = Some ["A"] /\
  WebSocketServer.sessionClients st1 !! "S2" = Some ["A"] /\
  WebSocketServer.clients st2 !! "A" = None /\
  WebSocketServer.sessionClients st2 !! "S1" = Some ["A"] /\
  WebSocketServer.sessionClients st3 !! "S1" = Some ["A"; "B"].
Proof. vm_compute. repeat split; reflexivity. Qed.

(** X18. A client whose [authenticate] message is accepted holds the key it
    sent, so the notice of a takeover by it never falls back to
    ['Another device']. *)
Lemma handleAuthentication_sets_key (now : Z) (clientId : string) (key : option string)
    (st : WebSocketServer.t) :
  (WebSocketServer.handleAuthentication now clientId key st).2
  = [WebSocketServer.clientAuthenticated clientId key] ->
  exists K client,
    key = Some K /\
    WebSocketServer.clients (WebSocketServer.handleAuthentication now clientId key st).1
      !! clientId = Some client /\
    WebSocketServer.authenticated client = true /\
    WebSocketServer.apiKey client = Some K.
Proof.
  unfold WebSocketServer.handleAuthentication.
  destruct (WebSocketServer.clients st !! clientId) as [cl|] eqn:Hcl; [|done].
  destruct (WebSocketServer.validateApiKey now key st) as [st1 isValid] eqn:Hv.
  destruct isValid; [|done]. intros _.
  assert (WebSocketServer.clients st1 = WebSocketServer.clients st) as Hsame.
  { unfold WebSocketServer.validateApiKey in Hv.
    destruct (WebSocketServer.authService st) as [auth|].
    - destruct key as [k|]; [|by injection Hv as <-].
      destruct (AuthenticationService.validateApiKey now k auth) as [[auth' ?] ok].
      by injection Hv as <-.
    - by injection Hv as <-. }
  assert (exists K, key = Some K) as [K ->].
  { unfold WebSocketServer.validateApiKey in Hv.
    destruct key as [k|]; [by eexists|].
    destruct (WebSocketServer.authService st); by injection Hv. }
  exists K, (WebSocketServer.set_authenticated (Some K) cl).
  split; [done|]. cbn [fst]. rewrite sendToClient_clients. simpl.
  rewrite Hsame, lookup_alter_eq, Hcl. done.
Qed.

(** * Further properties of the code *)

(** ** The monitor: discovery, change, removal, inactivity *)

Section MonitorLifecycle.

Import FileStreamMonitor.

Variable JSON_parse : string -> option json.

Lemma on_line_existing_only (filePath line : string) (e : event) :
  e ∈ on_line JSON_parse existingMessage filePath line -> exists m, e = existingMessage m.
Proof. apply on_line_only_emits. Qed.

End MonitorLifecycle.

(** X2. When a file is discovered its content is emitted as existing
    messages and the offset is set to its size, so the first change after
    it delivers, as new messages, the lines of what was appended and
    nothing of what the file held. *)
Theorem change_after_add_delivers_appended :
  forall (JSON_parse : string -> option json) (now : Z) (filePath held appended : string)
         (st : FileStreamMonitor.state),
    let r0 := FileStreamMonitor.handleFileAdded JSON_parse (Tail.only filePath held)
                filePath st in
    let r1 := FileStreamMonitor.handleFileChanged JSON_parse
                (Tail.only filePath (held +:+ appended)) now filePath r0.1 in
    r0.2 = FileStreamMonitor.sessionDiscovered filePath
             (FileStreamMonitor.extractSessionInfo filePath)
           :: concat (map (FileStreamMonitor.on_line JSON_parse
                             FileStreamMonitor.existingMessage filePath)
                          (FileStreamMonitor.readline held [] false))
    /\ r1.2 = concat (map (FileStreamMonitor.on_line JSON_parse
                             FileStreamMonitor.newMessage filePath)
                          (FileStreamMonitor.readline appended [] false))
    /\ FileStreamMonitor.filePositions r1.1 !! filePath
       = Some (String.length (held +:+ appended)).
Proof.
  intros JSON_parse now filePath held appended st. cbn zeta.
  split.
  { unfold FileStreamMonitor.handleFileAdded, Tail.only.
    rewrite bool_decide_eq_true_2 by done. cbn [fst snd].
    destruct held; [done|]. reflexivity. }
  assert (FileStreamMonitor.filePositions
            (FileStreamMonitor.handleFileAdded JSON_parse (Tail.only filePath held)
               filePath st).1 !! filePath = Some (String.length held)) as Hpos.
  { unfold FileStreamMonitor.handleFileAdded, Tail.only.
    rewrite bool_decide_eq_true_2 by done. simpl. by rewrite lookup_insert_eq. }
  set (st0 := (FileStreamMonitor.handleFileAdded JSON_parse (Tail.only filePath held)
                 filePath st).1) in *.
  destruct appended as [|x appended].
  - assert (held +:+ EmptyString = held) as ->.
    { clear. induction held as [|c held IH]; [done|].
      exact (f_equal (String c) IH). }
    unfold FileStreamMonitor.handleFileChanged, Tail.only.
    rewrite bool_decide_eq_true_2 by done. rewrite Hpos. cbn [default from_option id].
    rewrite Nat.ltb_irrefl. cbn [fst snd]. done.
  - pose proof (handleFileChanged_grown JSON_parse now filePath (held +:+ String x appended)
                  (String.length held) st0 Hpos) as Hstep.
    destruct (FileStreamMonitor.handleFileChanged JSON_parse
                (Tail.only filePath (held +:+ String x appended)) now filePath st0)
      as [st1 ev1].
    destruct Hstep as [Hpos1 ->]; [rewrite string_length_append; simpl; lia|].
    cbn [fst snd]. split; [|done].
    unfold FileStreamMonitor.readNewContent. by rewrite string_drop_append.
Qed.

(** X3. Inactivity is counted from the last change notification: after a
    change of a file handled at instant [changed], a run of the inactivity
    check at [now] reports the file exactly when more than 10 minutes have
    passed since [changed]. *)
Theorem inactivity_counts_from_last_change :
  forall (JSON_parse : string -> option json) (changed now : Z) (filePath content : string)
         (st : FileStreamMonitor.state),
    Invariant.unique_files st ->
    let st' := (FileStreamMonitor.handleFileChanged JSON_parse (Tail.only filePath content)
                  changed filePath st).1 in
    Invariant.unique_files st' /\
    forall t,
      FileStreamMonitor.sessionInactive filePath
        (FileStreamMonitor.extractSessionInfo filePath) "inactivity_timeout" t now
        ∈ (FileStreamMonitor.inactivity_tick now st').2
      <-> t = changed /\ 10 * 60 * 1000 < now - changed.
Proof.
  intros JSON_parse changed now filePath content st Huniq. cbn zeta.
  assert (FileStreamMonitor.lastActivity
            (FileStreamMonitor.handleFileChanged JSON_parse (Tail.only filePath content)
               changed filePath st).1
          = JsMap.set filePath changed (FileStreamMonitor.lastActivity st)) as Hact.
  { unfold FileStreamMonitor.handleFileChanged, Tail.only.
    rewrite bool_decide_eq_true_2 by done.
    destruct (_ <? _)%nat; [done|]. by destruct (_ <? _)%nat. }
  split.
  - unfold Invariant.unique_files. rewrite Hact. by apply JsMap_set_NoDup.
  - intros t. rewrite tick_event_inv, Hact, (JsMap_set_elem _ _ _ _ Huniq).
    unfold FileStreamMonitor.inactiveThreshold. split.
    + intros (-> & Hold & _). done.
    + intros [-> Hold]. done.
Qed.

Lemma inactivity_counts_from_last_change_sample :
  Invariant.unique_files FileStreamMonitor.initial /\
  (FileStreamMonitor.sessionInactive Sample.log
     (FileStreamMonitor.extractSessionInfo Sample.log) "inactivity_timeout" Sample.t0
     (Sample.t0 + 700000)
   ∈ (FileStreamMonitor.inactivity_tick (Sample.t0 + 700000)
        (FileStreamMonitor.handleFileChanged JSON.parse
           (Tail.only Sample.log Sample.two_lines) Sample.t0 Sample.log
           FileStreamMonitor.initial).1).2).
Proof.
  assert (Invariant.unique_files FileStreamMonitor.initial) as H by apply NoDup_nil_2.
  split; [exact H|].
  apply (proj2 (inactivity_counts_from_last_change JSON.parse Sample.t0 (Sample.t0 + 700000)
                  Sample.log Sample.two_lines FileStreamMonitor.initial H)).
  split; [reflexivity|lia].
Defined.

(** X4. A file is reported inactive once: the check that reports it stops
    tracking it, and no later check reports it again, however late, until
    a change is seen. *)
Theorem inactivity_is_reported_once :
  forall (now later t t' : Z) (filePath : string) (st : FileStreamMonitor.state),
    Invariant.unique_files st ->
    FileStreamMonitor.sessionInactive filePath
      (FileStreamMonitor.extractSessionInfo filePath) "inactivity_timeout" t now
      ∈ (FileStreamMonitor.inactivity_tick now st).2 ->
    FileStreamMonitor.sessionInactive filePath
      (FileStreamMonitor.extractSessionInfo filePath) "inactivity_timeout" t' later
      ∉ (FileStreamMonitor.inactivity_tick later (FileStreamMonitor.inactivity_tick now st).1).2.
Proof.
  intros now later t t' filePath st Huniq Hfirst Hsecond.
  apply tick_event_inv in Hfirst as (Hin & Hold & _).
  apply tick_event_inv in Hsecond as (Hin' & _).
  unfold FileStreamMonitor.inactivity_tick in Hin'. cbn [fst FileStreamMonitor.lastActivity] in Hin'.
  apply list_elem_of_filter in Hin' as [Hyoung Hin'].
  pose proof (NoDup_fst_unique _ _ _ _ Huniq Hin Hin') as ->.
  unfold FileStreamMonitor.inactive in Hyoung. simpl in Hyoung.
  apply Z.ltb_ge in Hyoung. lia.
Qed.

Lemma inactivity_is_reported_once_sample :
  Invariant.unique_files Sample.idle1.1 /\
  FileStreamMonitor.sessionInactive Sample.log
    (FileStreamMonitor.extractSessionInfo Sample.log) "inactivity_timeout" Sample.t0
    (Sample.t0 + 700000)
  ∈ (FileStreamMonitor.inactivity_tick (Sample.t0 + 700000) Sample.idle1.1).2 /\
  FileStreamMonitor.sessionInactive Sample.log
    (FileStreamMonitor.extractSessionInfo Sample.log) "inactivity_timeout" Sample.t0
    (Sample.t0 + 9000000)
  ∉ (FileStreamMonitor.inactivity_tick (Sample.t0 + 9000000)
       (FileStreamMonitor.inactivity_tick (Sample.t0 + 700000) Sample.idle1.1).1).2.
Proof.
  assert (Invariant.unique_files Sample.idle1.1) as Hu.
  { vm_compute. apply NoDup_singleton. }
  assert (FileStreamMonitor.sessionInactive Sample.log
            (FileStreamMonitor.extractSessionInfo Sample.log) "inactivity_timeout" Sample.t0
            (Sample.t0 + 700000)
          ∈ (FileStreamMonitor.inactivity_tick (Sample.t0 + 700000) Sample.idle1.1).2) as Hin.
  { vm_compute. apply list_elem_of_here. }
  split; [exact Hu|]. split; [exact Hin|].
  exact (inactivity_is_reported_once (Sample.t0 + 700000) (Sample.t0 + 9000000)
           Sample.t0 Sample.t0 Sample.log Sample.idle1.1 Hu Hin).
Defined.

(** X5. A removed file is forgotten: its offset and its activity entry are
    dropped and the other files keep theirs, no inactivity check reports
    it, and a change notification for the path reads its whole content
    from byte 0 as new messages. *)
Theorem removed_file_is_forgotten :
  forall (JSON_parse : string -> option json) (now : Z) (filePath content : string)
         (st : FileStreamMonitor.state),
    let st' := (FileStreamMonitor.handleFileRemoved filePath st).1 in
    FileStreamMonitor.filePositions st' !! filePath = None
    /\ (forall other, other <> filePath ->
          FileStreamMonitor.filePositions st' !! other
          = FileStreamMonitor.filePositions st !! other)
    /\ (forall other t, other <> filePath ->
          (other, t) ∈ FileStreamMonitor.lastActivity st' <->
          (other, t) ∈ FileStreamMonitor.lastActivity st)
    /\ (forall sid reason t ts,
          FileStreamMonitor.sessionInactive filePath sid reason t ts
          ∉ (FileStreamMonitor.inactivity_tick now st').2)
    /\ (FileStreamMonitor.handleFileChanged JSON_parse (Tail.only filePath content)
          now filePath st').2
       = FileStreamMonitor.readNewContent JSON_parse content filePath 0.
Proof.
  intros JSON_parse now filePath content st. cbn zeta.
  unfold FileStreamMonitor.handleFileRemoved. cbn [fst]. repeat split.
  - simpl. apply lookup_delete_eq.
  - intros other Hne. simpl. by rewrite lookup_delete_ne.
  - simpl. unfold JsMap.delete. intros Hin%list_elem_of_filter. tauto.
  - simpl. unfold JsMap.delete. intros Hin. apply list_elem_of_filter. done.
  - intros sid reason t ts Hin. apply tick_event_inv in Hin as (Hin & _).
    simpl in Hin. unfold JsMap.delete in Hin. apply list_elem_of_filter in Hin as [Hne _].
    by apply Hne.
  - unfold FileStreamMonitor.handleFileChanged, Tail.only.
    rewrite bool_decide_eq_true_2 by done. simpl. rewrite lookup_delete_eq. simpl.
    destruct content; [done|]. reflexivity.
Qed.


(** ** The authentication service over time *)

Section AuthLifecycle.

Import AuthenticationService.

Lemma authenticateMobile_apiKeys_other (now : Z) (hex guestToken deviceId k : string)
    (st : state) :
  hex <> k ->
  apiKeys (authenticateMobile now hex guestToken deviceId st).1.1 !! k = apiKeys st !! k.
Proof.
  intros Hne. unfold authenticateMobile.
  destruct (guestTokens st !! guestToken) as [token|]; [|done].
  destruct (GuestToken.used token); [done|].
  destruct (GuestToken.expires token <? now); [done|].
  simpl. by rewrite lookup_insert_ne.
Qed.

Lemma cleanup_apiKeys (now : Z) (st : state) (k : string) (key : ApiKey.t) :
  apiKeys (cleanup now st).1 !! k = Some key <->
  apiKeys st !! k = Some key /\ now <= ApiKey.expiresAt key.
Proof.
  unfold cleanup, cleanupExpiredTokens, cleanupExpiredApiKeys. cbn [fst].
  simpl. by rewrite map_lookup_filter_Some.
Qed.

Lemma cleanup_guestTokens (now : Z) (st : state) (t : string) (token : GuestToken.t) :
  guestTokens (cleanup now st).1 !! t = Some token <->
  guestTokens st !! t = Some token /\ now <= GuestToken.expires token.
Proof.
  unfold cleanup, cleanupExpiredTokens, cleanupExpiredApiKeys. cbn [fst].
  simpl. by rewrite map_lookup_filter_Some.
Qed.

Lemma dead_step (k : string) (now : Z) (o : AuthRun.op) (st : state) :
  AuthRun.mints k o = false -> Invariant.dead k st -> Invariant.dead k (AuthRun.step now o st).
Proof.
  intros Hmint Hdead key. destruct o as [uuid|hex tok dev|k'|k'|k'|]; simpl.
  - apply Hdead.
  - simpl in Hmint. apply bool_decide_eq_false in Hmint.
    rewrite authenticateMobile_apiKeys_other by done. apply Hdead.
  - rewrite validateApiKey_state.
    destruct (apiKeys st !! k') as [key'|] eqn:Hk'; [|apply Hdead].
    destruct (ApiKey.revoked key') eqn:Hr; [apply Hdead|].
    destruct (decide (k' = k)) as [->|Hne].
    { by rewrite (Hdead _ Hk') in Hr. }
    destruct (ApiKey.expiresAt key' <? now); simpl;
      rewrite lookup_insert_ne by done; apply Hdead.
  - unfold refreshApiKey.
    destruct (apiKeys st !! k') as [key'|] eqn:Hk'; [|apply Hdead].
    destruct (ApiKey.revoked key') eqn:Hr; [apply Hdead|].
    destruct (decide (k' = k)) as [->|Hne].
    { by rewrite (Hdead _ Hk') in Hr. }
    destruct (ApiKey.expiresAt key' <? now); simpl; [apply Hdead|].
    rewrite lookup_insert_ne by done. apply Hdead.
  - unfold revokeApiKey.
    destruct (apiKeys st !! k') as [key'|] eqn:Hk'; [|apply Hdead].
    simpl. destruct (decide (k' = k)) as [->|Hne].
    + rewrite lookup_insert_eq. by intros [= <-].
    + rewrite lookup_insert_ne by done. apply Hdead.
  - intros [Hk _]%cleanup_apiKeys. by apply Hdead.
Qed.

Lemma dead_run (k : string) (ops : list (Z * AuthRun.op)) :
  forallb (fun p => negb (AuthRun.mints k p.2)) ops = true ->
  forall st, Invariant.dead k st -> Invariant.dead k (AuthRun.run ops st).
Proof.
  induction ops as [|[now o] ops IH]; intros Hops st Hdead; [done|].
  simpl in Hops. apply andb_prop in Hops as [Ho Hops].
  simpl. apply IH; [done|]. apply dead_step; [|done]. by apply negb_true_iff.
Qed.

Lemma dead_invalid (k : string) (now : Z) (st : state) :
  Invariant.dead k st -> currently_valid now k st = false.
Proof.
  intros Hdead. unfold currently_valid.
  destruct (apiKeys st !! k) as [key|] eqn:Hk; [|done]. by rewrite (Hdead _ Hk).
Qed.

(** The token [t] is not in the table. *)
Lemma consumed_step (t : string) (now : Z) (o : AuthRun.op) (st : state) :
  AuthRun.issues t o = false ->
  guestTokens st !! t = None -> guestTokens (AuthRun.step now o st) !! t = None.
Proof.
  intros Hissue Hnone. destruct o as [uuid|hex tok dev|k'|k'|k'|]; simpl.
  - simpl in Hissue. apply bool_decide_eq_false in Hissue. by rewrite lookup_insert_ne.
  - unfold authenticateMobile.
    destruct (guestTokens st !! tok) as [token|] eqn:Htok; [|done].
    assert (tok <> t) as Hne by congruence.
    destruct (GuestToken.used token); [done|].
    destruct (GuestToken.expires token <? now); simpl.
    + by rewrite lookup_delete_ne.
    + by rewrite lookup_delete_ne, lookup_insert_ne.
  - by rewrite validateApiKey_state; repeat case_match.
  - unfold refreshApiKey. by repeat case_match.
  - unfold revokeApiKey. by repeat case_match.
  - destruct (guestTokens (cleanup now st).1 !! t) as [token|] eqn:Ht; [|done].
    apply cleanup_guestTokens in Ht as [Ht _]. congruence.
Qed.

Lemma consumed_run (t : string) (ops : list (Z * AuthRun.op)) :
  forallb (fun p => negb (AuthRun.issues t p.2)) ops = true ->
  forall st, guestTokens st !! t = None -> guestTokens (AuthRun.run ops st) !! t = None.
Proof.
  induction ops as [|[now o] ops IH]; intros Hops st Hnone; [done|].
  simpl in Hops. apply andb_prop in Hops as [Ho Hops].
  simpl. apply IH; [done|]. apply consumed_step; [|done]. by apply negb_true_iff.
Qed.

End AuthLifecycle.

(** X7. Pairing round trip: a token issued at [issued] and redeemed no later
    than its expiry yields the key minted for the device, the token is
    gone, and the key validates at every instant up to the key's expiry,
    [redeemed + apiKeyTTL]; its info shows the device. *)
Theorem pairing_round_trip :
  forall (issued redeemed used : Z) (uuid hex deviceId : string)
         (st : AuthenticationService.state),
    redeemed <= issued + AuthenticationService.qrTokenTTL (AuthenticationService.options st) ->
    used <= redeemed + AuthenticationService.apiKeyTTL (AuthenticationService.options st) ->
    let st1 := (AuthenticationService.generateAuthQR issued uuid st).1.1 in
    let r := AuthenticationService.authenticateMobile redeemed hex uuid deviceId st1 in
    r.2 = inr hex /\
    AuthenticationService.guestTokens r.1.1 !! uuid = None /\
    (AuthenticationService.validateApiKey used hex r.1.1).2 = true /\
    AuthenticationService.getApiKeyInfo hex r.1.1
    = Some {| AuthenticationService.ApiKeyInfo.deviceId := deviceId;
              AuthenticationService.ApiKeyInfo.createdAt := redeemed;
              AuthenticationService.ApiKeyInfo.expiresAt :=
                redeemed + AuthenticationService.apiKeyTTL (AuthenticationService.options st);
              AuthenticationService.ApiKeyInfo.lastUsed := None;
              AuthenticationService.ApiKeyInfo.revoked := false |}.
Proof.
  intros issued redeemed used uuid hex deviceId st Hredeem Hused. cbn zeta.
  unfold AuthenticationService.generateAuthQR, AuthenticationService.authenticateMobile.
  simpl. rewrite lookup_insert_eq. simpl.
  apply Z.ltb_ge in Hredeem. rewrite Hredeem. simpl.
  split; [done|]. split; [simpl; apply lookup_delete_eq|].
  rewrite validateApiKey_result.
  unfold AuthenticationService.currently_valid, AuthenticationService.getApiKeyInfo.
  simpl. rewrite lookup_insert_eq. simpl.
  apply Z.ltb_ge in Hused. rewrite Hused. done.
Qed.

Lemma pairing_round_trip_sample :
  (AuthenticationService.authenticateMobile 20000 "K9" "T9" "D9"
     (AuthenticationService.generateAuthQR 0 "T9" Sample.auth1).1.1).2 = inr "K9" /\
  (AuthenticationService.validateApiKey 86400000 "K9"
     (AuthenticationService.authenticateMobile 20000 "K9" "T9" "D9"
        (AuthenticationService.generateAuthQR 0 "T9" Sample.auth1).1.1).1.1).2 = true.
Proof.
  destruct (pairing_round_trip 0 20000 86400000 "T9" "K9" "D9" Sample.auth1)
    as (H1 & _ & H3 & _); [vm_compute; discriminate|vm_compute; discriminate|].
  split; [exact H1|exact H3].
Defined.

(** X8. Revocation is final: once [revokeApiKey] has revoked a key, the key
    fails validation and refresh at every later instant, whatever
    operations the service performs in between, as long as the random
    generator does not mint the same key again. *)
Theorem revoked_key_stays_invalid :
  forall (now later : Z) (k : string) (ops : list (Z * AuthRun.op))
         (st : AuthenticationService.state),
    (AuthenticationService.revokeApiKey now k st).2 = true ->
    forallb (fun p => negb (AuthRun.mints k p.2)) ops = true ->
    let st' := AuthRun.run ops (AuthenticationService.revokeApiKey now k st).1.1 in
    (AuthenticationService.validateApiKey later k st').2 = false /\
    (AuthenticationService.refreshApiKey later k st').2 = None /\
    (AuthenticationService.validateApiKey later k st').1.1 = st'.
Proof.
  intros now later k ops st Hrevoked Hops. cbn zeta.
  assert (Invariant.dead k (AuthenticationService.revokeApiKey now k st).1.1) as Hdead.
  { unfold AuthenticationService.revokeApiKey in *.
    destruct (AuthenticationService.apiKeys st !! k) as [key|]; [|done].
    intros key'. simpl. rewrite lookup_insert_eq. by intros [= <-]. }
  pose proof (dead_run k ops Hops _ Hdead) as Hdead'.
  set (st' := AuthRun.run ops _) in *.
  rewrite validateApiKey_result, (dead_invalid k later st' Hdead').
  split; [done|]. split.
  - by rewrite (refreshApiKey_invalid later k st' (dead_invalid k later st' Hdead')).
  - rewrite validateApiKey_state.
    destruct (AuthenticationService.apiKeys st' !! k) as [key|] eqn:Hk; [|done].
    by rewrite (Hdead' _ Hk).
Qed.

Lemma revoked_key_stays_invalid_sample :
  (AuthenticationService.revokeApiKey 5000 "K1" Sample.auth1).2 = true /\
  (AuthenticationService.validateApiKey 9000 "K1"
     (AuthRun.run [(6000, AuthRun.refresh "K1"); (7000, AuthRun.sweep);
                   (8000, AuthRun.validate "K1")]
        (AuthenticationService.revokeApiKey 5000 "K1" Sample.auth1).1.1)).2 = false.
Proof.
  split; [vm_compute; reflexivity|].
  apply (revoked_key_stays_invalid 5000 9000 "K1"
           [(6000, AuthRun.refresh "K1"); (7000, AuthRun.sweep); (8000, AuthRun.validate "K1")]
           Sample.auth1); vm_compute; reflexivity.
Defined.

(** X9. A token redeems at most once: after a redemption that succeeded,
    every later attempt with the token is refused as an invalid token and
    changes nothing, whatever the service does in between, as long as the
    random generator does not issue the same token again. *)
Theorem redeemed_token_stays_consumed :
  forall (now later : Z) (hex hex' guestToken deviceId deviceId' key : string)
         (ops : list (Z * AuthRun.op)) (st : AuthenticationService.state),
    (AuthenticationService.authenticateMobile now hex guestToken deviceId st).2 = inr key ->
    forallb (fun p => negb (AuthRun.issues guestToken p.2)) ops = true ->
    let st' := AuthRun.run ops
                 (AuthenticationService.authenticateMobile now hex guestToken deviceId st).1.1 in
    AuthenticationService.authenticateMobile later hex' guestToken deviceId' st'
    = (st', [AuthenticationService.authenticationFailed "invalid_token" guestToken],
       inl "Invalid guest token").
Proof.
  intros now later hex hex' guestToken deviceId deviceId' key ops st Hfirst Hops. cbn zeta.
  apply authenticateMobile_unknown. apply consumed_run; [done|].
  destruct (AuthenticationService.authenticateMobile now hex guestToken deviceId st)
    as [[st1 evs] res] eqn:Heq.
  simpl in Hfirst. subst res. by eapply authenticateMobile_consumes.
Qed.

Lemma redeemed_token_stays_consumed_sample :
  (AuthenticationService.authenticateMobile 1000 "K1" "T1" "D1" Sample.auth0).2 = inr "K1" /\
  AuthenticationService.authenticateMobile 4000 "K2" "T1" "D2"
    (AuthRun.run [(2000, AuthRun.validate "K1"); (3000, AuthRun.issue "T2")]
       (AuthenticationService.authenticateMobile 1000 "K1" "T1" "D1" Sample.auth0).1.1)
  = (AuthRun.run [(2000, AuthRun.validate "K1"); (3000, AuthRun.issue "T2")]
       (AuthenticationService.authenticateMobile 1000 "K1" "T1" "D1" Sample.auth0).1.1,
     [AuthenticationService.authenticationFailed "invalid_token" "T1"],
     inl "Invalid guest token").
Proof.
  split; [vm_compute; reflexivity|].
  apply (redeemed_token_stays_consumed 1000 4000 "K1" "K2" "T1" "D1" "D2" "K1"
           [(2000, AuthRun.validate "K1"); (3000, AuthRun.issue "T2")] Sample.auth0);
    vm_compute; reflexivity.
Defined.

(** X10. The clean-up timer deletes exactly the guest tokens and API keys
    whose expiry is before [now].  It changes neither which keys validate
    at [now] nor which tokens can be redeemed at [now]. *)
Theorem cleanup_removes_only_the_expired :
  forall (now : Z) (st : AuthenticationService.state),
    let st' := (AuthenticationService.cleanup now st).1 in
    (forall k key,
        AuthenticationService.apiKeys st' !! k = Some key <->
        AuthenticationService.apiKeys st !! k = Some key /\
        now <= AuthenticationService.ApiKey.expiresAt key)
    /\ (forall t token,
          AuthenticationService.guestTokens st' !! t = Some token <->
          AuthenticationService.guestTokens st !! t = Some token /\
          now <= AuthenticationService.GuestToken.expires token)
    /\ (forall k,
          AuthenticationService.currently_valid now k st'
          = AuthenticationService.currently_valid now k st)
    /\ (forall hex t deviceId,
          (AuthenticationService.authenticateMobile now hex t deviceId st').2 = inr hex <->
          (AuthenticationService.authenticateMobile now hex t deviceId st).2 = inr hex).
Proof.
  intros now st. cbn zeta. split; [|split; [|split]].
  - intros k key. apply cleanup_apiKeys.
  - intros t token. apply cleanup_guestTokens.
  - intros k. unfold AuthenticationService.currently_valid.
    destruct (AuthenticationService.apiKeys st !! k) as [key|] eqn:Hk.
    + destruct (decide (now <= AuthenticationService.ApiKey.expiresAt key)) as [Hle|Hgt].
      * by rewrite (proj2 (cleanup_apiKeys now st k key) (conj Hk Hle)).
      * destruct (AuthenticationService.apiKeys (AuthenticationService.cleanup now st).1 !! k)
          as [key'|] eqn:Hk'.
        -- apply cleanup_apiKeys in Hk' as [Hk' _]. congruence.
        -- assert ((AuthenticationService.ApiKey.expiresAt key <? now) = true) as ->
             by (apply Z.ltb_lt; lia).
           by rewrite andb_false_r.
    + destruct (AuthenticationService.apiKeys (AuthenticationService.cleanup now st).1 !! k)
        as [key'|] eqn:Hk'; [|done].
      apply cleanup_apiKeys in Hk' as [Hk' _]. congruence.
  - intros hex t deviceId. unfold AuthenticationService.authenticateMobile.
    destruct (AuthenticationService.guestTokens st !! t) as [token|] eqn:Ht.
    + destruct (decide (now <= AuthenticationService.GuestToken.expires token)) as [Hle|Hgt].
      * rewrite (proj2 (cleanup_guestTokens now st t token) (conj Ht Hle)).
        destruct (AuthenticationService.GuestToken.used token); [done|].
        by destruct (AuthenticationService.GuestToken.expires token <? now).
      * assert ((AuthenticationService.GuestToken.expires token <? now) = true) as ->
          by (apply Z.ltb_lt; lia).
        destruct (AuthenticationService.guestTokens
                    (AuthenticationService.cleanup now st).1 !! t) as [token'|] eqn:Ht'.
        -- apply cleanup_guestTokens in Ht' as [Ht' ?]. assert (token' = token) by congruence.
           subst. lia.
        -- by destruct (AuthenticationService.GuestToken.used token).
    + destruct (AuthenticationService.guestTokens
                  (AuthenticationService.cleanup now st).1 !! t) as [token'|] eqn:Ht'; [|done].
      apply cleanup_guestTokens in Ht' as [Ht' _]. congruence.
Qed.

(** ** The routes and the middleware *)

Lemma bearer_prefix (k : string) :
  AuthRoutes.bearer (Some ("Bearer " +:+ k)) = Some k.
Proof. reflexivity. Qed.

Lemma strip_prefix (k : string) : AuthMiddleware.strip ("Bearer " +:+ k) = k.
Proof. reflexivity. Qed.

(** X11. [POST /api/auth/revoke] with [Bearer k] answers 200 exactly when
    [k] is a key of the table, revoked and expired keys included, and 404
    otherwise.  After a 200, whatever the service does afterwards short
    of minting the same key again, the key is refused: the refresh route
    and the middleware answer 401, and the info route answers 404 when
    the clean-up has removed the key and otherwise 200 with the key
    revoked and not valid, as it does right after the revoke. *)
Theorem revoke_route_ends_the_key :
  forall (now later : Z) (k : string) (ops : list (Z * AuthRun.op))
         (st : AuthenticationService.state),
    k <> EmptyString ->
    forallb (fun p => negb (AuthRun.mints k p.2)) ops = true ->
    let r := AuthRoutes.post_revoke now (Some ("Bearer " +:+ k)) st in
    let st' := AuthRun.run ops r.1.1 in
    let revoked_info (answer : Z * option (AuthenticationService.ApiKeyInfo.t * bool)) :=
      exists info,
        answer = (200, Some (info, false))
        /\ AuthenticationService.ApiKeyInfo.revoked info = true in
    (r.2 = 200 <-> is_Some (AuthenticationService.apiKeys st !! k))
    /\ (r.2 = 404 <-> AuthenticationService.apiKeys st !! k = None)
    /\ (r.2 = 200 ->
        (AuthRoutes.post_refresh later (Some ("Bearer " +:+ k)) st').2 = (401, None)
        /\ (AuthMiddleware.requireAuth later (AuthMiddleware.single ("Bearer " +:+ k)) st').2
           = AuthMiddleware.respond 401
        /\ match AuthenticationService.apiKeys st' !! k with
           | Some _ =>
               revoked_info (AuthRoutes.get_info later (Some ("Bearer " +:+ k)) st').2
           | None =>
               (AuthRoutes.get_info later (Some ("Bearer " +:+ k)) st').2 = (404, None)
           end
        /\ revoked_info (AuthRoutes.get_info later (Some ("Bearer " +:+ k)) r.1.1).2).
Proof.
  intros now later k ops st Hk Hops. cbn zeta.
  unfold AuthRoutes.post_revoke. rewrite bearer_prefix.
  cbn [AuthRoutes.falsy default from_option id].
  rewrite bool_decide_eq_false_2 by done.
  unfold AuthenticationService.revokeApiKey.
  destruct (AuthenticationService.apiKeys st !! k) as [key|] eqn:Hkey; cbn [fst snd].
  2:{ split; [split; [done|by intros [? ?]]|]. split; done. }
  split; [split; [eauto|done]|]. split; [done|]. intros _.
  set (st0 := AuthenticationService.with_apiKeys _ st).
  assert (Invariant.dead k st0) as Hdead0.
  { intros key'. unfold st0. simpl. rewrite lookup_insert_eq. by intros [= <-]. }
  assert (forall st1, Invariant.dead k st1 ->
            (AuthRoutes.post_refresh later (Some ("Bearer " +:+ k)) st1).2 = (401, None)
            /\ (AuthMiddleware.requireAuth later
                  (AuthMiddleware.single ("Bearer " +:+ k)) st1).2
               = AuthMiddleware.respond 401
            /\ match AuthenticationService.apiKeys st1 !! k with
               | Some _ =>
                   exists info,
                     (AuthRoutes.get_info later (Some ("Bearer " +:+ k)) st1).2
                     = (200, Some (info, false))
                     /\ AuthenticationService.ApiKeyInfo.revoked info = true
               | None =>
                   (AuthRoutes.get_info later (Some ("Bearer " +:+ k)) st1).2 = (404, None)
               end) as Hrefused.
  { intros st1 Hdead. pose proof (dead_invalid k later st1 Hdead) as Hinvalid.
    split; [|split].
    - unfold AuthRoutes.post_refresh. rewrite bearer_prefix.
      cbn [AuthRoutes.falsy default from_option id].
      rewrite bool_decide_eq_false_2 by done.
      by rewrite (refreshApiKey_invalid later k st1 Hinvalid).
    - unfold AuthMiddleware.requireAuth, AuthMiddleware.createAuthMiddleware.
      cbn [AuthMiddleware.extract]. rewrite strip_prefix.
      cbn [AuthRoutes.falsy default from_option id].
      rewrite bool_decide_eq_false_2 by done.
      pose proof (validateApiKey_result later k st1) as Hres. rewrite Hinvalid in Hres.
      destruct (AuthenticationService.validateApiKey later k st1) as [[st2 evs] ok].
      cbn [snd] in *. by subst ok.
    - unfold AuthRoutes.get_info. rewrite bearer_prefix.
      cbn [AuthRoutes.falsy default from_option id].
      rewrite bool_decide_eq_false_2 by done.
      unfold AuthenticationService.getApiKeyInfo.
      destruct (AuthenticationService.apiKeys st1 !! k) as [key1|] eqn:Hk1; [|done].
      pose proof (validateApiKey_result later k st1) as Hres. rewrite Hinvalid in Hres.
      destruct (AuthenticationService.validateApiKey later k st1) as [[st2 evs] ok].
      cbn [snd] in *. subst ok. eexists. split; [reflexivity|]. cbn. by apply (Hdead key1). }
  destruct (Hrefused _ (dead_run k ops Hops _ Hdead0)) as (H1 & H2 & H3).
  split; [done|]. split; [done|]. split; [done|].
  destruct (Hrefused _ Hdead0) as (_ & _ & H4).
  assert (AuthenticationService.apiKeys st0 !! k
          = Some (AuthenticationService.ApiKey.set_revoked true key)) as Hk0.
  { unfold st0. simpl. apply lookup_insert_eq. }
  by rewrite Hk0 in H4.
Qed.

Lemma revoke_route_ends_the_key_sample :
  (AuthRoutes.post_revoke 5000 (Some "Bearer K1") Sample.auth1).2 = 200 /\
  (AuthRoutes.post_refresh 6000 (Some "Bearer K1")
     (AuthRun.run [(5500, AuthRun.sweep); (5600, AuthRun.validate "K1")]
        (AuthRoutes.post_revoke 5000 (Some "Bearer K1") Sample.auth1).1.1)).2 = (401, None).
Proof.
  destruct (revoke_route_ends_the_key 5000 6000 "K1"
              [(5500, AuthRun.sweep); (5600, AuthRun.validate "K1")] Sample.auth1)
    as (H200 & _ & Hafter); [discriminate|reflexivity|].
  assert ((AuthRoutes.post_revoke 5000 (Some "Bearer K1") Sample.auth1).2 = 200) as H.
  { apply H200. vm_compute. eauto. }
  split; [exact H|]. exact (proj1 (Hafter H)).
Defined.

(** X12. [requireAuth] lets a request through exactly when the key in its
    header, with or without the [Bearer ] prefix, is currently valid; the
    request then carries that key and the device the key was minted for,
    and the key's [lastUsed] is [now].  Every other request is answered
    401; none passes unauthenticated. *)
Theorem requireAuth_passes_iff_valid :
  forall (now : Z) (h : AuthMiddleware.header) (st : AuthenticationService.state),
    let r := AuthMiddleware.requireAuth now h st in
    (forall a k d,
        r.2 = AuthMiddleware.next a k d ->
        a = true /\
        exists key c,
          k = Some key /\ AuthMiddleware.extract h = Some key /\
          AuthenticationService.currently_valid now key st = true /\
          AuthenticationService.apiKeys st !! key = Some c /\
          AuthenticationService.apiKeys r.1.1 !! key
          = Some (AuthenticationService.ApiKey.set_lastUsed now c) /\
          d = (if bool_decide (AuthenticationService.ApiKey.deviceId c = EmptyString)
               then None else Some (AuthenticationService.ApiKey.deviceId c)))
    /\ (forall key,
          AuthMiddleware.extract h = Some key -> key <> EmptyString ->
          AuthenticationService.currently_valid now key st = true ->
          exists d, r.2 = AuthMiddleware.next true (Some key) d)
    /\ (forall status, r.2 = AuthMiddleware.respond status -> status = 401).
Proof.
  intros now h st. cbn zeta.
  unfold AuthMiddleware.requireAuth, AuthMiddleware.createAuthMiddleware.
  destruct (AuthMiddleware.extract h) as [key|] eqn:Hext; cbn [AuthRoutes.falsy].
  2:{ cbn [snd]. split; [done|]. split; [done|]. by intros status [= <-]. }
  destruct (decide (key = EmptyString)) as [->|Hne].
  { rewrite bool_decide_eq_true_2 by done. cbn [snd]. split; [done|].
    split; [by intros ? [= <-]|]. by intros status [= <-]. }
  rewrite bool_decide_eq_false_2 by done. cbn [default from_option id].
  pose proof (validateApiKey_result now key st) as Hres.
  pose proof (validateApiKey_state now key st) as Hst.
  destruct (AuthenticationService.validateApiKey now key st) as [[st' evs] isValid].
  cbn [fst snd] in *. subst isValid.
  destruct (AuthenticationService.currently_valid now key st) eqn:Hvalid; cbn [fst snd].
  - destruct (currently_valid_inv now key st Hvalid) as (c & Hc & Hr & He).
    rewrite Hc, Hr in Hst. apply Z.ltb_ge in He. rewrite He in Hst. subst st'.
    assert (AuthenticationService.apiKeys
              (AuthenticationService.with_apiKeys
                 (<[key:=AuthenticationService.ApiKey.set_lastUsed now c]>
                    (AuthenticationService.apiKeys st)) st) !! key
            = Some (AuthenticationService.ApiKey.set_lastUsed now c)) as Hk'.
    { simpl. apply lookup_insert_eq. }
    split; [|split].
    + intros a k d [= <- <- <-]. split; [done|]. exists key, c.
      repeat split; try done.
      unfold AuthMiddleware.deviceId_of, AuthenticationService.getApiKeyInfo.
      by rewrite Hk'.
    + intros key' [= <-] _ _. eauto.
    + done.
  - split; [done|]. split; [|by intros status [= <-]].
    intros key' [= <-] _ ?. congruence.
Qed.

(** ** The server over time *)

Section ServerLifecycle.

Import WebSocketServer.

Lemma populated_same (st st' : t) :
  sessionClients st' = sessionClients st ->
  Invariant.populated st -> Invariant.populated st'.
Proof. intros Heq H s ms. rewrite Heq. apply H. Qed.

Lemma JsSet_add_populated (c : string) (ms : list string) :
  NoDup ms -> JsSet.add c ms <> [] /\ NoDup (JsSet.add c ms) /\ c ∈ JsSet.add c ms.
Proof.
  intros Hnd. unfold JsSet.add, JsSet.has. case_bool_decide as Hin.
  - repeat split; try done. intros ->. by apply elem_of_nil in Hin.
  - repeat split.
    + by destruct ms.
    + apply NoDup_app. repeat split; [done| |apply NoDup_singleton].
      intros x Hx ->%list_elem_of_singleton. done.
    + apply elem_of_app. right. by apply list_elem_of_singleton.
Qed.

Lemma populated_addClientToSession (c s : string) (st : t) :
  Invariant.populated st -> Invariant.populated (addClientToSession c s st).
Proof.
  intros H s' ms. unfold addClientToSession. simpl.
  destruct (decide (s' = s)) as [->|Hne].
  - rewrite lookup_insert_eq. intros [= <-].
    assert (NoDup (default [] (sessionClients st !! s))) as Hnd.
    { destruct (sessionClients st !! s) as [old|] eqn:Hold; simpl; [|constructor].
      by apply (H s old). }
    destruct (JsSet_add_populated c _ Hnd) as (? & ? & _). done.
  - rewrite lookup_insert_ne by done. apply H.
Qed.

Lemma populated_removeClientFromSession (c s : string) (st : t) :
  Invariant.populated st -> Invariant.populated (removeClientFromSession c s st).
Proof.
  intros H s' ms. unfold removeClientFromSession.
  destruct (sessionClients st !! s) as [old|] eqn:Hold; [|apply H].
  destruct (JsSet.delete c old) as [|y rest] eqn:Hdel; simpl.
  - destruct (decide (s' = s)) as [->|Hne].
    + by rewrite lookup_delete_eq.
    + rewrite lookup_delete_ne by done. apply H.
  - destruct (decide (s' = s)) as [->|Hne].
    + rewrite lookup_insert_eq. intros [= <-]. split; [done|].
      rewrite <- Hdel. apply NoDup_filter. by apply (H s old).
    + rewrite lookup_insert_ne by done. apply H.
Qed.

Lemma validateApiKey_clients (now : Z) (key : option string) (st : t) :
  clients (validateApiKey now key st).1 = clients st
  /\ sessionClients (validateApiKey now key st).1 = sessionClients st
  /\ wire (validateApiKey now key st).1 = wire st.
Proof.
  unfold validateApiKey. destruct (authService st) as [auth|]; [|done].
  destruct key as [k|]; [|done].
  by destruct (AuthenticationService.validateApiKey now k auth) as [[auth' ?] ok].
Qed.

Lemma populated_evict (s newViewer by_ x : string) (st : t) (evs : list event) :
  Invariant.populated st -> Invariant.populated (evict s newViewer by_ (st, evs) x).1.
Proof.
  intros H. unfold evict. destruct (clients st !! x) as [existing|]; [|done].
  assert (Invariant.populated
            (removeClientFromSession x s
               (sendToClient x (WebSocketMessage.session_taken_over s newViewer) st).1)) as H1.
  { apply populated_removeClientFromSession.
    eapply populated_same; [apply sendToClient_sessionClients|done]. }
  destruct (bool_decide (sessionId existing = Some s)); cbn [fst]; [|done].
  eapply populated_same; [|exact H1]. done.
Qed.

Lemma populated_evict_loop (s newViewer by_ : string) (members : list string) :
  forall (st : t) (evs : list event),
    Invariant.populated st ->
    Invariant.populated (foldl (evict s newViewer by_) (st, evs) members).1.
Proof.
  induction members as [|x members IH]; intros st evs H; [done|].
  cbn [foldl].
  pose proof (populated_evict s newViewer by_ x st evs H) as H1.
  destruct (evict s newViewer by_ (st, evs) x) as [st1 evs1]. by apply IH.
Qed.

Lemma populated_handleConnection (now : Z) (c : string) (sid key : option string) (st : t) :
  Invariant.populated st -> Invariant.populated (handleConnection now c sid key st).1.
Proof.
  intros H. unfold handleConnection. cbn [fst].
  eapply populated_same; [apply sendToClient_sessionClients|].
  destruct (or_undefined sid) as [s|]; [|done].
  unfold isAuthenticated. cbn [apiKey].
  destruct (or_undefined key) as [k|]; [|done].
  destruct (validateApiKey_clients now (Some k)
              (with_clients
                 (<[c:={| id := c; open := true; sessionId := Some s; lastPing := now;
                          authenticated := false; apiKey := Some k; deviceId := None |}]>
                    (clients st)) st)) as (_ & Hs & _).
  destruct (validateApiKey now (Some k) _) as [st' ok]. cbn [fst] in Hs.
  assert (Invariant.populated st') as H' by (eapply populated_same; [exact Hs|done]).
  destruct ok; [by apply populated_addClientToSession|done].
Qed.

Lemma populated_handleAuthentication (now : Z) (c : string) (key : option string) (st : t) :
  Invariant.populated st -> Invariant.populated (handleAuthentication now c key st).1.
Proof.
  intros H. unfold handleAuthentication.
  destruct (clients st !! c); [|done].
  destruct (validateApiKey_clients now key st) as (_ & Hs & _).
  destruct (validateApiKey now key st) as [st1 ok]. cbn [fst] in Hs.
  destruct ok; cbn [fst];
    (eapply populated_same; [apply sendToClient_sessionClients|]);
    eapply populated_same; try exact H; done.
Qed.

Lemma populated_handleSubscription (c : string) (sid : option string) (force : bool)
    (st : t) :
  Invariant.populated st -> Invariant.populated (handleSubscription c sid force st).1.
Proof.
  intros H. unfold handleSubscription, sendError.
  destruct (clients st !! c) as [client|]; cbn [fst].
  2:{ eapply populated_same; [apply sendToClient_sessionClients|done]. }
  destruct (authenticated client); cbn [negb fst].
  2:{ eapply populated_same; [apply sendToClient_sessionClients|done]. }
  destruct (or_undefined sid) as [s|]; cbn [fst].
  2:{ eapply populated_same; [apply sendToClient_sessionClients|done]. }
  assert (forall st1 b,
             Invariant.populated st1 ->
             Invariant.populated
               (sendToClient c (WebSocketMessage.subscribed s b)
                  (with_clients
                     (alter (set_sessionId (Some s)) c (clients (addClientToSession c s st1)))
                     (addClientToSession c s st1))).1) as Hsub.
  { intros st1 b H1.
    eapply populated_same; [apply sendToClient_sessionClients|].
    eapply populated_same; [|apply (populated_addClientToSession c s st1 H1)]. done. }
  destruct (sessionClients st !! s) as [[|first others]|]; cbn [fst].
  - by apply Hsub.
  - destruct force; cbn [negb fst].
    + pose proof (populated_evict_loop s (default "Another device" (apiKey client)) c
                    (first :: others) st [] H) as H1.
      destruct (foldl _ _ _) as [st1 evs1]. cbn [fst] in *. by apply Hsub.
    + eapply populated_same; [apply sendToClient_sessionClients|done].
  - by apply Hsub.
Qed.

Lemma populated_handleUnsubscription (c : string) (sid : option string) (st : t) :
  Invariant.populated st -> Invariant.populated (handleUnsubscription c sid st).1.
Proof.
  intros H. unfold handleUnsubscription.
  destruct (clients st !! c) as [client|]; [|done].
  destruct (match or_undefined sid with Some s => Some s | None => sessionId client end)
    as [s|]; [|done].
  cbn [fst]. eapply populated_same; [apply sendToClient_sessionClients|].
  eapply populated_same; [|apply (populated_removeClientFromSession c s st H)]. done.
Qed.

Lemma populated_handleDisconnection (c : string) (st : t) :
  Invariant.populated st -> Invariant.populated (handleDisconnection c st).1.
Proof.
  intros H. unfold handleDisconnection.
  destruct (clients st !! c) as [client|]; [|done]. cbn [fst].
  destruct (sessionId client) as [s|]; [|done].
  eapply populated_same; [|apply (populated_removeClientFromSession c s st H)]. done.
Qed.

Lemma sendToClient_spec (x : string) (m : WebSocketMessage.t) (st : t) :
  sendToClient x m st
  = if Invariant.can_send x st
    then ({| clients := clients st; sessionClients := sessionClients st;
             authService := authService st; wire := wire st ++ [(x, m)] |}, true)
    else (st, false).
Proof.
  unfold sendToClient, Invariant.can_send.
  destruct (clients st !! x) as [cl|]; [|done]. by destruct (open cl).
Qed.

(** The loop of [broadcastToSession]. *)
Lemma broadcast_loop (m : SessionMessage.t) (members : list string) :
  forall (st : t) (n : nat),
    let r := foldl (fun (acc : t * nat) clientId =>
                      let '(st', ok) :=
                        sendToClient clientId (WebSocketMessage.session_message m) acc.1 in
                      (st', if ok then S acc.2 else acc.2))
                   (st, n) members in
    let reached := filter (fun c => Invariant.can_send c st = true) members in
    r.2 = (n + length reached)%nat
    /\ wire r.1 = wire st ++ map (fun c => (c, WebSocketMessage.session_message m)) reached
    /\ clients r.1 = clients st /\ sessionClients r.1 = sessionClients st.
Proof.
  induction members as [|x members IH]; intros st n.
  - cbn. rewrite app_nil_r. repeat split; try done; lia.
  - cbn [foldl]. cbn [fst snd]. cbn zeta.
    rewrite sendToClient_spec.
    destruct (Invariant.can_send x st) eqn:Hx.
    + specialize (IH {| clients := clients st; sessionClients := sessionClients st;
                        authService := authService st;
                        wire := wire st ++ [(x, WebSocketMessage.session_message m)] |} (S n)).
      cbn zeta in IH. unfold Invariant.can_send in IH, Hx |- *. cbn [clients] in IH.
      destruct IH as (Hn & Hw & Hc & Hs).
      rewrite filter_cons_True by done.
      rewrite Hn, Hw, Hc, Hs. cbn [wire clients sessionClients length map].
      split; [lia|]. split; [by rewrite <- app_assoc|done].
    + specialize (IH st n). cbn zeta in IH. destruct IH as (Hn & Hw & Hc & Hs).
      rewrite filter_cons_False by (rewrite Hx; done).
      by rewrite Hn, Hw, Hc, Hs.
Qed.

Lemma populated_broadcastToSession (s : string) (m : SessionMessage.t) (st : t) :
  Invariant.populated st -> Invariant.populated (broadcastToSession s m st).1.
Proof.
  intros H. unfold broadcastToSession.
  destruct (sessionClients st !! s) as [members|]; [|done].
  destruct (broadcast_loop m members st 0%nat) as (_ & _ & _ & Hs).
  eapply populated_same; [exact Hs|done].
Qed.

Lemma populated_step (now : Z) (o : WebSocketRun.op) (st : t) :
  Invariant.populated st -> Invariant.populated (WebSocketRun.step now o st).
Proof.
  destruct o; cbn [WebSocketRun.step];
    eauto using populated_handleConnection, populated_handleAuthentication,
      populated_handleSubscription, populated_handleUnsubscription,
      populated_handleDisconnection, populated_broadcastToSession.
  intros H. eapply populated_same; [apply sendToClient_sessionClients|done].
Qed.

Lemma populated_run (ops : list (Z * WebSocketRun.op)) :
  forall st, Invariant.populated st -> Invariant.populated (WebSocketRun.run ops st).
Proof.
  induction ops as [|[now o] ops IH]; intros st H; [done|].
  cbn [WebSocketRun.run]. by apply IH, populated_step.
Qed.

(** *** A client that is gone *)

Lemma received_same_wire (c : string) (st st' : t) :
  wire st' = wire st -> received c st' = received c st.
Proof. intros H. unfold received. by rewrite H. Qed.

Lemma quiet_trans (c : string) (st st1 st2 : t) :
  Invariant.quiet c st st1 -> (clients st1 !! c = None -> Invariant.quiet c st1 st2) -> Invariant.quiet c st st2.
Proof. intros [H1 H2] H. destruct (H H1) as [H3 H4]. split; [done|congruence]. Qed.

Lemma quiet_frame (c : string) (st st' : t) :
  clients st' = clients st -> wire st' = wire st ->
  clients st !! c = None -> Invariant.quiet c st st'.
Proof. intros Hc Hw H. split; [by rewrite Hc|by apply received_same_wire]. Qed.

Lemma quiet_alter (c x : string) (f : WebSocketClient -> WebSocketClient) (st : t) :
  clients st !! c = None -> Invariant.quiet c st (with_clients (alter f x (clients st)) st).
Proof. intros H. split; [by apply lookup_alter_None|done]. Qed.

Lemma quiet_sendToClient (c x : string) (m : WebSocketMessage.t) (st : t) :
  clients st !! c = None -> Invariant.quiet c st (sendToClient x m st).1.
Proof.
  intros H. split; [by rewrite sendToClient_clients|].
  rewrite sendToClient_received.
  destruct (decide (x = c)) as [->|Hne].
  - unfold Invariant.can_send. rewrite H. by rewrite andb_false_r, app_nil_r.
  - rewrite bool_decide_eq_false_2 by done. apply app_nil_r.
Qed.

Lemma quiet_removeClientFromSession (c x s : string) (st : t) :
  clients st !! c = None -> Invariant.quiet c st (removeClientFromSession x s st).
Proof.
  apply quiet_frame; [apply removeClientFromSession_clients|apply removeClientFromSession_wire].
Qed.

Lemma quiet_validateApiKey (c : string) (now : Z) (key : option string) (st : t) :
  clients st !! c = None -> Invariant.quiet c st (validateApiKey now key st).1.
Proof.
  destruct (validateApiKey_clients now key st) as (Hc & _ & Hw). by apply quiet_frame.
Qed.

Lemma quiet_evict (c s newViewer by_ x : string) (st : t) (evs : list event) :
  clients st !! c = None -> Invariant.quiet c st (evict s newViewer by_ (st, evs) x).1.
Proof.
  intros H. unfold evict. destruct (clients st !! x) as [existing|]; [|done].
  eapply quiet_trans; [by apply quiet_sendToClient|]. intros H1.
  eapply quiet_trans; [by apply quiet_removeClientFromSession|]. intros H2.
  destruct (bool_decide (sessionId existing = Some s)); cbn [fst]; [|done].
  by apply quiet_alter.
Qed.

Lemma quiet_evict_loop (c s newViewer by_ : string) (members : list string) :
  forall (st : t) (evs : list event),
    clients st !! c = None ->
    Invariant.quiet c st (foldl (evict s newViewer by_) (st, evs) members).1.
Proof.
  induction members as [|x members IH]; intros st evs H; [done|].
  cbn [foldl]. pose proof (quiet_evict c s newViewer by_ x st evs H) as H1.
  destruct (evict s newViewer by_ (st, evs) x) as [st1 evs1]. cbn [fst] in H1.
  eapply quiet_trans; [exact H1|]. apply IH.
Qed.

Lemma quiet_handleConnection (c : string) (now : Z) (x : string) (sid key : option string)
    (st : t) :
  x <> c -> clients st !! c = None -> Invariant.quiet c st (handleConnection now x sid key st).1.
Proof.
  intros Hne H. unfold handleConnection. cbn [fst].
  set (client := {| id := x; open := true; sessionId := or_undefined sid; lastPing := now;
                    authenticated := false; apiKey := or_undefined key; deviceId := None |}).
  set (st1 := with_clients (<[x:=client]> (clients st)) st).
  assert (Invariant.quiet c st st1) as H1.
  { split; [|done]. unfold st1. simpl. by rewrite lookup_insert_ne. }
  eapply quiet_trans; [|apply quiet_sendToClient].
  eapply quiet_trans; [exact H1|]. intros H1'.
  destruct (or_undefined sid) as [s|]; [|done].
  unfold isAuthenticated. destruct (apiKey client) as [k|]; [|done].
  pose proof (quiet_validateApiKey c now (Some k) st1 H1') as H2.
  destruct (validateApiKey now (Some k) st1) as [st' ok]. cbn [fst] in H2.
  destruct ok; [|done]. destruct H2 as [H2 H3]. done.
Qed.

Lemma quiet_handleAuthentication (c : string) (now : Z) (x : string) (key : option string)
    (st : t) :
  clients st !! c = None -> Invariant.quiet c st (handleAuthentication now x key st).1.
Proof.
  intros H. unfold handleAuthentication. destruct (clients st !! x); [|done].
  pose proof (quiet_validateApiKey c now key st H) as H1.
  destruct (validateApiKey now key st) as [st1 ok]. cbn [fst] in H1.
  eapply quiet_trans; [exact H1|]. intros H1'.
  destruct ok; cbn [fst]; [|by apply quiet_sendToClient].
  eapply quiet_trans; [by apply quiet_alter|]. apply quiet_sendToClient.
Qed.

Lemma quiet_handleSubscription (c x : string) (sid : option string) (force : bool) (st : t) :
  clients st !! c = None -> Invariant.quiet c st (handleSubscription x sid force st).1.
Proof.
  intros H. unfold handleSubscription, sendError.
  destruct (clients st !! x) as [client|]; cbn [fst]; [|by apply quiet_sendToClient].
  destruct (authenticated client); cbn [negb fst]; [|by apply quiet_sendToClient].
  destruct (or_undefined sid) as [s|]; cbn [fst]; [|by apply quiet_sendToClient].
  assert (forall st1 b,
             clients st1 !! c = None ->
             Invariant.quiet c st1
               (sendToClient x (WebSocketMessage.subscribed s b)
                  (with_clients
                     (alter (set_sessionId (Some s)) x (clients (addClientToSession x s st1)))
                     (addClientToSession x s st1))).1) as Hsub.
  { intros st1 b H1.
    eapply quiet_trans; [|apply quiet_sendToClient].
    split; [|done]. simpl. by apply lookup_alter_None. }
  destruct (sessionClients st !! s) as [[|first others]|]; cbn [fst].
  - by apply Hsub.
  - destruct force; cbn [negb fst]; [|by apply quiet_sendToClient].
    pose proof (quiet_evict_loop c s (default "Another device" (apiKey client)) x
                  (first :: others) st [] H) as H1.
    destruct (foldl _ _ _) as [st1 evs1]. cbn [fst] in *.
    eapply quiet_trans; [exact H1|]. apply Hsub.
  - by apply Hsub.
Qed.

Lemma quiet_handleUnsubscription (c x : string) (sid : option string) (st : t) :
  clients st !! c = None -> Invariant.quiet c st (handleUnsubscription x sid st).1.
Proof.
  intros H. unfold handleUnsubscription.
  destruct (clients st !! x) as [client|]; [|done].
  destruct (match or_undefined sid with Some s => Some s | None => sessionId client end)
    as [s|]; [|done].
  cbn [fst]. eapply quiet_trans; [|apply quiet_sendToClient].
  eapply quiet_trans; [by apply (quiet_removeClientFromSession c x s)|]. apply quiet_alter.
Qed.

Lemma handleDisconnection_gone (c x : string) (st : t) :
  x = c \/ clients st !! c = None -> Invariant.quiet c st (handleDisconnection x st).1.
Proof.
  intros H. unfold handleDisconnection.
  destruct (clients st !! x) as [client|] eqn:Hx.
  - cbn [fst]. split.
    + simpl. apply lookup_delete_None.
      destruct H as [->|H]; [by left|right].
      by destruct (sessionId client); rewrite ?removeClientFromSession_clients.
    + apply received_same_wire. simpl.
      by destruct (sessionId client); rewrite ?removeClientFromSession_wire.
  - cbn [fst]. split; [|done]. destruct H as [->|H]; done.
Qed.

Lemma filter_fst_pairs (c : string) (m : WebSocketMessage.t) (l : list string) :
  c ∉ l -> filter (fun e : string * WebSocketMessage.t => e.1 = c) (map (fun x => (x, m)) l) = [].
Proof.
  induction l as [|x l IH]; intros Hnin; [done|].
  cbn [map]. rewrite filter_cons_False.
  - apply IH. intros Hin. apply Hnin. by apply list_elem_of_further.
  - cbn. intros ->. apply Hnin. apply list_elem_of_here.
Qed.

Lemma quiet_broadcastToSession (c s : string) (m : SessionMessage.t) (st : t) :
  clients st !! c = None -> Invariant.quiet c st (broadcastToSession s m st).1.
Proof.
  intros H. unfold broadcastToSession.
  destruct (sessionClients st !! s) as [members|]; [|done].
  destruct (broadcast_loop m members st 0%nat) as (_ & Hw & Hc & _).
  split; [by rewrite Hc|].
  rewrite (received_wire_app c st _ _ Hw), filter_fst_pairs; [apply app_nil_r|].
  intros [Hcan _]%list_elem_of_filter. unfold Invariant.can_send in Hcan.
  by rewrite H in Hcan.
Qed.

Lemma quiet_step (c : string) (now : Z) (o : WebSocketRun.op) (st : t) :
  WebSocketRun.accepts c o = false ->
  clients st !! c = None -> Invariant.quiet c st (WebSocketRun.step now o st).
Proof.
  intros Hacc H. destruct o; cbn [WebSocketRun.step].
  - apply quiet_handleConnection; [|done].
    cbn in Hacc. by apply bool_decide_eq_false in Hacc.
  - by apply quiet_handleAuthentication.
  - by apply quiet_handleSubscription.
  - by apply quiet_handleUnsubscription.
  - by apply quiet_sendToClient.
  - apply handleDisconnection_gone. by right.
  - by apply quiet_broadcastToSession.
Qed.

Lemma quiet_run (c : string) (ops : list (Z * WebSocketRun.op)) :
  Forall (fun e => WebSocketRun.accepts c e.2 = false) ops ->
  forall st, clients st !! c = None -> Invariant.quiet c st (WebSocketRun.run ops st).
Proof.
  induction 1 as [|[now o] ops Hacc _ IH]; intros st H; [done|].
  cbn [WebSocketRun.run]. eapply quiet_trans; [by apply quiet_step|]. apply IH.
Qed.

End ServerLifecycle.

(** X13. Whatever sockets connect, send and close, and whatever is broadcast,
    the server never lists a session with an empty set of subscribers and
    never lists a client twice in a set: a session that loses its last
    subscriber is removed from [sessionClients], so the number of its
    entries is the number of sessions that have a subscriber. *)
Theorem sessions_listed_have_subscribers :
  forall (auth : option AuthenticationService.state) (ops : list (Z * WebSocketRun.op))
         (s : string),
    let st := WebSocketRun.run ops (WebSocketServer.create auth) in
    NoDup (WebSocketServer.getSessionClients s st)
    /\ (WebSocketServer.getSessionClients s st = []
        <-> WebSocketServer.sessionClients st !! s = None).
Proof.
  intros auth ops s. cbn zeta.
  assert (Invariant.populated (WebSocketRun.run ops (WebSocketServer.create auth))) as H.
  { apply populated_run. intros s' ms. cbn. by rewrite lookup_empty. }
  unfold WebSocketServer.getSessionClients.
  destruct (WebSocketServer.sessionClients _ !! s) as [members|] eqn:Hs; cbn.
  - destruct (H s members Hs) as [Hne Hnd]. split; [done|]. split; [done|discriminate].
  - split; [constructor|done].
Qed.

(** X14. [broadcastToSession] writes the message once to each subscriber of
    the session whose socket is open, in the order of the set, and to
    nobody else; the count it returns is the number of those subscribers.
    A session without subscribers gives 0 and nothing is written. *)
Theorem broadcastToSession_reaches_open_subscribers :
  forall (s : string) (m : SessionMessage.t) (st : WebSocketServer.t),
    let reached :=
      filter (fun c => Invariant.can_send c st = true)
             (WebSocketServer.getSessionClients s st) in
    (WebSocketServer.broadcastToSession s m st).2 = length reached
    /\ WebSocketServer.wire (WebSocketServer.broadcastToSession s m st).1
       = WebSocketServer.wire st
         ++ map (fun c => (c, WebSocketMessage.session_message m)) reached
    /\ WebSocketServer.clients (WebSocketServer.broadcastToSession s m st).1
       = WebSocketServer.clients st
    /\ WebSocketServer.sessionClients (WebSocketServer.broadcastToSession s m st).1
       = WebSocketServer.sessionClients st.
Proof.
  intros s m st. cbn zeta.
  unfold WebSocketServer.broadcastToSession, WebSocketServer.getSessionClients.
  destruct (WebSocketServer.sessionClients st !! s) as [members|]; cbn [default from_option id].
  - apply (broadcast_loop m members st 0%nat).
  - cbn. by rewrite app_nil_r.
Qed.

(** X15. Once a socket has closed, its client is sent nothing more: whatever
    the other sockets do and whatever is broadcast, also to a session
    whose set still lists the client, the messages the client received
    stay what they were when it closed, as long as no new socket is given
    its id. *)
Theorem closed_client_receives_nothing :
  forall (c : string) (ops : list (Z * WebSocketRun.op)) (st : WebSocketServer.t),
    Forall (fun e => WebSocketRun.accepts c e.2 = false) ops ->
    let st0 := (WebSocketServer.handleDisconnection c st).1 in
    WebSocketServer.clients (WebSocketRun.run ops st0) !! c = None
    /\ WebSocketServer.received c (WebSocketRun.run ops st0) = WebSocketServer.received c st.
Proof.
  intros c ops st Hops. cbn zeta.
  destruct (handleDisconnection_gone c c st) as [H0 H1]; [by left|].
  destruct (quiet_run c ops Hops _ H0) as [H2 H3].
  split; [done|congruence].
Qed.

Lemma closed_client_receives_nothing_sample :
  WebSocketServer.received "A"
    (WebSocketRun.run
       [(5000, WebSocketRun.subscribe "A" (Some "S2") false);
        (5500, WebSocketRun.rejected "A" "Invalid JSON message");
        (6000, WebSocketRun.deliver "S1"
                 {| SessionMessage.timestamp := SessionMessage.clock 6000;
                    SessionMessage.sessionId := JStr "S1";
                    SessionMessage.payload :=
                      SessionMessage.state idle (SessionMessage.clock 6000) |});
        (7000, WebSocketRun.subscribe "B" (Some "S1") true)]
       (WebSocketServer.handleDisconnection "A"
          (WebSocketServer.handleSubscription "A" (Some "S2") false Sample.ws_AB).1).1)
  = WebSocketServer.received "A"
      (WebSocketServer.handleSubscription "A" (Some "S2") false Sample.ws_AB).1.
Proof.
  apply (closed_client_receives_nothing "A"). repeat constructor.
Defined.

Section Subscription.

Import WebSocketServer.

Lemma removeClientFromSession_other (x s s' : string) (st : t) :
  s' <> s ->
  sessionClients (removeClientFromSession x s st) !! s' = sessionClients st !! s'.
Proof.
  intros Hne. unfold removeClientFromSession.
  destruct (sessionClients st !! s) as [ms|]; [|done].
  destruct (JsSet.delete x ms); simpl.
  - by rewrite lookup_delete_ne.
  - by rewrite lookup_insert_ne.
Qed.

Lemma evict_frame (s newViewer by_ x : string) (st : t) (evs : list event) :
  (forall s', s' <> s ->
     sessionClients (evict s newViewer by_ (st, evs) x).1 !! s' = sessionClients st !! s')
  /\ (forall y, is_Some (clients st !! y) ->
        is_Some (clients (evict s newViewer by_ (st, evs) x).1 !! y)).
Proof.
  unfold evict. destruct (clients st !! x) as [existing|]; [|done].
  set (st1 := (sendToClient x _ st).1).
  assert (forall s', s' <> s ->
            sessionClients (removeClientFromSession x s st1) !! s' = sessionClients st !! s')
    as Hs.
  { intros s' Hne. rewrite removeClientFromSession_other by done.
    unfold st1. by rewrite sendToClient_sessionClients. }
  assert (clients (removeClientFromSession x s st1) = clients st) as Hc.
  { rewrite removeClientFromSession_clients. unfold st1. apply sendToClient_clients. }
  destruct (bool_decide (sessionId existing = Some s)); cbn [fst].
  - split; [exact Hs|]. intros y Hy. simpl. rewrite Hc.
    destruct (decide (x = y)) as [->|Hne].
    + rewrite lookup_alter_eq. by apply fmap_is_Some.
    + by rewrite lookup_alter_ne.
  - split; [exact Hs|]. intros y Hy. by rewrite Hc.
Qed.

Lemma evict_loop_frame (s newViewer by_ : string) (members : list string) :
  forall (st : t) (evs : list event),
    (forall s', s' <> s ->
       sessionClients (foldl (evict s newViewer by_) (st, evs) members).1 !! s'
       = sessionClients st !! s')
    /\ (forall y, is_Some (clients st !! y) ->
          is_Some (clients (foldl (evict s newViewer by_) (st, evs) members).1 !! y)).
Proof.
  induction members as [|x members IH]; intros st evs; [done|].
  cbn [foldl]. destruct (evict_frame s newViewer by_ x st evs) as [Hs Hc].
  destruct (evict s newViewer by_ (st, evs) x) as [st1 evs1]. cbn [fst] in *.
  destruct (IH st1 evs1) as [Hs' Hc']. split.
  - intros s' Hne. rewrite Hs' by done. by apply Hs.
  - intros y Hy. by apply Hc', Hc.
Qed.

Lemma JsSet_add_elem (c : string) (ms : list string) : c ∈ JsSet.add c ms.
Proof.
  unfold JsSet.add, JsSet.has. case_bool_decide as Hin; [done|].
  apply elem_of_app. right. by apply list_elem_of_singleton.
Qed.

(** The last part of [handleSubscription]: the client is added to the
    set of [s] and told so. *)
Lemma subscribe_tail (c s : string) (b : option bool) (force : bool) (st0 st1 : t)
    (evs : list event) :
  (forall s', s' <> s -> sessionClients st1 !! s' = sessionClients st0 !! s') ->
  is_Some (clients st1 !! c) ->
  let st3 := with_clients
               (alter (set_sessionId (Some s)) c (clients (addClientToSession c s st1)))
               (addClientToSession c s st1) in
  let r := ((sendToClient c (WebSocketMessage.subscribed s b) st3).1,
            evs ++ [clientSubscribed c s force]) in
  c ∈ getSessionClients s r.1
  /\ sessionId <$> clients r.1 !! c = Some (Some s)
  /\ (forall s', s' <> s -> sessionClients r.1 !! s' = sessionClients st0 !! s')
  /\ last r.2 = Some (clientSubscribed c s force).
Proof.
  intros Hs [cl Hc]. cbn zeta. cbn [fst snd].
  rewrite sendToClient_clients, sendToClient_sessionClients.
  unfold getSessionClients. rewrite sendToClient_sessionClients. simpl.
  rewrite lookup_insert_eq, lookup_alter_eq, Hc. simpl.
  split; [apply JsSet_add_elem|]. split; [done|]. split; [|apply last_snoc].
  intros s' Hne. rewrite lookup_insert_ne by done. by apply Hs.
Qed.

End Subscription.

(** X16. What [handleSubscription] does, case by case.  Either it refuses:
    nothing is emitted, and neither the subscribers nor the clients
    change.  Or the client is a connected, authenticated client that named
    a session which is free or which it takes over by force: the client is
    then a subscriber of that session and carries its id, the subscribers
    of every other session are untouched, and [clientSubscribed] is the
    last event emitted.  A client that is not authenticated is never
    subscribed. *)
Theorem handleSubscription_outcome :
  forall (c : string) (sid : option string) (force : bool) (st : WebSocketServer.t),
    let r := WebSocketServer.handleSubscription c sid force st in
    (r.2 = []
     /\ WebSocketServer.sessionClients r.1 = WebSocketServer.sessionClients st
     /\ WebSocketServer.clients r.1 = WebSocketServer.clients st)
    \/ (exists s client,
          WebSocketServer.or_undefined sid = Some s
          /\ WebSocketServer.clients st !! c = Some client
          /\ WebSocketServer.authenticated client = true
          /\ (force = true \/ WebSocketServer.getSessionClients s st = [])
          /\ c ∈ WebSocketServer.getSessionClients s r.1
          /\ WebSocketServer.sessionId <$> WebSocketServer.clients r.1 !! c = Some (Some s)
          /\ (forall s', s' <> s ->
                WebSocketServer.sessionClients r.1 !! s'
                = WebSocketServer.sessionClients st !! s')
          /\ last r.2 = Some (WebSocketServer.clientSubscribed c s force)).
Proof.
  intros c sid force st. cbn zeta.
  unfold WebSocketServer.handleSubscription, WebSocketServer.sendError.
  destruct (WebSocketServer.clients st !! c) as [client|] eqn:Hc; cbn [fst snd].
  2:{ left. by rewrite sendToClient_sessionClients, sendToClient_clients. }
  destruct (WebSocketServer.authenticated client) eqn:Hauth; cbn [negb fst snd].
  2:{ left. by rewrite sendToClient_sessionClients, sendToClient_clients. }
  destruct (WebSocketServer.or_undefined sid) as [s|]; cbn [fst snd].
  2:{ left. by rewrite sendToClient_sessionClients, sendToClient_clients. }
  destruct (WebSocketServer.sessionClients st !! s) as [[|first others]|] eqn:Hs;
    cbn [default from_option id].
  - right. exists s, client. do 3 (split; [done|]).
    split; [right; unfold WebSocketServer.getSessionClients; by rewrite Hs|].
    apply (subscribe_tail c s _ force st st []); [done|by eexists].
  - destruct force; cbn [negb].
    + right. exists s, client. do 3 (split; [done|]). split; [by left|].
      destruct (evict_loop_frame s
                  (default "Another device" (WebSocketServer.apiKey client)) c
                  (first :: others) st []) as [Hframe Hcl].
      destruct (foldl _ _ _) as [st1 evs1]. cbn [fst] in *.
      apply (subscribe_tail c s _ true st st1 evs1); [done|]. apply Hcl. by eexists.
    + left. cbn [fst snd]. by rewrite sendToClient_sessionClients, sendToClient_clients.
  - right. exists s, client. do 3 (split; [done|]).
    split; [right; unfold WebSocketServer.getSessionClients; by rewrite Hs|].
    apply (subscribe_tail c s _ force st st []); [done|by eexists].
Qed.

(** X17. A client that subscribes to a free session and then
    unsubscribes, naming the session or not, leaves the server and the
    manager as they were: in between the session lists exactly this
    client, and the manager tracks it with this client when its limit
    admits one; afterwards the subscribers of every session and the
    sessions the manager tracks are what they were before, and the client
    carries no session.  The messages sent on the way are not part of the
    statement. *)
Theorem subscribe_unsubscribe_round_trip :
  forall (now : Z) (c s : string) (force : bool) (payload : option string)
         (ws : WebSocketServer.t) (cm : ConnectionManager.state)
         (client : WebSocketServer.WebSocketClient),
    WebSocketServer.clients ws !! c = Some client ->
    WebSocketServer.authenticated client = true ->
    s <> EmptyString ->
    WebSocketServer.sessionClients ws !! s = None ->
    ConnectionManager.activeSessions cm !! s = None ->
    payload = None \/ payload = Some s ->
    let sys1 := Wired.subscribe now c (Some s) force (ws, cm) in
    let sys2 := Wired.unsubscribe c payload sys1 in
    WebSocketServer.sessionClients sys1.1 !! s = Some [c]
    /\ ((1 <= ConnectionManager.maxClientsPerSession cm)%nat ->
        ConnectionManager.clients <$> ConnectionManager.activeSessions sys1.2 !! s
        = Some [c])
    /\ WebSocketServer.sessionClients sys2.1 = WebSocketServer.sessionClients ws
    /\ ConnectionManager.activeSessions sys2.2 = ConnectionManager.activeSessions cm
    /\ WebSocketServer.clients sys2.1 !! c
       = Some (WebSocketServer.set_sessionId None client).
Proof.
  intros now c s force payload ws cm client Hc Hauth Hs Hfree Huntracked Hpayload.
  cbn zeta.
  set (st3 := WebSocketServer.with_clients
                (alter (WebSocketServer.set_sessionId (Some s)) c
                   (WebSocketServer.clients (WebSocketServer.addClientToSession c s ws)))
                (WebSocketServer.addClientToSession c s ws)).
  assert (exists b,
             WebSocketServer.handleSubscription c (Some s) force ws
             = ((WebSocketServer.sendToClient c (WebSocketMessage.subscribed s b) st3).1,
                [WebSocketServer.clientSubscribed c s force])) as [b Hsub].
  { unfold WebSocketServer.handleSubscription.
    rewrite Hc, Hauth. cbn [negb WebSocketServer.or_undefined].
    rewrite bool_decide_eq_false_2 by done. rewrite Hfree. by eexists. }
  assert (WebSocketServer.clients st3 !! c
          = Some (WebSocketServer.set_sessionId (Some s) client)) as Hc3.
  { unfold st3. simpl. by rewrite lookup_alter_eq, Hc. }
  assert (WebSocketServer.sessionClients st3
          = <[s := [c]]> (WebSocketServer.sessionClients ws)) as Hs3.
  { unfold st3, WebSocketServer.addClientToSession. simpl. by rewrite Hfree. }
  set (st1 := (WebSocketServer.sendToClient c (WebSocketMessage.subscribed s b) st3).1)
    in *.
  assert (WebSocketServer.clients st1 = WebSocketServer.clients st3) as Hc1
    by apply sendToClient_clients.
  assert (WebSocketServer.sessionClients st1 = WebSocketServer.sessionClients st3) as Hs1
    by apply sendToClient_sessionClients.
  unfold Wired.subscribe. cbn [fst snd]. rewrite Hsub. cbn [foldl].
  (* the listener of the manager *)
  set (heard := ConnectionManager.handleClientSubscribed now c s (st1, cm)).
  assert (WebSocketServer.clients heard.1 = WebSocketServer.clients st1
          /\ WebSocketServer.sessionClients heard.1 = WebSocketServer.sessionClients st1
          /\ ((1 <= ConnectionManager.maxClientsPerSession cm)%nat ->
              ConnectionManager.clients <$> ConnectionManager.activeSessions heard.2 !! s
              = Some [c])
          /\ (ConnectionManager.activeSessions heard.2 = ConnectionManager.activeSessions cm
              \/ exists t,
                   ConnectionManager.activeSessions heard.2
                   = <[s := {| ConnectionManager.lastActivity := t;
                               ConnectionManager.clients := [c] |}]>
                       (ConnectionManager.activeSessions cm)))
    as (Hcw & Hsw & Htracked & Hcm1).
  { unfold heard, ConnectionManager.handleClientSubscribed,
      WebSocketServer.getSessionClients, ConnectionManager.sendSessionHistory.
    rewrite Hs1, Hs3, lookup_insert_eq. cbn [default from_option id length].
    destruct (ConnectionManager.maxClientsPerSession cm <? 1)%nat eqn:Hmax; cbn [fst snd].
    - rewrite sendToClient_clients, sendToClient_sessionClients.
      split; [done|]. split; [by rewrite Hs1, Hs3|].
      split; [|by left]. apply Nat.ltb_lt in Hmax. lia.
    - rewrite sendToClient_clients, sendToClient_sessionClients.
      split; [done|]. split; [by rewrite Hs1, Hs3|].
      rewrite Huntracked. cbn. split.
      + intros _. by rewrite lookup_insert_eq.
      + right. by eexists. }
  clearbody heard. destruct heard as [ws1 cm1]. cbn [fst snd] in *.
  split; [by rewrite Hsw, Hs1, Hs3, lookup_insert_eq|]. split; [exact Htracked|].
  (* the unsubscription *)
  unfold Wired.unsubscribe. cbn [fst snd].
  unfold WebSocketServer.handleUnsubscription. rewrite Hcw, Hc1, Hc3.
  assert (match WebSocketServer.or_undefined payload with
          | Some s0 => Some s0
          | None => WebSocketServer.sessionId (WebSocketServer.set_sessionId (Some s) client)
          end = Some s) as ->.
  { destruct Hpayload as [-> | ->]; [done|].
    cbn [WebSocketServer.or_undefined]. by rewrite bool_decide_eq_false_2. }
  cbn [foldl fst snd].
  set (st4 := WebSocketServer.removeClientFromSession c s ws1).
  assert (WebSocketServer.sessionClients st4 = WebSocketServer.sessionClients ws) as Hs4.
  { unfold st4, WebSocketServer.removeClientFromSession.
    rewrite Hsw, Hs1, Hs3, lookup_insert_eq, JsSet_delete_singleton. simpl.
    rewrite ?Hsw, ?Hs1, ?Hs3. by apply delete_insert_id. }
  assert (WebSocketServer.clients st4 = WebSocketServer.clients st3) as Hc4.
  { unfold st4. by rewrite removeClientFromSession_clients, Hcw. }
  set (st5 := WebSocketServer.with_clients _ st4).
  assert (WebSocketServer.clients st5 !! c
          = Some (WebSocketServer.set_sessionId None client)) as Hc5.
  { unfold st5. simpl. by rewrite lookup_alter_eq, Hc4, Hc3. }
  unfold ConnectionManager.handleClientUnsubscribed.
  assert (ConnectionManager.activeSessions
            (match ConnectionManager.activeSessions cm1 !! s with
             | Some session =>
                 match JsSet.delete c (ConnectionManager.clients session) with
                 | [] =>
                     ((WebSocketServer.sendToClient c (WebSocketMessage.unsubscribed s) st5).1,
                      ConnectionManager.with_activeSessions
                        (delete s (ConnectionManager.activeSessions cm1)) cm1)
                 | c0 :: rest =>
                     ((WebSocketServer.sendToClient c (WebSocketMessage.unsubscribed s) st5).1,
                      ConnectionManager.with_activeSessions
                        (<[s := {| ConnectionManager.lastActivity :=
                                     ConnectionManager.lastActivity session;
                                   ConnectionManager.clients := c0 :: rest |}]>
                           (ConnectionManager.activeSessions cm1)) cm1)
                 end
             | None =>
                 ((WebSocketServer.sendToClient c (WebSocketMessage.unsubscribed s) st5).1,
                  cm1)
             end).2
          = ConnectionManager.activeSessions cm
          /\ (match ConnectionManager.activeSessions cm1 !! s with
              | Some session =>
                  match JsSet.delete c (ConnectionManager.clients session) with
                  | [] =>
                      ((WebSocketServer.sendToClient c (WebSocketMessage.unsubscribed s)
                          st5).1,
                       ConnectionManager.with_activeSessions
                         (delete s (ConnectionManager.activeSessions cm1)) cm1)
                  | c0 :: rest =>
                      ((WebSocketServer.sendToClient c (WebSocketMessage.unsubscribed s)
                          st5).1,
                       ConnectionManager.with_activeSessions
                         (<[s := {| ConnectionManager.lastActivity :=
                                      ConnectionManager.lastActivity session;
                                    ConnectionManager.clients := c0 :: rest |}]>
                            (ConnectionManager.activeSessions cm1)) cm1)
                  end
              | None =>
                  ((WebSocketServer.sendToClient c (WebSocketMessage.unsubscribed s) st5).1,
                   cm1)
              end).1
             = (WebSocketServer.sendToClient c (WebSocketMessage.unsubscribed s) st5).1)
    as [Hcm2 Hws2].
  { destruct Hcm1 as [Hsame|[t Hins]].
    - rewrite Hsame, Huntracked. done.
    - rewrite Hins, lookup_insert_eq. cbn [ConnectionManager.clients].
      rewrite JsSet_delete_singleton. cbn. split; [|done].
      by apply delete_insert_id. }
  rewrite Hcm2, Hws2.
  rewrite sendToClient_sessionClients, sendToClient_clients. done.
Qed.

Lemma subscribe_unsubscribe_round_trip_sample :
  WebSocketServer.sessionClients
    (Wired.subscribe 4000 "B" (Some "S2") false (Sample.ws_AB, ConnectionManager.create)).1
    !! "S2"
  = Some ["B"]
  /\ WebSocketServer.sessionClients
       (Wired.unsubscribe "B" None
          (Wired.subscribe 4000 "B" (Some "S2") false
             (Sample.ws_AB, ConnectionManager.create))).1
     = WebSocketServer.sessionClients Sample.ws_AB.
Proof.
  destruct (subscribe_unsubscribe_round_trip 4000 "B" "S2" false None Sample.ws_AB
              ConnectionManager.create
              {| WebSocketServer.id := "B"; WebSocketServer.open := true;
                 WebSocketServer.sessionId := None; WebSocketServer.lastPing := 3000;
                 WebSocketServer.authenticated := true;
                 WebSocketServer.apiKey := Some "K1"; WebSocketServer.deviceId := None |})
    as (H1 & _ & H2 & _); [vm_compute; reflexivity|reflexivity|discriminate|
                           vm_compute; reflexivity|reflexivity|by left|].
  split; [exact H1|exact H2].
Defined.

(** [handleAuthentication_sets_key] and [handleSubscription_exclusive] on
    the sample server. *)
Lemma handleAuthentication_sets_key_sample :
  exists K client,
    Some "K1" = Some K /\
    WebSocketServer.clients
      (WebSocketServer.handleAuthentication 2100 "A" (Some "K1")
         (WebSocketServer.handleConnection 2000 "A" None None Sample.ws0).1).1 !! "A"
    = Some client /\
    WebSocketServer.authenticated client = true /\
    WebSocketServer.apiKey client = Some K.
Proof.
  apply (handleAuthentication_sets_key 2100 "A" (Some "K1")).
  vm_compute. reflexivity.
Defined.

Lemma exclusive_ws_AB : Invariant.exclusive Sample.ws_AB /\ Invariant.connected_members Sample.ws_AB.
Proof.
  assert (WebSocketServer.sessionClients Sample.ws_AB = {["S1" := ["A"]]}) as Hmap
    by (vm_compute; reflexivity).
  split.
  - intros s ms. rewrite Hmap. intros [_ <-]%lookup_singleton_Some. simpl. lia.
  - intros s ms m. rewrite Hmap. intros [_ <-]%lookup_singleton_Some.
    intros ->%list_elem_of_singleton. vm_compute. eauto.
Qed.

Lemma handleSubscription_exclusive_sample :
  (length (WebSocketServer.getSessionClients "S1"
             (WebSocketServer.handleSubscription "B" (Some "S1") true Sample.ws_AB).1)
   <= 1)%nat.
Proof.
  destruct exclusive_ws_AB as [Hex Hconn].
  apply (handleSubscription_exclusive "B" (Some "S1") true Sample.ws_AB Hex Hconn "S1").
  vm_compute. reflexivity.
Defined.

(** ** The sessions the manager tracks *)

Section TrackedSessions.

Import ConnectionManager.

Lemma tracked_insert (s : string) (session : Session) (cm : state) :
  clients session <> [] ->
  Invariant.tracked_nonempty cm ->
  Invariant.tracked_nonempty (with_activeSessions (<[s := session]> (activeSessions cm)) cm).
Proof.
  intros Hne H s' session'. simpl. destruct (decide (s' = s)) as [->|Hs].
  - rewrite lookup_insert_eq. by intros [= <-].
  - rewrite lookup_insert_ne by done. apply H.
Qed.

Lemma tracked_delete (s : string) (cm : state) :
  Invariant.tracked_nonempty cm ->
  Invariant.tracked_nonempty (with_activeSessions (delete s (activeSessions cm)) cm).
Proof.
  intros H s' session'. simpl. destruct (decide (s' = s)) as [->|Hs].
  - by rewrite lookup_delete_eq.
  - rewrite lookup_delete_ne by done. apply H.
Qed.

Lemma tracked_listen (now : Z) (c : call) (sys : WebSocketServer.t * state) :
  Invariant.tracked_nonempty sys.2 -> Invariant.tracked_nonempty (listen now c sys).2.
Proof.
  destruct sys as [ws cm]. cbn [snd]. intros H.
  destruct c as [cid sid|cid sid|cid sid|m|m|sid reason last]; cbn [listen].
  - unfold handleClientSubscribed. destruct (_ <? _)%nat; cbn [snd]; [done|].
    apply tracked_insert; [|done]. cbn [clients].
    unfold JsSet.add. destruct (JsSet.has cid _) eqn:Hhas.
    + intros Hnil. rewrite Hnil in Hhas. unfold JsSet.has in Hhas.
      apply bool_decide_eq_true in Hhas. by apply elem_of_nil in Hhas.
    + by destruct (clients _).
  - unfold handleClientUnsubscribed.
    destruct (activeSessions cm !! sid) as [session|]; [|done].
    destruct (JsSet.delete cid (clients session)); cbn [snd].
    + by apply tracked_delete.
    + by apply tracked_insert.
  - unfold handleClientDisconnected.
    destruct (WebSocketServer.or_undefined sid) as [s|]; [|done].
    destruct (activeSessions cm !! s) as [session|]; [|done].
    destruct (JsSet.delete cid (clients session)); cbn [snd].
    + by apply tracked_delete.
    + by apply tracked_insert.
  - unfold handleNewMessage, touch. cbn [snd].
    destruct (key_of (ClaudeCodeTypes.sessionId m)) as [s|]; [|done].
    destruct (activeSessions cm !! s) as [session|] eqn:Hs; [|done].
    apply tracked_insert; [|done]. cbn [clients]. by apply (H s).
  - done.
  - unfold handleSessionInactive. cbn [snd].
    destruct (activeSessions cm !! sid) as [session|]; [|done].
    destruct (clients session); [by apply tracked_delete|done].
Qed.

Lemma tracked_listen_all (calls : list (Z * call)) :
  forall sys, Invariant.tracked_nonempty sys.2 ->
              Invariant.tracked_nonempty (listen_all calls sys).2.
Proof.
  induction calls as [|[now c] calls IH]; intros sys H; [done|].
  cbn [listen_all]. by apply IH, tracked_listen.
Qed.

End TrackedSessions.

(** X20. Whatever the order in which its listeners are called, every session
    the manager tracks has at least one client: a session is untracked
    with its last client.  The test [session.clients.size === 0] of
    [handleSessionInactive] therefore never holds, and an inactivity
    notice leaves the tracked sessions as they are. *)
Theorem tracked_sessions_have_clients :
  forall (calls : list (Z * ConnectionManager.call)) (ws : WebSocketServer.t)
         (now : Z) (sid reason : string) (last : Z),
    let sys := ConnectionManager.listen_all calls (ws, ConnectionManager.create) in
    Invariant.tracked_nonempty sys.2
    /\ ConnectionManager.activeSessions
         (ConnectionManager.handleSessionInactive now sid reason last sys).2
       = ConnectionManager.activeSessions sys.2.
Proof.
  intros calls ws now sid reason last. cbn zeta.
  assert (Invariant.tracked_nonempty
            (ConnectionManager.listen_all calls (ws, ConnectionManager.create)).2) as H.
  { apply tracked_listen_all. intros s session. cbn. by rewrite lookup_empty. }
  split; [exact H|].
  destruct (ConnectionManager.listen_all calls (ws, ConnectionManager.create)) as [ws' cm].
  cbn [snd] in *. unfold ConnectionManager.handleSessionInactive. cbn [snd].
  destruct (ConnectionManager.activeSessions cm !! sid) as [session|] eqn:Hs; [|done].
  pose proof (H sid session Hs) as Hne.
  by destruct (ConnectionManager.clients session).
Qed.

(** ** The chunk parser *)

Section ChunkParser.

Import JSONLParser.

Variable JSON_parse : string -> option json.

Lemma string_app_assoc (a b c : string) : (a +:+ b) +:+ c = a +:+ (b +:+ c).
Proof.
  induction a as [|ch a IH]; [reflexivity|]. exact (f_equal (String ch) IH).
Qed.

Lemma string_app_nil_r (a : string) : a +:+ EmptyString = a.
Proof.
  induction a as [|ch a IH]; [reflexivity|]. exact (f_equal (String ch) IH).
Qed.

Lemma split_lf_nonempty (s : string) (acc : list ascii) : split_lf s acc <> [].
Proof.
  revert acc. induction s as [|ch s IH]; intros acc; [done|].
  cbn [split_lf]. by destruct (ascii_eqb ch LF).
Qed.

Lemma removelast_cons_nonempty {A : Type} (x : A) (l : list A) :
  l <> [] -> removelast (x :: l) = x :: removelast l.
Proof. by destruct l. Qed.

Lemma last_cons_nonempty {A : Type} (x : A) (l : list A) :
  l <> [] -> last (x :: l) = last l.
Proof. destruct l as [|y l]; [done|]. intros _. apply last_cons_cons. Qed.

(** Characters held back are fed again with the next chunk. *)
Lemma split_lf_held (l : list ascii) :
  Forall (fun ch => ascii_eqb ch LF = false) l ->
  forall (c : string) (acc : list ascii),
    split_lf (string_of_list_ascii l +:+ c) acc = split_lf c (rev l ++ acc).
Proof.
  induction 1 as [|a l Ha _ IH]; intros c acc; [reflexivity|].
  change (string_of_list_ascii (a :: l) +:+ c)
    with (String a (string_of_list_ascii l +:+ c)).
  cbn [split_lf]. rewrite Ha, IH. cbn [rev]. by rewrite <- app_assoc.
Qed.

(** [split('\n')] of a text that grows: the pieces before the last stay,
    and the last piece is continued. *)
Lemma split_lf_app (s c : string) :
  forall acc : list ascii,
    Forall (fun ch => ascii_eqb ch LF = false) acc ->
    split_lf (s +:+ c) acc
    = removelast (split_lf s acc)
      ++ split_lf (default EmptyString (last (split_lf s acc)) +:+ c) [].
Proof.
  induction s as [|ch s IH]; intros acc Hacc.
  - change (EmptyString +:+ c) with c. cbn [split_lf removelast last default app].
    unfold FileStreamMonitor.flush. cbn [from_option id].
    rewrite split_lf_held by (by apply Forall_rev).
    by rewrite rev_involutive, app_nil_r.
  - change (String ch s +:+ c) with (String ch (s +:+ c)). cbn [split_lf].
    destruct (ascii_eqb ch LF) eqn:Hch.
    + rewrite removelast_cons_nonempty by apply split_lf_nonempty.
      rewrite last_cons_nonempty by apply split_lf_nonempty.
      rewrite (IH []) by constructor. done.
    + apply IH. by constructor.
Qed.

(** What is left in the buffer holds no line feed. *)
Lemma buffer_is_one_piece (s : string) :
  split_lf (default EmptyString (last (split_lf s []))) []
  = [default EmptyString (last (split_lf s []))].
Proof.
  pose proof (split_lf_app s EmptyString [] ltac:(constructor)) as H.
  rewrite !string_app_nil_r in H.
  destruct (split_lf s []) as [|x l] eqn:Hs using rev_ind;
    [by apply split_lf_nonempty in Hs|].
  clear IHl. rewrite removelast_last, last_snoc in H. rewrite last_snoc.
  cbn [default from_option id] in *. apply app_inv_head in H. congruence.
Qed.

Lemma parseChunk_app (c d b : string) :
  let r := parseChunk JSON_parse c b in
  parseChunk JSON_parse (c +:+ d) b
  = ((parseChunk JSON_parse d r.1).1, r.2 ++ (parseChunk JSON_parse d r.1).2).
Proof.
  cbn zeta. unfold parseChunk. cbn [fst snd].
  rewrite <- string_app_assoc, (split_lf_app (b +:+ c) d []) by constructor.
  set (L := split_lf (b +:+ c) []).
  set (M := split_lf (default EmptyString (last L) +:+ d) []).
  assert (M <> []) as HM by apply split_lf_nonempty.
  rewrite removelast_app, omap_app by done. f_equal.
  rewrite last_app. destruct (last M) eqn:HlM; [done|].
  apply last_None in HlM. done.
Qed.

Lemma feed_joined (chunks : list string) :
  forall b : string,
    split_lf b [] = [b] ->
    feed JSON_parse chunks b = feed JSON_parse [Tail.joined chunks] b.
Proof.
  induction chunks as [|c chunks IH]; intros b Hb.
  - cbn [feed Tail.joined foldr]. unfold parseChunk.
    rewrite string_app_nil_r, Hb. cbn [last removelast omap default from_option id].
    by destruct (flush JSON_parse b).
  - cbn [feed Tail.joined foldr].
    change (foldr String.append EmptyString chunks) with (Tail.joined chunks).
    rewrite parseChunk_app. cbn zeta.
    assert (split_lf (parseChunk JSON_parse c b).1 [] = [(parseChunk JSON_parse c b).1])
      as Hb1 by apply buffer_is_one_piece.
    destruct (parseChunk JSON_parse c b) as [b1 ms1]. cbn [fst snd] in *.
    rewrite (IH b1 Hb1). cbn [feed].
    destruct (parseChunk JSON_parse (Tail.joined chunks) b1) as [b2 ms2]. cbn [fst snd].
    destruct (flush JSON_parse b2) as [b3 ms3]. by rewrite app_assoc.
Qed.

Lemma typeof_string_inv (o : option json) :
  typeof_string o = true -> exists s, o = Some (JStr s).
Proof. destruct o as [[]|]; try done. eauto. Qed.

Lemma parseLine_typed (line : string) (r : ClaudeCodeMessage) :
  parseLine JSON_parse line = Some r ->
  exists sid ty role content ts,
    sessionId r = JStr sid /\ type r = JStr ty /\ (ty = "user" \/ ty = "assistant")
    /\ message r = JObj [("role", JStr role); ("content", JStr content)]
    /\ timestamp r = JStr ts.
Proof.
  unfold parseLine. destruct (JSON_parse (trim line)) as [parsed|]; [|done].
  destruct (isValidClaudeCodeMessage parsed) eqn:Hvalid; [|done].
  unfold isValidClaudeCodeMessage in Hvalid.
  apply andb_prop in Hvalid as [Hvalid Hts].
  apply andb_prop in Hvalid as [Hvalid Hmsg].
  apply andb_prop in Hvalid as [Hvalid Hty].
  apply andb_prop in Hvalid as [_ Hsid].
  apply typeof_string_inv in Hsid as [sid ->].
  apply typeof_string_inv in Hts as [ts ->].
  destruct (prop parsed "type") as [ty|]; [|done].
  destruct (prop parsed "message") as [msg|]; [|done].
  apply andb_prop in Hmsg as [Hmsg Hcontent].
  apply andb_prop in Hmsg as [_ Hrole].
  apply typeof_string_inv in Hrole as [role ->].
  apply typeof_string_inv in Hcontent as [content ->].
  intros [= <-]. cbn.
  unfold is_user_or_assistant, is_string in Hty.
  destruct ty as [| | |ty| |]; try done.
  exists sid, ty, role, content, ts. repeat split; try done.
  apply orb_prop in Hty as [H|H]; apply bool_decide_eq_true in H; auto.
Qed.

End ChunkParser.

(** X21. The chunk parser puts lines together again: however a text is cut
    into chunks, feeding the chunks one after the other to a new parser
    and flushing it returns the records, and leaves the buffer, that the
    text fed as one chunk does.  A line that arrives in pieces is parsed
    once it is complete. *)
Theorem chunking_does_not_change_the_records :
  forall (JSON_parse : string -> option json) (chunks : list string),
    JSONLParser.feed JSON_parse chunks EmptyString
    = JSONLParser.feed JSON_parse [Tail.joined chunks] EmptyString.
Proof. intros JSON_parse chunks. by apply feed_joined. Qed.

(** X22. Every record the chunk parser returns, from [parseChunk] or from
    [flush], has strings for [sessionId], [timestamp], [message.role] and
    [message.content], and [user] or [assistant] for [type]; its message
    holds these two fields and no other. *)
Theorem parser_records_are_typed :
  forall (JSON_parse : string -> option json) (chunks : list string) (b : string)
         (r : ClaudeCodeMessage),
    r ∈ (JSONLParser.feed JSON_parse chunks b).2 ->
    exists sid ty role content ts,
      sessionId r = JStr sid /\ type r = JStr ty /\ (ty = "user" \/ ty = "assistant")
      /\ message r = JObj [("role", JStr role); ("content", JStr content)]
      /\ timestamp r = JStr ts.
Proof.
  intros JSON_parse chunks. induction chunks as [|c chunks IH]; intros b r.
  - cbn [JSONLParser.feed]. unfold JSONLParser.flush.
    destruct (FileStreamMonitor.blank b); [by intros ?%elem_of_nil|]. cbn [snd].
    destruct (JSONLParser.parseLine JSON_parse b) as [m|] eqn:Hm; cbn;
      [|by intros ?%elem_of_nil].
    intros ->%list_elem_of_singleton. by eapply parseLine_typed.
  - cbn [JSONLParser.feed].
    destruct (JSONLParser.parseChunk JSON_parse c b) as [b1 ms1] eqn:Hchunk.
    specialize (IH b1 r).
    destruct (JSONLParser.feed JSON_parse chunks b1) as [b2 ms2]. cbn [snd] in *.
    intros [Hin|Hin]%elem_of_app; [|by apply IH].
    unfold JSONLParser.parseChunk in Hchunk. injection Hchunk as _ <-.
    apply list_elem_of_omap in Hin as (line & _ & Hline).
    destruct (FileStreamMonitor.blank line); [done|]. by eapply parseLine_typed.
Qed.

Lemma parser_records_are_typed_sample :
  exists sid ty role content ts,
    sessionId Sample.hi = JStr sid /\ type Sample.hi = JStr ty
    /\ (ty = "user" \/ ty = "assistant")
    /\ message Sample.hi = JObj [("role", JStr role); ("content", JStr content)]
    /\ timestamp Sample.hi = JStr ts.
Proof.
  apply (parser_records_are_typed JSON.parse
           [Sample.line_hi_head; Sample.line_hi_tail +:+ nl] EmptyString).
  vm_compute. apply list_elem_of_here.
Defined.

(** ** Session ids and paths *)

Section SharedUtils.

Import SharedUtils.

Lemma is_hex_kept (c : ascii) : is_hex c = true -> kept c = true.
Proof.
  unfold is_hex, kept, between, is_char.
  rewrite !orb_true_iff, !andb_true_iff, !Nat.leb_le, !Nat.eqb_eq. lia.
Qed.

Lemma dash_kept (c : ascii) : is_char 45 c = true -> kept c = true.
Proof.
  unfold kept, between, is_char.
  rewrite !orb_true_iff, !andb_true_iff, !Nat.leb_le, !Nat.eqb_eq. lia.
Qed.

Lemma conforms_kept (classes : list (ascii -> bool)) :
  Forall (fun p => forall c, p c = true -> kept c = true) classes ->
  forall s, conforms classes s = true ->
            sanitizePath s = s /\ String.length s = length classes.
Proof.
  induction 1 as [|p classes Hp _ IH]; intros [|c s]; cbn [conforms]; try done.
  intros [Hc Hs]%andb_prop. destruct (IH s Hs) as [Hsan Hlen].
  cbn [sanitizePath String.length length]. by rewrite (Hp c Hc), Hsan, Hlen.
Qed.

Lemma sanitizePath_kept (path : string) :
  sanitizePath (sanitizePath path) = sanitizePath path
  /\ Forall (fun c => kept c = true) (list_ascii_of_string (sanitizePath path)).
Proof.
  induction path as [|c r [IH1 IH2]]; [by split; [|constructor]|].
  cbn [sanitizePath]. destruct (kept c) eqn:Hc; [|done].
  cbn [sanitizePath list_ascii_of_string]. rewrite Hc, IH1. split; [done|by constructor].
Qed.

End SharedUtils.

(** X23. [sanitizePath] keeps the characters of its class and only those, so
    sanitizing twice is sanitizing once; and a session id that
    [isValidSessionId] accepts has 36 characters and is left as it is by
    [sanitizePath]. *)
Theorem valid_session_id_survives_sanitizePath :
  forall path : string,
    SharedUtils.sanitizePath (SharedUtils.sanitizePath path) = SharedUtils.sanitizePath path
    /\ Forall (fun c => SharedUtils.kept c = true)
              (list_ascii_of_string (SharedUtils.sanitizePath path))
    /\ (SharedUtils.isValidSessionId path = true ->
        SharedUtils.sanitizePath path = path /\ String.length path = 36%nat).
Proof.
  intros path. destruct (sanitizePath_kept path) as [H1 H2].
  split; [done|]. split; [done|]. intros Hvalid.
  apply (conforms_kept SharedUtils.uuidRegex); [|done].
  unfold SharedUtils.uuidRegex.
  repeat (apply Forall_app; split);
    try (apply Forall_replicate; exact is_hex_kept);
    apply Forall_singleton; exact dash_kept.
Qed.

(** X24. A key that is sent is never optional.  [optionalAuth] lets a
    request without a key through, unauthenticated and without touching
    the service; a request with a key is treated as [requireAuth] treats
    it, so an invalid, expired or revoked key is answered 401 here too.
    [validateWebSocketAuth] reaches the same verdict on the key, with the
    same device and the same effect on the service. *)
Theorem optionalAuth_refuses_bad_keys :
  forall (now : Z) (h : AuthMiddleware.header) (st : AuthenticationService.state),
    let r := AuthMiddleware.optionalAuth now h st in
    (AuthRoutes.falsy (AuthMiddleware.extract h) = true ->
     r = (st, [], AuthMiddleware.next false None None)
     /\ AuthMiddleware.requireAuth now h st = (st, [], AuthMiddleware.respond 401))
    /\ (AuthRoutes.falsy (AuthMiddleware.extract h) = false ->
        r = AuthMiddleware.requireAuth now h st
        /\ (exists key,
              AuthMiddleware.extract h = Some key
              /\ r.2 = (if AuthenticationService.currently_valid now key st
                        then AuthMiddleware.next true (Some key)
                               (AuthMiddleware.deviceId_of key r.1.1)
                        else AuthMiddleware.respond 401))
        /\ AuthMiddleware.validateWebSocketAuth now (AuthMiddleware.extract h) st
           = (r.1.1, r.1.2,
              match r.2 with
              | AuthMiddleware.next _ _ d => (true, d)
              | AuthMiddleware.respond _ => (false, None)
              end)).
Proof.
  intros now h st. cbn zeta.
  unfold AuthMiddleware.optionalAuth, AuthMiddleware.requireAuth,
    AuthMiddleware.createAuthMiddleware, AuthMiddleware.validateWebSocketAuth.
  destruct (AuthRoutes.falsy (AuthMiddleware.extract h)) eqn:Hfalsy.
  - split; [done|]. discriminate.
  - split; [discriminate|]. intros _. split; [done|].
    destruct (AuthMiddleware.extract h) as [key|]; [|done].
    cbn [default from_option id].
    pose proof (validateApiKey_result now key st) as Hres.
    destruct (AuthenticationService.validateApiKey now key st) as [[st' evs] ok].
    cbn [fst snd] in *. subst ok.
    split; [exists key; split; [done|]|];
      by destruct (AuthenticationService.currently_valid now key st).
Qed.
